(** * playwright-ai-reporter: the reporter core, embedded and verified

    The development follows the reporter class [PlaywrightTestReporter]
    (event ingestion in [onError] / [onTestEnd], the run-end method [onEnd]
    with its post-run channels) and [GenAIUtils].  JavaScript numbers that
    hold counts are integers ([Z]); durations are rationals ([Q]); strings
    are [string]s of one-byte characters; a [Map] whose iteration order is
    observable is an association list in insertion order, the local
    source-code cache is a [gmap]. *)

From Stdlib Require Import ZArith QArith String Ascii List Lia Bool.
From stdpp Require Import base option list strings gmap pretty.
Import ListNotations.

Local Open Scope Z_scope.
Local Open Scope string_scope.

(** ** Values exchanged with the test runner *)

(** [TestResult.status] of the runner. *)
Inductive Status := passed | failed | timedOut | skipped | interrupted.

(** [TestCase.outcome()] of the runner. *)
Inductive Outcome := oSkipped | oExpected | oUnexpected | oFlaky.

#[global] Instance Status_eq_dec : EqDecision Status.
Proof. solve_decision. Defined.

(** A value caught by a [catch] clause: an [Error] object with its message,
    or any other thrown value. *)
Inductive Thrown :=
| ErrorObj (message : string)
| NonError (repr : string).

(** The runner's [TestError]: both fields are optional. *)
Record TestError := { te_message : option string; te_stack : option string }.

Record Location := { loc_file : string; loc_line : Z; loc_column : Z }.

(** The part of a runner [TestCase] the reporter reads: [id], [title],
    [parent?.title], [location], [outcome()]. *)
Record TestCase := {
  tc_id : string;
  tc_title : string;
  tc_parent_title : option string;
  tc_location : option Location;
  tc_outcome : Outcome
}.

(** The part of a runner [TestResult] the reporter reads; [tr_duration] is in
    milliseconds. *)
Record TestResult := {
  tr_status : Status;
  tr_duration : Z;
  tr_errors : list TestError;
  tr_retry : Z
}.

(** ** The reporter's own types ([types.ts]) *)

Record AttemptError := { ae_message : string; ae_stack : option string }.

Record Attempt := {
  att_status : Status;
  att_duration : Q;
  att_errors : list AttemptError
}.

Record TestCaseDetails := {
  testId : string;
  testTitle : string;
  suiteTitle : string;
  testFile : option string;
  location : option Location;
  outcome : Outcome;
  status : string;
  owningTeam : string;
  tcd_duration : option Q
}.

Record TestRecord := { test : TestCaseDetails; attempts : list Attempt }.

Record TestFailure := {
  f_testId : string;
  f_testTitle : string;
  f_suiteTitle : string;
  f_errorMessage : string;
  f_errorStack : string;
  f_duration : Q;
  f_owningTeam : string;
  f_isTimeout : bool;
  f_errorCategory : string;
  f_testFile : option string;
  f_location : option Location
}.

(** What [TestUtils.processTestResults] hands back to [onEnd]. *)
Record ProcessedResults := {
  pr_passedCount : Z;
  pr_testCount : Z;
  pr_skippedCount : Z;
  pr_failures : list TestFailure;
  pr_passedDurations : list Q
}.

Record SlowTest := { st_testTitle : string; st_duration : Q }.

Record BuildInfo := { buildBranch : option string; commitId : option string }.

Record TestSummary := {
  failures : list TestFailure;
  testCount : Z;
  passedCount : Z;
  skippedCount : Z;
  failedCount : Z;
  totalTimeDisplay : string;
  averageTime : Q;
  slowestTest : Q;
  slowestTests : list SlowTest;
  buildInfo : BuildInfo
}.

(** [Required<ReporterConfig>] after the constructor has filled the defaults. *)
Record ReporterConfig := {
  slowTestThreshold : Z;
  maxSlowTestsToShow : Z;
  timeoutWarningThreshold : Z;
  showStackTrace : bool;
  outputDir : string;
  generateFix : bool;
  createBug : bool;
  generatePR : bool;
  publishToDB : bool;
  sendEmail : bool
}.

Definition defaultConfig : ReporterConfig :=
  {| slowTestThreshold := 5; maxSlowTestsToShow := 3;
     timeoutWarningThreshold := 30; showStackTrace := true;
     outputDir := "./test-results"; generateFix := false; createBug := false;
     generatePR := false; publishToDB := false; sendEmail := false |}.

(** ** JavaScript idioms *)

(** [s || d] on an optional string: [undefined] and the empty string are
    falsy. *)
Definition or_default (o : option string) (d : string) : string :=
  match o with
  | Some s => if decide (s = EmptyString) then d else s
  | None => d
  end.

(** Truthiness of an optional string. *)
Definition truthy (o : option string) : bool :=
  match o with
  | Some s => if decide (s = EmptyString) then false else true
  | None => false
  end.

(** ** The test-record store: [Map<string, TestRecord>] in insertion order *)

Definition Store := list (string * TestRecord).

Fixpoint store_get (k : string) (m : Store) : option TestRecord :=
  match m with
  | [] => None
  | (k', r) :: m' => if decide (k = k') then Some r else store_get k m'
  end.

Definition store_has (k : string) (m : Store) : bool :=
  match store_get k m with Some _ => true | None => false end.

(** [Map.set]: an existing key keeps its position, a new key goes last. *)
Fixpoint store_set (k : string) (r : TestRecord) (m : Store) : Store :=
  match m with
  | [] => [(k, r)]
  | (k', r') :: m' =>
      if decide (k = k') then (k', r) :: m' else (k', r') :: store_set k r m'
  end.

(** [record.attempts.push(a)] on the record object stored under [k]: the
    record is mutated in place, a missing key leaves the map as it is. *)
Fixpoint store_push (k : string) (a : Attempt) (m : Store) : Store :=
  match m with
  | [] => []
  | (k', r) :: m' =>
      if decide (k = k')
      then (k', {| test := test r; attempts := attempts r ++ [a] |}) :: m'
      else (k', r) :: store_push k a m'
  end.

Definition store_values (m : Store) : list TestRecord := map snd m.
Definition store_keys (m : Store) : list string := map fst m.

(** The object [saveLastRunStatus] serialises into [.last-run.json]. *)
Record LastRunData := { lr_status : string; lr_failedTests : list string }.

(** ** Helpers of [utils/utils.ts] and built-in conversions

    The [TestUtils] functions and the built-ins [toFixed(2)], [parseFloat],
    [Date.prototype.toISOString] and [JSON.stringify] are parameters of the
    reporter: every statement about the reporter holds for any choice of
    them. *)
Record Helpers := {
  outcomeToStatus : Outcome -> string;
  getOwningTeam : TestCase -> string;
  categorizeError : string -> string;
  processTestResults : Store -> ProcessedResults;
  calculateAverageTime : list Q -> Q;
  findSlowestTests : Store -> Z -> list SlowTest;
  formatTime : Q -> string;
  toFixed2 : Q -> string;
  parseFloat : string -> Q;
  toISOString : Z -> string;
  jsonStringify : LastRunData -> string
}.

(** ** Reporter state *)

(** A JavaScript [Error] handed to [onError]. *)
Record JsError := { err_message : string; err_stack : option string }.

(** The mutable fields of [PlaywrightTestReporter].  [addedFailures] lists
    the arguments of the calls to [_fileHandler.addFailure], in call order
    (the file handler itself is a collaborator). *)
Record Reporter := {
  config : ReporterConfig;
  rp_outputDir : string;
  testRecords : Store;
  startTime : Z;
  nonTestErrors : list JsError;
  hasInterruptedTests : bool;
  addedFailures : list TestFailure
}.

(** The constructor. *)
Definition newReporter (cfg : ReporterConfig) : Reporter :=
  {| config := cfg; rp_outputDir := outputDir cfg; testRecords := [];
     startTime := 0; nonTestErrors := []; hasInterruptedTests := false;
     addedFailures := [] |}.

(** [onBegin]: [now] is [Date.now()], [projectDirs] the [outputDir] of each
    configured project after [path.resolve]; the first truthy one replaces
    the reporter's output directory. *)
Definition onBegin (now : Z) (projectDirs : list (option string))
    (rp : Reporter) : Reporter :=
  {| config := config rp;
     rp_outputDir :=
       match List.find truthy projectDirs with
       | Some (Some d) => d
       | _ => rp_outputDir rp
       end;
     testRecords := testRecords rp;
     startTime := now;
     nonTestErrors := nonTestErrors rp;
     hasInterruptedTests := hasInterruptedTests rp;
     addedFailures := addedFailures rp |}.

(** [onError]: the error is pushed on [_nonTestErrors]. *)
Definition onError (e : JsError) (rp : Reporter) : Reporter :=
  {| config := config rp; rp_outputDir := rp_outputDir rp;
     testRecords := testRecords rp; startTime := startTime rp;
     nonTestErrors := nonTestErrors rp ++ [e];
     hasInterruptedTests := hasInterruptedTests rp;
     addedFailures := addedFailures rp |}.

Definition msToSec (ms : Z) : Q := (inject_Z ms / 1000)%Q.

Definition testCaseDetails (h : Helpers) (t : TestCase) : TestCaseDetails :=
  {| testId := tc_id t;
     testTitle := tc_title t;
     suiteTitle := or_default (tc_parent_title t) "Unknown Suite";
     testFile := loc_file <$> tc_location t;
     location := tc_location t;
     outcome := tc_outcome t;
     status := outcomeToStatus h (tc_outcome t);
     owningTeam := getOwningTeam h t;
     tcd_duration := None |}.

Definition attemptOf (r : TestResult) : Attempt :=
  {| att_status := tr_status r;
     att_duration := msToSec (tr_duration r);
     att_errors :=
       map (fun e => {| ae_message := or_default (te_message e) "No error message";
                        ae_stack := te_stack e |}) (tr_errors r) |}.

(** [status === 'failed' || status === 'timedOut'] *)
Definition isFailing (s : Status) : bool :=
  match s with failed | timedOut => true | _ => false end.

(** The object literal passed to [_fileHandler.addFailure]. *)
Definition attemptFailure (h : Helpers) (t : TestCase) (r : TestResult) : TestFailure :=
  let errorMessage := or_default (head (tr_errors r) ≫= te_message) "Unknown error" in
  {| f_testId := tc_id t;
     f_testTitle := tc_title t;
     f_suiteTitle := or_default (tc_parent_title t) "Unknown Suite";
     f_errorMessage := errorMessage;
     f_errorStack := or_default (head (tr_errors r) ≫= te_stack) EmptyString;
     f_duration := msToSec (tr_duration r);
     f_owningTeam := getOwningTeam h t;
     f_isTimeout := bool_decide (tr_status r = timedOut);
     f_errorCategory := categorizeError h errorMessage;
     f_testFile := loc_file <$> tc_location t;
     f_location := tc_location t |}.

(** [onTestEnd]; console output is left out.  The record is looked up, and
    created, under the test's title alone. *)
Definition onTestEnd (h : Helpers) (t : TestCase) (r : TestResult)
    (rp : Reporter) : Reporter :=
  let title := tc_title t in
  let records1 :=
    if store_has title (testRecords rp) then testRecords rp
    else store_set title {| test := testCaseDetails h t; attempts := [] |}
           (testRecords rp) in
  let records2 := store_push title (attemptOf r) records1 in
  {| config := config rp; rp_outputDir := rp_outputDir rp;
     testRecords := records2;
     startTime := startTime rp;
     nonTestErrors := nonTestErrors rp;
     hasInterruptedTests :=
       if decide (tr_status r = interrupted) then true
       else hasInterruptedTests rp;
     addedFailures :=
       if isFailing (tr_status r)
       then addedFailures rp ++ [attemptFailure h t r]
       else addedFailures rp |}.

(** The events the runner delivers between [onBegin] and [onEnd]. *)
Inductive RunEvent :=
| TestEnd (t : TestCase) (r : TestResult)
| SetupError (e : JsError).

Definition deliver (h : Helpers) (rp : Reporter) (e : RunEvent) : Reporter :=
  match e with
  | TestEnd t r => onTestEnd h t r rp
  | SetupError e => onError e rp
  end.

Definition ingest (h : Helpers) (evs : list RunEvent) (rp : Reporter) : Reporter :=
  fold_left (deliver h) evs rp.

(** ** Strings the way the source handles them *)

Definition isAlnum (c : ascii) : bool :=
  let n := nat_of_ascii c in
  ((48 <=? n) && (n <=? 57) || (65 <=? n) && (n <=? 90)
   || (97 <=? n) && (n <=? 122))%nat.

Definition lowerChar (c : ascii) : ascii :=
  let n := nat_of_ascii c in
  if ((65 <=? n) && (n <=? 90))%nat then ascii_of_nat (n + 32) else c.

Fixpoint mapChars (f : ascii -> ascii) (s : string) : string :=
  match s with
  | EmptyString => EmptyString
  | String c s' => String (f c) (mapChars f s')
  end.

Definition toLowerCase : string -> string := mapChars lowerChar.

(** [title.replace(/[^a-zA-Z0-9]/g, '-').toLowerCase()] *)
Definition sanitizeTitle (title : string) : string :=
  toLowerCase (mapChars (fun c => if isAlnum c then c else "-"%char) title).

(** [s.slice(0, -n)]: all but the last [n] characters. *)
Definition dropLast (n : nat) (s : string) : string :=
  String.substring 0 (String.length s - n) s.

(** [iso.replace(/[:.]/g, '-').slice(0, -5)] *)
Definition branchTimestamp (iso : string) : string :=
  dropLast 5
    (mapChars (fun c => if decide (c = ":"%char) then "-"%char
                        else if decide (c = "."%char) then "-"%char else c) iso).

Definition branchNameOf (title iso : string) : string :=
  "autofix/" ++ sanitizeTitle title ++ "-" ++ branchTimestamp iso.

(** [s.includes(pat)] *)
Definition includes (pat s : string) : bool :=
  match String.index 0 pat s with Some _ => true | None => false end.

(** [s.substring(0, n) + (s.length > n ? '...' : '')] *)
Definition excerpt (n : nat) (s : string) : string :=
  String.substring 0 n s ++ (if (n <? String.length s)%nat then "..." else EmptyString).

(** [s.split(sep)] for a one-character separator: never the empty list. *)
Fixpoint splitOn (sep : ascii) (s : string) : list string :=
  match s with
  | EmptyString => [EmptyString]
  | String c s' =>
      if decide (c = sep) then EmptyString :: splitOn sep s'
      else match splitOn sep s' with
           | [] => [String c EmptyString]
           | w :: ws => String c w :: ws
           end
  end.

(** White space among the one-byte characters: tab, line feed, vertical tab,
    form feed, carriage return and space. *)
Definition isSpace (c : ascii) : bool :=
  let n := nat_of_ascii c in ((9 <=? n) && (n <=? 13) || (n =? 32))%nat.

Fixpoint trimStart (s : string) : string :=
  match s with
  | String c s' => if isSpace c then trimStart s' else s
  | EmptyString => EmptyString
  end.

Fixpoint trimEnd (s : string) : string :=
  match s with
  | EmptyString => EmptyString
  | String c s' =>
      match trimEnd s' with
      | EmptyString => if isSpace c then EmptyString else String c EmptyString
      | t => String c t
      end
  end.

Definition trim (s : string) : string := trimEnd (trimStart s).

(** [lines.join(sep)] *)
Definition join (sep : string) (l : list string) : string := String.concat sep l.

Definition newline : string := String (ascii_of_nat 10) EmptyString.

(** The double-quote character. *)
Definition dq : string := String (ascii_of_nat 34) EmptyString.

(** The indentation a template literal inherits from the code around it. *)
Fixpoint spaces (n : nat) : string :=
  match n with
  | O => EmptyString
  | S n' => String " "%char (spaces n')
  end.

(** [GenAIUtils.truncateStackTrace] *)
Definition truncateStackTrace (stack : string) : string :=
  if decide (stack = EmptyString) then EmptyString
  else
    let lines := splitOn (ascii_of_nat 10) stack in
    join newline (take 15 lines)
    ++ (if (15 <? length lines)%nat then newline ++ "... (truncated)" else EmptyString).

(** The nine characters the first replacement of [sanitizeFilename] turns
    into an underscore: backslash, slash, colon, star, question mark, double
    quote, less-than, greater-than, bar. *)
Definition isReserved (c : ascii) : bool :=
  bool_decide (nat_of_ascii c ∈ [92; 47; 58; 42; 63; 34; 60; 62; 124]%nat).

(** The second replacement of [sanitizeFilename]: every maximal run of
    white space becomes one dash. *)
Fixpoint collapseSpaces (inRun : bool) (s : string) : string :=
  match s with
  | EmptyString => EmptyString
  | String c s' =>
      if isSpace c
      then (if inRun then collapseSpaces true s'
            else String "-"%char (collapseSpaces true s'))
      else String c (collapseSpaces false s')
  end.

(** [GenAIUtils.sanitizeFilename] *)
Definition sanitizeFilename (filename : string) : string :=
  String.substring 0 100
    (collapseSpaces false
       (mapChars (fun c => if isReserved c then "_"%char else c) filename)).

(** [path.join(a, b)] on already normal segments. *)
Definition pathJoin (a b : string) : string := a ++ "/" ++ b.

(** [path.basename(p, ext)] on a POSIX path. *)
Definition basename (p ext : string) : string :=
  let b := default p (last (splitOn "/"%char p)) in
  let n := (String.length b - String.length ext)%nat in
  if decide (String.substring n (String.length ext) b = ext) then
    (if decide (b = ext) then b else String.substring 0 n b)
  else b.

(** ** Collaborator interfaces *)

Record AIMessage := { role : string; content : string }.
Record AIOptions := { maxTokens : Z; temperature : Q }.

Inductive FileAction := fa_add | fa_modify | fa_delete.
Record FileChange := { fc_path : string; fc_content : string; fc_action : FileAction }.

Record PROptions := {
  sourceBranch : string;
  targetBranch : string;
  pro_title : string;
  pro_description : string;
  pro_labels : list string;
  draft : option bool
}.

Record PRInfo := {
  pri_id : string;
  pri_number : Z;
  pri_url : string;
  pri_status : string;
  pri_sourceBranch : string;
  pri_targetBranch : string
}.

Inductive BugPriority := Critical | High | Medium | Low.

Record BugDetails := {
  bd_title : string;
  bd_description : string;
  priority : BugPriority;
  bd_labels : list string;
  assignee : string;
  testFailure : TestFailure
}.

Record BugInfo := { bi_id : string; bi_url : string; bi_status : string; bi_title : string }.

Record BuildMetadata := { md_buildInfo : BuildInfo }.

(** [TestRun] of the database interface; [run_timestamp] is the epoch time of
    the [Date] object. *)
Record TestRun := {
  run_name : string;
  run_timestamp : Z;
  environment : string;
  branch : option string;
  commitHash : option string;
  totalTests : Z;
  passedTests : Z;
  failedTests : Z;
  skippedTests : Z;
  run_duration : Q;
  metadata : BuildMetadata
}.

(** [TestResult] of the database interface. *)
Record TestResultRow := {
  testRunId : string;
  row_testId : string;
  row_testTitle : string;
  row_suiteTitle : string;
  row_status : string;
  row_duration : Q;
  row_errorMessage : option string;
  row_errorStack : option string;
  row_timestamp : Z
}.

Inductive NotificationSeverity := Info | Warning | Error | CriticalSeverity.

Record NotificationOptions := {
  recipients : list string;
  severity : NotificationSeverity;
  subject : string
}.

Record NotificationResult := {
  success : bool;
  messageId : option string;
  nr_error : option string
}.

(** The five post-run channels. *)
Inductive Channel :=
| FixSuggestion | PRAutomation | BugFiling | DBPublish | Notification.

#[global] Instance Channel_eq_dec : EqDecision Channel.
Proof. solve_decision. Defined.

(** Every call that leaves the reporter and may throw: the file system, the
    build-info and file-handler utilities, and the five providers reached
    through [ProviderRegistry].  The index is the type of the value the call
    returns when it does not throw. *)
Inductive Request : Type -> Type :=
| ReadFileSync (path : string) : Request string
| WriteFileSync (path data : string) : Request unit
| ExistsSync (path : string) : Request bool
| MkdirSync (path : string) : Request unit
| GetBuildInfo : Request BuildInfo
| WriteSummary (s : TestSummary) (cases : list TestCaseDetails) : Request unit
| GetAIProvider : Request string
| GenerateCompletion (messages : list AIMessage) (o : AIOptions) : Request string
| GetPRProvider : Request unit
| CreateBranch (name base : string) : Request bool
| CommitChanges (name : string) (changes : list FileChange) (message : string)
    : Request (option string)
| CreatePullRequest (o : PROptions) : Request (option PRInfo)
| GetBugTrackerProvider : Request unit
| CreateBug (d : BugDetails) : Request (option BugInfo)
| GetDatabaseProvider : Request unit
| DbInitialize : Request unit
| SaveTestRun (r : TestRun) : Request string
| SaveTestResult (r : TestResultRow) : Request string
| GetNotificationProvider : Request unit
| SendTestSummary (s : TestSummary) (o : NotificationOptions)
    : Request NotificationResult
| SendTestFailures (fs : list TestFailure) (o : NotificationOptions)
    : Request NotificationResult.

(** Console output, one constructor per informative line (separator lines
    and colours are left out). *)
Inductive LogMsg :=
| LNoTests
| LSummary (s : TestSummary)
| LNonTestErrors (es : list JsError)
| LFailures (fs : list TestFailure)
| LInterrupted
| LCreatedDir (dir : string)
| LLastRunWritten (path : string)
| LLastRunFailed (e : Thrown)
| LBanner
| LDone
| LFixFor (title : string)
| LFixGenerated (promptPath fixPath : string)
| LGeneratingPR
| LFixNone
| LFixError (title : string) (e : Thrown)
| LGenAINoFile (title : string)
| LGenAIProvider (name : string)
| LGenAICallError (e : Thrown)
| LGenAIError (e : Thrown)
| LPRNoTestFile
| LPRBranch (name : string)
| LPRBranchFailed (name : string)
| LPRBranchOk
| LPRCommitting (name : string)
| LPRCommitFailed
| LPRCommitted (hash7 : string)
| LPRCreating (name base : string)
| LPRCreated (i : PRInfo)
| LPRFailed
| LBugFor (title : string)
| LBugCreated (i : BugInfo)
| LBugNone
| LBugError (title : string) (e : Thrown)
| LBugComplete
| LNotConfigured
| LDBInit
| LDBInitOk
| LDBSavingRun
| LDBRunSaved (id : string)
| LDBSavingResults (n : nat)
| LDBResultsSaved
| LDBPublished (s : TestSummary)
| LNoRecipients
| LMailTo (rs : list string)
| LMailSendingSummary
| LMailSummarySent (id : option string)
| LMailSummaryFailed (e : option string)
| LMailSendingFailures
| LMailFailuresSent (id : option string)
| LMailFailuresFailed (e : option string)
| LMailComplete
| LChannelError (e : Thrown)
| LErrorMessage (m : string)
| LConfigHint.

Inductive Action :=
| Log (m : LogMsg)
| Call {R : Type} (q : Request R).

(** One observable step of [onEnd]; [ev_channel] is the channel whose code
    performs it, [None] for the reporter's own reporting steps. *)
Record Event := { ev_channel : option Channel; ev_action : Action }.

(** The result of evaluating a call or a block. *)
Inductive Completion (A : Type) :=
| Ok (a : A)
| Throw (e : Thrown).
Arguments Ok {A} a.
Arguments Throw {A} e.

(** The environment variables and working directory [onEnd] reads. *)
Record ProcessEnv := {
  cwd : string;
  DATABASE_PROVIDER : option string;
  NOTIFICATION_PROVIDER : option string;
  EMAIL_RECIPIENTS : option string;
  BASE_BRANCH : option string;
  GITHUB_BASE_REF : option string;
  NODE_ENV : option string
}.

(** ** The effect monad: state, exceptions and a trace

    [W] is the state of everything outside the reporter.  A handler answers
    each request from that state, by a value or by throwing, and moves the
    state on. *)
Section Effects.
Context {W : Type}.

Definition Handler := forall R, Request R -> W -> Completion R * W.

(** [Date.now()]: the clock never throws. *)
Definition Clock := W -> Z * W.

(** The process as [onEnd] sees it: the outside world, [process.exitCode],
    and the [sourceCodeCache] map that [_generateFixSuggestions] shares by
    reference with [GenAIUtils.generateFixSuggestion]. *)
Record Proc := {
  world : W;
  exitCode : option Z;
  sourceCodeCache : gmap string string
}.

Record Run (A : Type) := mkRun {
  result : Completion A;
  final : Proc;
  trace : list Event
}.
Arguments mkRun {A}.
Arguments result {A}.
Arguments final {A}.
Arguments trace {A}.

Definition M (A : Type) := Proc -> Run A.

Definition ret {A} (a : A) : M A := fun s => mkRun (Ok a) s [].

Definition bind {A B} (m : M A) (f : A -> M B) : M B := fun s =>
  let r := m s in
  match result r with
  | Ok a => let r' := f a (final r) in
            mkRun (result r') (final r') (trace r ++ trace r')
  | Throw e => mkRun (Throw e) (final r) (trace r)
  end.

(** [try { m } catch (e) { hdl e }] *)
Definition try_catch {A} (m : M A) (hdl : Thrown -> M A) : M A := fun s =>
  let r := m s in
  match result r with
  | Ok a => r
  | Throw e => let r' := hdl e (final r) in
               mkRun (result r') (final r') (trace r ++ trace r')
  end.

Definition log (ch : option Channel) (m : LogMsg) : M unit := fun s =>
  mkRun (Ok tt) s [ {| ev_channel := ch; ev_action := Log m |} ].

Definition call (h : Handler) (ch : option Channel) {R} (q : Request R) : M R :=
  fun s =>
    let '(r, w) := h R q (world s) in
    mkRun r {| world := w; exitCode := exitCode s;
               sourceCodeCache := sourceCodeCache s |}
          [ {| ev_channel := ch; ev_action := Call q |} ].

Definition dateNow (clk : Clock) : M Z := fun s =>
  let '(t, w) := clk (world s) in
  mkRun (Ok t) {| world := w; exitCode := exitCode s;
                  sourceCodeCache := sourceCodeCache s |} [].

Definition setExitCode (n : Z) : M unit := fun s =>
  mkRun (Ok tt) {| world := world s; exitCode := Some n;
                   sourceCodeCache := sourceCodeCache s |} [].

Definition cacheGet (k : string) : M (option string) := fun s =>
  mkRun (Ok (sourceCodeCache s !! k)) s [].

Definition cacheSet (k v : string) : M unit := fun s =>
  mkRun (Ok tt) {| world := world s; exitCode := exitCode s;
                   sourceCodeCache := <[k := v]> (sourceCodeCache s) |} [].

Definition cacheNew : M unit := fun s =>
  mkRun (Ok tt) {| world := world s; exitCode := exitCode s;
                   sourceCodeCache := ∅ |} [].

(** [for (const x of l) { body x }] *)
Fixpoint forEach {A} (l : list A) (body : A -> M unit) : M unit :=
  match l with
  | [] => ret tt
  | x :: l' => bind (body x) (fun _ => forEach l' body)
  end.

(** [if (c) { m }] *)
Definition when (c : bool) (m : M unit) : M unit := if c then m else ret tt.
End Effects.

Arguments Proc : clear implicits.
Arguments Run : clear implicits.
Arguments M : clear implicits.
Arguments Handler : clear implicits.
Arguments Clock : clear implicits.
Arguments mkRun {W A}.
Arguments result {W A}.
Arguments final {W A}.
Arguments trace {W A}.

Declare Scope eff_scope.
Delimit Scope eff_scope with eff.
Notation "x <- m ;; k" := (bind m (fun x => k))
  (at level 100, m at next level, right associativity) : eff_scope.
Notation "m ;; k" := (bind m (fun _ => k))
  (at level 100, right associativity) : eff_scope.

(** ** [GenAIUtils] *)

Record FixResult := { promptPath : string; fixPath : string }.

(** [value || 'unknown'] on a position number: zero is falsy. *)
Definition orUnknown (n : option Z) : string :=
  match n with
  | Some z => if decide (z = 0) then "unknown" else pretty z
  | None => "unknown"
  end.

(** The prompt assembled by [generateFixSuggestion]. *)
Definition promptContentOf (failure : TestFailure) (testFile source : string) : string :=
  join newline
    [ "# Instructions"; EmptyString;
      "- The following Playwright test failed.";
      "- Explain why it failed and suggest a fix, respecting Playwright best practices.";
      "- Be concise and provide a code snippet with the fix.";
      EmptyString;
      "# Test info"; EmptyString;
      "- Name: " ++ f_testTitle failure;
      "- File: " ++ testFile;
      "- Line: " ++ orUnknown (loc_line <$> f_location failure);
      "- Column: " ++ orUnknown (loc_column <$> f_location failure);
      EmptyString;
      "# Error details"; EmptyString;
      "```"; f_errorMessage failure; "```"; EmptyString;
      "# Stack trace"; EmptyString;
      "```"; truncateStackTrace (f_errorStack failure); "```"; EmptyString;
      "# Test source"; EmptyString;
      "```ts"; source; "```" ].

Definition safeFilenameOf (failure : TestFailure) (testFile : string) : string :=
  sanitizeFilename
    (if decide (f_testId failure = EmptyString)
     then basename testFile ".ts" ++ "-" ++ f_testTitle failure
     else f_testId failure).

(** The test file of a failure when it is truthy. *)
Definition knownFile (failure : TestFailure) : option string :=
  match f_testFile failure with
  | Some p => if decide (p = EmptyString) then None else Some p
  | None => None
  end.

Section Engine.
Context {W : Type} (h : Handler W) (clk : Clock W) (u : Helpers) (env : ProcessEnv).
(** [this]: the reporter at the time [onEnd] is called. *)
Context (rp : Reporter).

Local Open Scope eff_scope.

Definition fx : option Channel := Some FixSuggestion.
Definition pra : option Channel := Some PRAutomation.
Definition bug : option Channel := Some BugFiling.
Definition db : option Channel := Some DBPublish.
Definition mail : option Channel := Some Notification.

(** [GenAIUtils.callGenAISuggestion]: a provider error is turned into the
    returned text. *)
Definition callGenAISuggestion (prompt : string) : M W string :=
  try_catch
    (name <- call h fx GetAIProvider ;;
     log fx (LGenAIProvider name) ;;
     call h fx
       (GenerateCompletion
          [ {| role := "system";
               content := "You are a test engineer helping debug flaky Playwright tests." |};
            {| role := "user"; content := prompt |} ]
          {| maxTokens := 1000; temperature := (7 # 10)%Q |}))
    (fun e =>
       log fx (LGenAICallError e) ;;
       ret ("Error retrieving suggestion from AI provider: "
            ++ match e with ErrorObj m => m | NonError _ => "Unknown error" end)).

(** [GenAIUtils.generateFixSuggestion]; the [sourceCode] argument is the
    caller's cache, shared by reference. *)
Definition generateFixSuggestion (failure : TestFailure) : M W (option FixResult) :=
  match knownFile failure with
  | None => log fx (LGenAINoFile (f_testTitle failure)) ;; ret None
  | Some testFile =>
      try_catch
        (let promptDir := pathJoin (pathJoin (cwd env) "test-results") "prompts" in
         let fixesDir := pathJoin (pathJoin (cwd env) "test-results") "fixes" in
         call h fx (MkdirSync promptDir) ;;
         call h fx (MkdirSync fixesDir) ;;
         cached <- cacheGet testFile ;;
         source <-
           (if truthy cached then ret (default EmptyString cached)
            else (src <- call h fx (ReadFileSync testFile) ;;
                  cacheSet testFile src ;;
                  ret src)) ;;
         let promptContent := promptContentOf failure testFile source in
         let safeFilename := safeFilenameOf failure testFile in
         let promptPath := pathJoin promptDir (safeFilename ++ ".md") in
         call h fx (WriteFileSync promptPath promptContent) ;;
         suggestion <- callGenAISuggestion promptContent ;;
         let fixPath := pathJoin fixesDir ("fix-" ++ safeFilename ++ ".md") in
         call h fx (WriteFileSync fixPath suggestion) ;;
         ret (Some {| promptPath := promptPath; fixPath := fixPath |}))
        (fun e => log fx (LGenAIError e) ;; ret None)
  end.

(** ** The reporter's post-run channels *)

(** The tail of every channel-level [catch] block: the message of an
    [Error], and a configuration hint when it names the missing provider
    configuration. *)
Definition explain (ch : option Channel) (needles : list string) (e : Thrown) : M W unit :=
  log ch (LChannelError e) ;;
  match e with
  | ErrorObj m =>
      log ch (LErrorMessage m) ;;
      when (existsb (fun n => includes n m) needles) (log ch LConfigHint)
  | NonError _ => ret tt
  end.

Definition commitMessageOf (failure : TestFailure) (testFile : string) : string :=
  join newline
    [ "fix: Auto-fix for failing test " ++ dq ++ f_testTitle failure ++ dq;
      EmptyString;
      spaces 12 ++ "Test: " ++ f_testTitle failure;
      spaces 12 ++ "Suite: " ++ f_suiteTitle failure;
      spaces 12 ++ "File: " ++ testFile;
      spaces 12 ++ "Error: " ++ excerpt 100 (f_errorMessage failure);
      EmptyString;
      spaces 12 ++ "This is an AI-generated fix suggestion." ].

Definition prDescriptionOf (failure : TestFailure) (testFile commitHash : string) : string :=
  join newline
    [ "## AI-Generated Fix Suggestion"; EmptyString;
      spaces 16 ++ "**Test**: " ++ f_testTitle failure;
      spaces 16 ++ "**Suite**: " ++ f_suiteTitle failure;
      spaces 16 ++ "**File**: `" ++ testFile ++ "`"; EmptyString;
      spaces 16 ++ "### Error";
      spaces 16 ++ "```";
      spaces 16 ++ f_errorMessage failure;
      spaces 16 ++ "```"; EmptyString;
      spaces 16 ++ "### Error Category";
      spaces 16 ++ f_errorCategory failure; EmptyString;
      spaces 16 ++ "### Duration";
      spaces 16 ++ toFixed2 u (f_duration failure) ++ "s"; EmptyString;
      spaces 16 ++ "### AI Fix Analysis";
      spaces 16 ++ "This PR contains an AI-generated fix suggestion. Please review carefully before merging.";
      EmptyString;
      spaces 16 ++ "**Fix Details**: See commit "
        ++ or_default (Some (String.substring 0 7 commitHash)) "unknown";
      EmptyString;
      spaces 16 ++ "---";
      spaces 16 ++ "_This PR was automatically generated by playwright-ai-reporter_" ].

(** The options object [_generatePullRequest] passes to
    [createPullRequest]. *)
Definition prOptionsOf (failure : TestFailure) (testFile branchName baseBranch commitHash : string)
    : PROptions :=
  {| sourceBranch := branchName;
     targetBranch := baseBranch;
     pro_title := "🤖 Auto-fix: " ++ f_testTitle failure;
     pro_description := prDescriptionOf failure testFile commitHash;
     pro_labels := ["auto-fix"; "test-failure"; "ai-generated"];
     draft := Some true |}.

(** [process.env.BASE_BRANCH || process.env.GITHUB_BASE_REF || 'main'] *)
Definition baseBranchOf : string :=
  or_default (BASE_BRANCH env) (or_default (GITHUB_BASE_REF env) "main").

(** [_generatePullRequest] *)
Definition _generatePullRequest (failure : TestFailure) (fixResult : FixResult) : M W unit :=
  try_catch
    (call h pra GetPRProvider ;;
     fixContent <- call h pra (ReadFileSync (fixPath fixResult)) ;;
     match knownFile failure with
     | None => log pra LPRNoTestFile
     | Some testFile =>
         now <- dateNow clk ;;
         let branchName := branchNameOf (f_testTitle failure) (toISOString u now) in
         let baseBranch := baseBranchOf in
         log pra (LPRBranch branchName) ;;
         branchCreated <- call h pra (CreateBranch branchName baseBranch) ;;
         if negb branchCreated then log pra (LPRBranchFailed branchName)
         else
           log pra LPRBranchOk ;;
           let fileChanges :=
             [ {| fc_path := testFile; fc_content := fixContent; fc_action := fa_modify |} ] in
           log pra (LPRCommitting branchName) ;;
           commitHash <- call h pra
             (CommitChanges branchName fileChanges (commitMessageOf failure testFile)) ;;
           if negb (truthy commitHash) then log pra LPRCommitFailed
           else
             let hash := default EmptyString commitHash in
             log pra (LPRCommitted (String.substring 0 7 hash)) ;;
             log pra (LPRCreating branchName baseBranch) ;;
             prInfo <- call h pra
               (CreatePullRequest (prOptionsOf failure testFile branchName baseBranch hash)) ;;
             match prInfo with
             | Some i => log pra (LPRCreated i)
             | None => log pra LPRFailed
             end
     end)
    (explain pra ["PR provider configuration not found"]).

(** The [if (result) ... else ...] block of [_generateFixSuggestions]: what
    happens once [generateFixSuggestion] has returned for a failure. *)
Definition afterFix (failure : TestFailure) (result : option FixResult) : M W unit :=
  match result with
  | Some r =>
      log fx (LFixGenerated (promptPath r) (fixPath r)) ;;
      when (generatePR (config rp))
        (log pra LGeneratingPR ;; _generatePullRequest failure r)
  | None => log fx LFixNone
  end.

(** The body of the loop of [_generateFixSuggestions] for one failure. *)
Definition fixOne (failure : TestFailure) : M W unit :=
  match knownFile failure with
  | None => ret tt
  | Some testFile =>
      try_catch
        (log fx (LFixFor (f_testTitle failure)) ;;
         cached <- cacheGet testFile ;;
         match cached with
         | Some _ => ret tt
         | None => source <- call h fx (ReadFileSync testFile) ;;
                   cacheSet testFile source
         end ;;
         result <- generateFixSuggestion failure ;;
         afterFix failure result)
        (fun e => log fx (LFixError (f_testTitle failure) e))
  end.

(** [_generateFixSuggestions] *)
Definition _generateFixSuggestions (failures : list TestFailure) : M W unit :=
  log fx LBanner ;;
  cacheNew ;;
  forEach failures fixOne ;;
  log fx LDone.

Definition bugDescriptionOf (failure : TestFailure) : string :=
  join newline
    [ "## Test Failure Report"; EmptyString;
      "**Test**: " ++ f_testTitle failure;
      "**Suite**: " ++ f_suiteTitle failure;
      "**File**: `" ++ or_default (f_testFile failure) "unknown" ++ "`";
      "**Owner**: " ++ f_owningTeam failure; EmptyString;
      "### Error"; "```"; f_errorMessage failure; "```"; EmptyString;
      "### Error Category"; f_errorCategory failure; EmptyString;
      "### Stack Trace"; "```"; excerpt 500 (f_errorStack failure); "```"; EmptyString;
      "### Additional Information";
      "- **Duration**: " ++ toFixed2 u (f_duration failure) ++ "s";
      "- **Timeout**: " ++ (if f_isTimeout failure then "Yes" else "No");
      "- **Test ID**: " ++ or_default (Some (f_testId failure)) "N/A";
      EmptyString; "---";
      "_This bug was automatically created by playwright-ai-reporter_" ].

(** The payload [_createBugsForFailures] passes to [createBug]. *)
Definition bugDetailsOf (failure : TestFailure) : BugDetails :=
  {| bd_title := "[Test Failure] " ++ f_testTitle failure;
     bd_description := bugDescriptionOf failure;
     priority := if f_isTimeout failure then High else Medium;
     bd_labels := ["test-failure"; "automated"; toLowerCase (f_errorCategory failure)];
     assignee := f_owningTeam failure;
     testFailure := failure |}.

(** The body of the loop of [_createBugsForFailures] for one failure. *)
Definition bugOne (failure : TestFailure) : M W unit :=
  try_catch
    (log bug (LBugFor (f_testTitle failure)) ;;
     bugInfo <- call h bug (CreateBug (bugDetailsOf failure)) ;;
     match bugInfo with
     | Some i => log bug (LBugCreated i)
     | None => log bug LBugNone
     end)
    (fun e => log bug (LBugError (f_testTitle failure) e)).

(** [_createBugsForFailures] *)
Definition _createBugsForFailures (failures : list TestFailure) : M W unit :=
  log bug LBanner ;;
  try_catch
    (call h bug GetBugTrackerProvider ;;
     forEach failures bugOne ;;
     log bug LBugComplete)
    (explain bug ["Bug tracker provider configuration not found"]).

Definition testRunOf (summary : TestSummary) (t1 t2 : Z) : TestRun :=
  {| run_name := "Test Run " ++ toISOString u t1;
     run_timestamp := t2;
     environment := or_default (NODE_ENV env) "test";
     branch := buildBranch (buildInfo summary);
     commitHash := commitId (buildInfo summary);
     totalTests := testCount summary;
     passedTests := passedCount summary;
     failedTests := failedCount summary;
     skippedTests := skippedCount summary;
     run_duration := parseFloat u (totalTimeDisplay summary);
     metadata := {| md_buildInfo := buildInfo summary |} |}.

(** The body of the loop of [_publishToDatabase] for one test case. *)
Definition saveOne (testRunId : string) (failures : list TestFailure)
    (testCase : TestCaseDetails) : M W unit :=
  let failure :=
    List.find (fun f => bool_decide (f_testTitle f = testTitle testCase)) failures in
  rowId <-
    (if decide (testId testCase = EmptyString)
     then (t <- dateNow clk ;; ret ("test-" ++ pretty t))
     else ret (testId testCase)) ;;
  ts <- dateNow clk ;;
  call h db
    (SaveTestResult
       {| testRunId := testRunId;
          row_testId := rowId;
          row_testTitle := testTitle testCase;
          row_suiteTitle := suiteTitle testCase;
          row_status := or_default (Some (status testCase)) "unknown";
          row_duration := default 0%Q (tcd_duration testCase);
          row_errorMessage := f_errorMessage <$> failure;
          row_errorStack := f_errorStack <$> failure;
          row_timestamp := ts |}) ;;
  ret tt.

(** [_publishToDatabase]; the inner block yields [false] where the source
    returns from the method before its closing log line. *)
Definition _publishToDatabase (summary : TestSummary)
    (allTestCases : list TestCaseDetails) (failures : list TestFailure) : M W unit :=
  log db LBanner ;;
  go_on <-
    try_catch
      (if negb (truthy (DATABASE_PROVIDER env))
       then log db LNotConfigured ;; ret false
       else
         call h db GetDatabaseProvider ;;
         log db LDBInit ;;
         call h db DbInitialize ;;
         log db LDBInitOk ;;
         log db LDBSavingRun ;;
         t1 <- dateNow clk ;;
         t2 <- dateNow clk ;;
         testRunId <- call h db (SaveTestRun (testRunOf summary t1 t2)) ;;
         log db (LDBRunSaved testRunId) ;;
         log db (LDBSavingResults (length allTestCases)) ;;
         forEach allTestCases (saveOne testRunId failures) ;;
         log db LDBResultsSaved ;;
         log db (LDBPublished summary) ;;
         ret true)
      (fun e =>
         explain db ["Database provider configuration not found";
                     "Database configuration not found"] e ;;
         ret true) ;;
  when go_on (log db LDone).

(** [EMAIL_RECIPIENTS?.split(',').map((r) => r.trim()) || []] *)
Definition recipientsOf : list string :=
  match EMAIL_RECIPIENTS env with
  | Some s => map trim (splitOn ","%char s)
  | None => []
  end.

(** The severity of the summary notification.  For the counts the
    comparison [skippedCount > testCount * 0.2] agrees with
    [testCount < 5 * skippedCount]: a multiple of five times 0.2 rounds to
    the exact quotient. *)
Definition severityOf (summary : TestSummary) : NotificationSeverity :=
  if decide (0 < failedCount summary) then Error
  else if decide (testCount summary < 5 * skippedCount summary) then Warning
  else Info.

Definition summaryOptionsOf (summary : TestSummary) (recipients : list string)
    : NotificationOptions :=
  {| recipients := recipients;
     severity := severityOf summary;
     subject := "Test Run "
                ++ (if decide (0 < failedCount summary) then "Failed" else "Completed")
                ++ ": " ++ pretty (passedCount summary) ++ "/"
                ++ pretty (testCount summary) ++ " passed" |}.

Definition failuresOptionsOf (failures : list TestFailure) (recipients : list string)
    : NotificationOptions :=
  {| recipients := recipients;
     severity := Error;
     subject := "Test Failures: " ++ pretty (length failures) ++ " test(s) failed" |}.

Definition nonEmpty {A} (l : list A) : bool :=
  match l with [] => false | _ => true end.

(** [_sendEmailNotification] *)
Definition _sendEmailNotification (summary : TestSummary)
    (failures : list TestFailure) : M W unit :=
  log mail LBanner ;;
  go_on <-
    try_catch
      (if negb (truthy (NOTIFICATION_PROVIDER env))
       then log mail LNotConfigured ;; ret false
       else
         call h mail GetNotificationProvider ;;
         let recipients := recipientsOf in
         if negb (nonEmpty recipients)
         then log mail LNoRecipients ;; ret false
         else
           log mail (LMailTo recipients) ;;
           log mail LMailSendingSummary ;;
           summaryResult <- call h mail
             (SendTestSummary summary (summaryOptionsOf summary recipients)) ;;
           (if success summaryResult
            then log mail (LMailSummarySent (messageId summaryResult))
            else log mail (LMailSummaryFailed (nr_error summaryResult))) ;;
           when (nonEmpty failures)
             (log mail LMailSendingFailures ;;
              failuresResult <- call h mail
                (SendTestFailures failures (failuresOptionsOf failures recipients)) ;;
              if success failuresResult
              then log mail (LMailFailuresSent (messageId failuresResult))
              else log mail (LMailFailuresFailed (nr_error failuresResult))) ;;
           log mail LMailComplete ;;
           ret true)
      (fun e =>
         explain mail ["Notification provider configuration not found"] e ;;
         ret true) ;;
  when go_on (log mail LDone).

(** The object [saveLastRunStatus] writes. *)
Definition lastRunDataOf (hasFailed : bool) : LastRunData :=
  {| lr_status := if hasFailed then "failed" else "passed";
     lr_failedTests :=
       map (fun r => testId (test r))
         (List.filter (fun r => bool_decide (status (test r) = "failed"))
            (store_values (testRecords rp))) |}.

Definition lastRunPath : string := pathJoin (rp_outputDir rp) ".last-run.json".

(** [saveLastRunStatus] *)
Definition saveLastRunStatus (hasFailed : bool) : M W unit :=
  let lastRunData := lastRunDataOf hasFailed in
  try_catch
    (present <- call h None (ExistsSync (rp_outputDir rp)) ;;
     when (negb present)
       (call h None (MkdirSync (rp_outputDir rp)) ;;
        log None (LCreatedDir (rp_outputDir rp))) ;;
     call h None (WriteFileSync lastRunPath (jsonStringify u lastRunData)) ;;
     log None (LLastRunWritten lastRunPath))
    (fun e => log None (LLastRunFailed e)).

Definition _exitWithSuccess : M W unit := setExitCode 0.
Definition _exitWithError : M W unit := setExitCode 1.

(** [Math.max(...passedDurations, 0)] *)
Definition maxDuration (ds : list Q) : Q :=
  fold_right (fun d m => if Qle_bool m d then d else m) 0%Q ds.

(** The [TestSummary] object literal of [onEnd]. *)
Definition summaryOf (p : ProcessedResults) (totalTimeDisplay : string)
    (buildInfo : BuildInfo) : TestSummary :=
  {| failures := pr_failures p;
     testCount := pr_testCount p;
     passedCount := pr_passedCount p;
     skippedCount := pr_skippedCount p;
     failedCount := pr_testCount p - pr_passedCount p - pr_skippedCount p;
     totalTimeDisplay := totalTimeDisplay;
     averageTime := calculateAverageTime u (pr_passedDurations p);
     slowestTest := maxDuration (pr_passedDurations p);
     slowestTests := findSlowestTests u (testRecords rp) (maxSlowTestsToShow (config rp));
     buildInfo := buildInfo |}.

(** [hasErrors] of [onEnd] *)
Definition hasErrors (failures : list TestFailure) : bool :=
  nonEmpty failures || nonEmpty (nonTestErrors rp) || hasInterruptedTests rp.

(** The four guarded channel invocations of [onEnd], in source order. *)
Definition fixStage (failures : list TestFailure) : M W unit :=
  when (generateFix (config rp) && nonEmpty failures)
    (_generateFixSuggestions failures).

Definition bugStage (failures : list TestFailure) : M W unit :=
  when (createBug (config rp) && nonEmpty failures)
    (_createBugsForFailures failures).

Definition dbStage (summary : TestSummary) (allTestCases : list TestCaseDetails)
    (failures : list TestFailure) : M W unit :=
  when (publishToDB (config rp)) (_publishToDatabase summary allTestCases failures).

Definition mailStage (summary : TestSummary) (failures : list TestFailure) : M W unit :=
  when (sendEmail (config rp)) (_sendEmailNotification summary failures).

Definition allTestCasesOf : list TestCaseDetails :=
  map test (store_values (testRecords rp)).

(** [onEnd]; its [FullResult] argument only feeds the opening banner. *)
Definition onEnd : M W unit :=
  endTime <- dateNow clk ;;
  let totalTimeSec := msToSec (endTime - startTime rp) in
  let totalTimeDisplay := formatTime u totalTimeSec in
  let p := processTestResults u (testRecords rp) in
  let failures := pr_failures p in
  if decide (pr_testCount p = 0)
  then log None LNoTests ;; _exitWithError
  else
    buildInfo <- call h None GetBuildInfo ;;
    let summary := summaryOf p totalTimeDisplay buildInfo in
    fixStage failures ;;
    bugStage failures ;;
    log None (LSummary summary) ;;
    when (nonEmpty (nonTestErrors rp)) (log None (LNonTestErrors (nonTestErrors rp))) ;;
    when (nonEmpty failures) (log None (LFailures failures)) ;;
    let allTestCases := allTestCasesOf in
    call h None (WriteSummary summary allTestCases) ;;
    dbStage summary allTestCases failures ;;
    mailStage summary failures ;;
    saveLastRunStatus (nonEmpty failures) ;;
    when (hasInterruptedTests rp) (log None LInterrupted) ;;
    if hasErrors failures then _exitWithError else _exitWithSuccess.
End Engine.

(** ** The run-end aggregation

    [TestUtils.processTestResults] is the one function of the aggregation
    that [onEnd] calls and whose body is in [utils/utils.ts]; the
    specification describes it, and the definitions below follow that
    description. *)

(** The status of the last attempt of a record. *)
Definition finalAttempt (r : TestRecord) : option Attempt := last (attempts r).

Definition finalStatusIs (st : Status) (r : TestRecord) : bool :=
  match finalAttempt r with
  | Some a => bool_decide (att_status a = st)
  | None => false
  end.

(** Modelled from the spec: the [Failure] built from a record and its final
    attempt ("uses the final attempt's error, not the first"); the error
    fields are read off the attempt the way [onTestEnd] reads them off a
    result. *)
Definition failureOfRecord (categorize : string -> string) (r : TestRecord)
    (a : Attempt) : TestFailure :=
  let errorMessage := or_default (ae_message <$> head (att_errors a)) "Unknown error" in
  {| f_testId := testId (test r);
     f_testTitle := testTitle (test r);
     f_suiteTitle := suiteTitle (test r);
     f_errorMessage := errorMessage;
     f_errorStack := or_default (head (att_errors a) ≫= ae_stack) EmptyString;
     f_duration := att_duration a;
     f_owningTeam := owningTeam (test r);
     f_isTimeout := bool_decide (att_status a = timedOut);
     f_errorCategory := categorize errorMessage;
     f_testFile := testFile (test r);
     f_location := location (test r) |}.

(** Modelled from the spec: a record contributes a [Failure] exactly when its
    final status is [failed] or [timedOut]. *)
Definition recordFailure (categorize : string -> string) (r : TestRecord)
    : list TestFailure :=
  match finalAttempt r with
  | Some a => if isFailing (att_status a) then [failureOfRecord categorize r a] else []
  | None => []
  end.

(** Modelled from the spec: [TestUtils.processTestResults], whose body is not
    among the sources.  [testCount] is the number of records, [passedCount]
    and [skippedCount] count records by final status, [failures] holds the
    [Failure] of every record with a failing final attempt in store order,
    and [passedDurations] the durations of the passing final attempts. *)
Definition specProcessTestResults (categorize : string -> string) (st : Store)
    : ProcessedResults :=
  let rs := store_values st in
  {| pr_passedCount := Z.of_nat (length (List.filter (finalStatusIs passed) rs));
     pr_testCount := Z.of_nat (length rs);
     pr_skippedCount := Z.of_nat (length (List.filter (finalStatusIs skipped) rs));
     pr_failures := flat_map (recordFailure categorize) rs;
     pr_passedDurations :=
       flat_map (fun r => match finalAttempt r with
                          | Some a => if bool_decide (att_status a = passed)
                                      then [att_duration a] else []
                          | None => []
                          end) rs |}.

(** The attempts held under a key, and the attempts a list of runner events
    carries for a title, in arrival order. *)
Definition attemptsUnder (k : string) (st : Store) : list Attempt :=
  match store_get k st with
  | Some r => attempts r
  | None => []
  end.

Definition attemptsFor (k : string) (evs : list RunEvent) : list Attempt :=
  flat_map (fun e => match e with
                     | TestEnd t r => if decide (tc_title t = k) then [attemptOf r] else []
                     | SetupError _ => []
                     end) evs.

(** The identity the specification gives a test: suite path and title. *)
Definition identityOf (t : TestCase) : option string * string :=
  (tc_parent_title t, tc_title t).

(** ** Vocabulary for statements about traces *)

Definition logEv (ch : option Channel) (m : LogMsg) : Event :=
  {| ev_channel := ch; ev_action := Log m |}.

Definition callEv (ch : option Channel) {R} (q : Request R) : Event :=
  {| ev_channel := ch; ev_action := Call q |}.

(** The event belongs to one of the listed channels. *)
Definition within (cs : list (option Channel)) (e : Event) : Prop :=
  In (ev_channel e) cs.

(** The position of a channel in the pipeline; pull-request automation runs
    inside the fix-suggestion stage. *)
Definition stage (c : Channel) : nat :=
  match c with
  | FixSuggestion | PRAutomation => 0
  | BugFiling => 1
  | DBPublish => 2
  | Notification => 3
  end.

(** Every channel event of the trace has its stage between [lo] and [hi]. *)
Definition stagesIn (lo hi : nat) (t : list Event) : Prop :=
  Forall (fun e => forall c, ev_channel e = Some c -> (lo <= stage c <= hi)%nat) t.

(** No channel event is followed by an event of an earlier stage. *)
Definition stageOrdered (t : list Event) : Prop :=
  forall (i j : nat) ei ej ci cj,
    (i < j)%nat -> t !! i = Some ei -> t !! j = Some ej ->
    ev_channel ei = Some ci -> ev_channel ej = Some cj ->
    (stage ci <= stage cj)%nat.

(** The notification requests of a trace, in order. *)
Definition summarySends (t : list Event) : list (TestSummary * NotificationOptions) :=
  flat_map (fun e => match ev_action e with
                     | Call (SendTestSummary s o) => [(s, o)]
                     | _ => []
                     end) t.

Definition failureSends (t : list Event) : list (list TestFailure * NotificationOptions) :=
  flat_map (fun e => match ev_action e with
                     | Call (SendTestFailures fs o) => [(fs, o)]
                     | _ => []
                     end) t.

(** The bug-creation requests of a trace, in order. *)
Definition bugRequests (t : list Event) : list BugDetails :=
  flat_map (fun e => match ev_action e with
                     | Call (CreateBug d) => [d]
                     | _ => []
                     end) t.

(** The files the reporter itself (no channel) writes, with their content. *)
Definition reporterWrites (t : list Event) : list (string * string) :=
  flat_map (fun e => match ev_channel e, ev_action e with
                     | None, Call (WriteFileSync p d) => [(p, d)]
                     | _, _ => []
                     end) t.

(** The summaries the reporter itself logs. *)
Definition loggedSummaries (t : list Event) : list TestSummary :=
  flat_map (fun e => match ev_channel e, ev_action e with
                     | None, Log (LSummary sm) => [sm]
                     | _, _ => []
                     end) t.


(** The reporter's own calls return normally: [BuildInfoUtils.getBuildInfo]
    and [FileHandler.writeSummary] do not throw. *)
Definition reportingTotal {W} (h : Handler W) : Prop :=
  (forall w, exists v w', h _ GetBuildInfo w = (Ok v, w'))
  /\ (forall sm cases w, exists w', h _ (WriteSummary sm cases) w = (Ok tt, w')).

(** The bug tracker throws on every [createBug]. *)
Definition bugTrackerAlwaysThrows {W} (h : Handler W) : Prop :=
  forall d w, exists e w', h _ (CreateBug d) w = (Throw e, w').

(** The reporter's own log lines between the bug channel and the summary
    file. *)
Definition reports (rp : Reporter) (sm : TestSummary) : list Event :=
  [logEv None (LSummary sm)]
  ++ (if nonEmpty (nonTestErrors rp)
      then [logEv None (LNonTestErrors (nonTestErrors rp))] else [])
  ++ (if nonEmpty (failures sm) then [logEv None (LFailures (failures sm))] else []).

(** The steps of [saveLastRunStatus] for a given flag. *)
Definition lastRunStep (u : Helpers) (rp : Reporter) (hasFailed : bool) (e : Event) : Prop :=
  ev_channel e = None /\
  match ev_action e with
  | Call (WriteFileSync p d) =>
      p = lastRunPath rp /\ d = jsonStringify u (lastRunDataOf rp hasFailed)
  | Call (ExistsSync _) | Call (MkdirSync _) => True
  | Log (LCreatedDir _) | Log (LLastRunWritten _) | Log (LLastRunFailed _) => True
  | _ => False
  end.

(** ** Postconditions over result, state and trace *)

Definition wp {W A} (m : M W A)
    (Q : Completion A -> Proc W -> list Event -> Prop) (s : Proc W) : Prop :=
  Q (result (m s)) (final (m s)) (trace (m s)).

(** The block returned normally, left [process.exitCode] alone, and every
    event it produced belongs to the channels [cs]. *)
Definition absorbed {W A} (cs : list (option Channel)) (s : Proc W)
    : Completion A -> Proc W -> list Event -> Prop :=
  fun r s' t => (exists a, r = Ok a) /\ exitCode s' = exitCode s /\ Forall (within cs) t.

(** The same without the normal return. *)
Definition kept {W A} (cs : list (option Channel)) (s : Proc W)
    : Completion A -> Proc W -> list Event -> Prop :=
  fun r s' t => exitCode s' = exitCode s /\ Forall (within cs) t.

(** What a run of [onEnd] with at least one test looks like: it stops at
    [getBuildInfo], or at [writeSummary], or it runs to the end; the trace is
    the concatenation of the stages in source order. *)
Definition endShape {W} (h : Handler W) (clk : Clock W) (u : Helpers)
    (env : ProcessEnv) (rp : Reporter) (s : Proc W)
    : Completion unit -> Proc W -> list Event -> Prop :=
  fun res s' t =>
    let p := processTestResults u (testRecords rp) in
    let fs := pr_failures p in
    let cases := allTestCasesOf rp in
    exists endTime : Z,
      let sm_of := summaryOf u rp p (formatTime u (msToSec (endTime - startTime rp))) in
      (exists (e : Thrown) (w w' : W), h _ GetBuildInfo w = (Throw e, w')
                      /\ res = Throw e /\ exitCode s' = exitCode s
                      /\ t = [callEv None GetBuildInfo])
      \/ exists (bi : BuildInfo) (s1 s2 : Proc W),
           let sm := sm_of bi in
           let pre := (callEv None GetBuildInfo
                        :: trace (fixStage h clk u env rp fs s1)
                        ++ trace (bugStage h u rp fs s2)
                        ++ reports rp sm
                        ++ [callEv None (WriteSummary sm cases)])%list in
           (exists (e : Thrown) (w w' : W), h _ (WriteSummary sm cases) w = (Throw e, w')
                           /\ res = Throw e /\ exitCode s' = exitCode s
                           /\ t = pre)
           \/ exists (s3 s4 s5 : Proc W),
                res = Ok tt
                /\ exitCode s' = Some (if hasErrors rp fs then 1 else 0)
                /\ t = (pre ++ trace (dbStage h clk u env rp sm cases fs s3)
                        ++ trace (mailStage h env rp sm fs s4)
                        ++ trace (saveLastRunStatus h u rp (nonEmpty fs) s5)
                        ++ (if hasInterruptedTests rp
                            then [logEv None LInterrupted] else []))%list.

(** The trace is stage-ordered and its channel events lie between two
    stages. *)
Definition span (lo hi : nat) (t : list Event) : Prop :=
  stageOrdered t /\ stagesIn lo hi t.

(** The same reporter with the bug channel switched on or off. *)
Definition withCreateBug (b : bool) (rp : Reporter) : Reporter :=
  let c := config rp in
  {| config :=
       {| slowTestThreshold := slowTestThreshold c;
          maxSlowTestsToShow := maxSlowTestsToShow c;
          timeoutWarningThreshold := timeoutWarningThreshold c;
          showStackTrace := showStackTrace c;
          outputDir := outputDir c;
          generateFix := generateFix c;
          createBug := b;
          generatePR := generatePR c;
          publishToDB := publishToDB c;
          sendEmail := sendEmail c |};
     rp_outputDir := rp_outputDir rp;
     testRecords := testRecords rp;
     startTime := startTime rp;
     nonTestErrors := nonTestErrors rp;
     hasInterruptedTests := hasInterruptedTests rp;
     addedFailures := addedFailures rp |}.

(** The file-system calls of [saveLastRunStatus] return normally. *)
Definition lastRunWritable {W} (h : Handler W) (rp : Reporter) : Prop :=
  (forall w, exists b w', h _ (ExistsSync (rp_outputDir rp)) w = (Ok b, w'))
  /\ (forall w, exists w', h _ (MkdirSync (rp_outputDir rp)) w = (Ok tt, w'))
  /\ (forall d w, exists w', h _ (WriteFileSync (lastRunPath rp) d) w = (Ok tt, w')).

(** The invariant of the store that event ingestion maintains: keys are
    distinct, and a record sits under the title of its test. *)
Definition wellKeyed (st : Store) : Prop :=
  NoDup (store_keys st)
  /\ Forall (fun kr => testTitle (test (snd kr)) = fst kr) st.

(** The events of one failure in the fix-suggestion loop: fix-suggestion
    events, then (only after the log line of a generated fix, and only with
    the [generatePR] toggle on) pull-request events. *)
Definition nestedSegment (rp : Reporter) (t : list Event) : Prop :=
  exists t1 t2,
    t = (t1 ++ t2)%list
    /\ Forall (within [fx]) t1 /\ Forall (within [pra]) t2
    /\ (t2 <> [] ->
        generatePR (config rp) = true
        /\ exists pp fp, last t1 = Some (logEv fx (LFixGenerated pp fp))).

(** ** A sample environment for the examples *)

Module Sample.
(** A sample choice of the helpers: the aggregation is the one modelled
    above, formatting is kept trivial. *)
Definition categorize (m : string) : string :=
  if includes "timeout" (toLowerCase m) then "TimeoutError" else "UnknownError".

Definition stringify (d : LastRunData) : string :=
  "{status:" ++ lr_status d ++ ",failedTests:[" ++ join "," (lr_failedTests d) ++ "]}".

Definition helpers : Helpers :=
  {| outcomeToStatus := fun o => match o with
                                 | oSkipped => "skipped"
                                 | oExpected => "passed"
                                 | oUnexpected => "failed"
                                 | oFlaky => "flaky"
                                 end;
     getOwningTeam := fun _ => "Unknown Team";
     categorizeError := categorize;
     processTestResults := specProcessTestResults categorize;
     calculateAverageTime := fun _ => 0%Q;
     findSlowestTests := fun _ _ => [];
     formatTime := fun _ => "0.00s";
     toFixed2 := fun _ => "0.00";
     parseFloat := fun _ => 0%Q;
     toISOString := fun _ => "2026-01-01T00:00:00.000Z";
     jsonStringify := stringify |}.

(** The outside world is a clock reading. *)
Definition clock : Clock Z := fun w => (w, w + 1).

(** What can go wrong in the sample world. *)
Record Faults := {
  bugTrackerDown : bool;
  summaryMailFails : bool;
  branchRefused : bool;
  aiDown : bool
}.

Definition noFaults : Faults :=
  {| bugTrackerDown := false; summaryMailFails := false; branchRefused := false;
     aiDown := false |}.

Definition sent : NotificationResult :=
  {| success := true; messageId := Some "m-1"; nr_error := None |}.

Definition handler (fl : Faults) : Handler Z := fun R q w =>
  match q in Request R return Completion R * Z with
  | ReadFileSync _ => (Ok "test('x', async () => {});", w)
  | WriteFileSync _ _ => (Ok tt, w)
  | ExistsSync _ => (Ok true, w)
  | MkdirSync _ => (Ok tt, w)
  | GetBuildInfo => (Ok {| buildBranch := Some "main"; commitId := None |}, w)
  | WriteSummary _ _ => (Ok tt, w)
  | GetAIProvider => (Ok "sample-ai", w)
  | GenerateCompletion _ _ =>
      if aiDown fl then (Throw (ErrorObj "rate limited"), w)
      else (Ok "Use a longer timeout.", w)
  | GetPRProvider => (Ok tt, w)
  | CreateBranch _ _ => (Ok (negb (branchRefused fl)), w)
  | CommitChanges _ _ _ => (Ok (Some "0123456789abcdef"), w)
  | CreatePullRequest o =>
      (Ok (Some {| pri_id := "1"; pri_number := 1; pri_url := "https://example.test/pr/1";
                   pri_status := "open"; pri_sourceBranch := sourceBranch o;
                   pri_targetBranch := targetBranch o |}), w)
  | GetBugTrackerProvider => (Ok tt, w)
  | CreateBug d =>
      if bugTrackerDown fl then (Throw (ErrorObj "tracker unreachable"), w)
      else (Ok (Some {| bi_id := "B-1"; bi_url := "https://example.test/bug/1";
                        bi_status := "Open"; bi_title := bd_title d |}), w)
  | GetDatabaseProvider => (Ok tt, w)
  | DbInitialize => (Ok tt, w)
  | SaveTestRun _ => (Ok "run-1", w)
  | SaveTestResult _ => (Ok "row-1", w)
  | GetNotificationProvider => (Ok tt, w)
  | SendTestSummary _ _ =>
      if summaryMailFails fl then (Throw (ErrorObj "smtp refused"), w) else (Ok sent, w)
  | SendTestFailures _ _ => (Ok sent, w)
  end.

Definition penv : ProcessEnv :=
  {| cwd := "/repo";
     DATABASE_PROVIDER := Some "sqlite";
     NOTIFICATION_PROVIDER := Some "email";
     EMAIL_RECIPIENTS := Some "dev@example.test, qa@example.test";
     BASE_BRANCH := None;
     GITHUB_BASE_REF := None;
     NODE_ENV := None |}.

Definition start : Proc Z := {| world := 1000; exitCode := None; sourceCodeCache := ∅ |}.

(** Every channel switched on. *)
Definition allOn : ReporterConfig :=
  {| slowTestThreshold := 5; maxSlowTestsToShow := 3;
     timeoutWarningThreshold := 30; showStackTrace := true;
     outputDir := "./test-results"; generateFix := true; createBug := true;
     generatePR := true; publishToDB := true; sendEmail := true |}.

Definition loc (f : string) : Location := {| loc_file := f; loc_line := 3; loc_column := 1 |}.

Definition loginA : TestCase :=
  {| tc_id := "a-1"; tc_title := "login"; tc_parent_title := Some "admin";
     tc_location := Some (loc "/repo/tests/admin.spec.ts"); tc_outcome := oUnexpected |}.

Definition loginB : TestCase :=
  {| tc_id := "b-1"; tc_title := "login"; tc_parent_title := Some "shop";
     tc_location := Some (loc "/repo/tests/shop.spec.ts"); tc_outcome := oExpected |}.

Definition checkout : TestCase :=
  {| tc_id := "c-1"; tc_title := "checkout"; tc_parent_title := Some "shop";
     tc_location := Some (loc "/repo/tests/shop.spec.ts"); tc_outcome := oExpected |}.

Definition pass (ms : Z) : TestResult :=
  {| tr_status := passed; tr_duration := ms; tr_errors := []; tr_retry := 0 |}.

Definition fail (msg : string) : TestResult :=
  {| tr_status := failed; tr_duration := 1200;
     tr_errors := [ {| te_message := Some msg; te_stack := Some "at login.spec.ts:3:1" |} ];
     tr_retry := 0 |}.

Definition interrupt : TestResult :=
  {| tr_status := interrupted; tr_duration := 10; tr_errors := []; tr_retry := 0 |}.

(** A whole run: the reporter is built, begun at time 0, fed the events,
    and [onEnd] runs in the sample world. *)
Definition collect (cfg : ReporterConfig) (evs : list RunEvent) : Reporter :=
  ingest helpers evs (onBegin 0 [] (newReporter cfg)).

Definition run (fl : Faults) (cfg : ReporterConfig) (evs : list RunEvent) : Run Z unit :=
  onEnd (handler fl) clock helpers penv (collect cfg evs) start.

Definition aFailure : TestFailure :=
  attemptFailure helpers loginA (fail "Timeout 30000ms exceeded").

(** The summary of a run with one failing and one passing test. *)
Definition mixedRun : Reporter :=
  collect allOn [TestEnd loginA (fail "Timeout 30000ms exceeded");
                 TestEnd checkout (pass 1000)].

Definition aSummary : TestSummary :=
  summaryOf helpers mixedRun (processTestResults helpers (testRecords mixedRun))
    "0.00s" {| buildBranch := Some "main"; commitId := None |}.

Definition mailDown : Faults :=
  {| bugTrackerDown := false; summaryMailFails := true; branchRefused := false;
     aiDown := false |}.

Definition aiUnavailable : Faults :=
  {| bugTrackerDown := false; summaryMailFails := false; branchRefused := false;
     aiDown := true |}.

Definition trackerDown : Faults :=
  {| bugTrackerDown := true; summaryMailFails := false; branchRefused := false;
     aiDown := false |}.
End Sample.

(** ** What event ingestion keeps of a run *)

(** The titles of the attempt-end events, in arrival order. *)
Definition titlesOf (evs : list RunEvent) : list string :=
  flat_map (fun e => match e with
                     | TestEnd t _ => [tc_title t]
                     | SetupError _ => []
                     end) evs.

(** The elements of [l] that are neither in [seen] nor earlier in [l]. *)
Fixpoint firstOccurrences (seen l : list string) : list string :=
  match l with
  | [] => []
  | x :: l' =>
      if decide (x ∈ seen) then firstOccurrences seen l'
      else x :: firstOccurrences (x :: seen) l'
  end.

(** The test of the first attempt-end event with the title [k]. *)
Definition firstTestTitled (k : string) (evs : list RunEvent) : option TestCase :=
  head (flat_map (fun e => match e with
                           | TestEnd t _ => if decide (tc_title t = k) then [t] else []
                           | SetupError _ => []
                           end) evs).

(** The failing attempts of a run, as [onTestEnd] hands them to the file
    handler. *)
Definition failingAttempts (u : Helpers) (evs : list RunEvent) : list TestFailure :=
  flat_map (fun e => match e with
                     | TestEnd t r =>
                         if isFailing (tr_status r) then [attemptFailure u t r] else []
                     | SetupError _ => []
                     end) evs.

(** The errors of the setup-error events, in arrival order. *)
Definition setupErrors (evs : list RunEvent) : list JsError :=
  flat_map (fun e => match e with
                     | TestEnd _ _ => []
                     | SetupError e => [e]
                     end) evs.

(** ** Strings *)

(** The string holds no occurrence of the character. *)
Definition freeOf (sep : ascii) (s : string) : Prop :=
  Forall (fun c => c <> sep) (list_ascii_of_string s).

(** A lower-case letter, a digit or a dash. *)
Definition isBranchChar (c : ascii) : bool :=
  let n := nat_of_ascii c in
  ((48 <=? n) && (n <=? 57) || (97 <=? n) && (n <=? 122) || (n =? 45))%nat.

(** The number of occurrences of a character. *)
Fixpoint countChar (c : ascii) (s : string) : nat :=
  match s with
  | EmptyString => 0
  | String c' s' => (if decide (c' = c) then 1 else 0) + countChar c s'
  end.

(** ** More vocabulary for traces *)

(** The action is a request, not a log line. *)
Definition isRequest (e : Event) : Prop :=
  match ev_action e with
  | Call _ => True
  | Log _ => False
  end.

(** The channels [onEnd] may run for a reporter and a failures list: each
    needs its toggle, the fix, pull-request and bug channels need a failure
    as well, and pull-request automation needs the fix channel. *)
Definition enabled (rp : Reporter) (fs : list TestFailure) (c : Channel) : bool :=
  match c with
  | FixSuggestion => generateFix (config rp) && nonEmpty fs
  | PRAutomation => generateFix (config rp) && nonEmpty fs && generatePR (config rp)
  | BugFiling => createBug (config rp) && nonEmpty fs
  | DBPublish => publishToDB (config rp)
  | Notification => sendEmail (config rp)
  end.

(** The environment variable a channel checks before it asks for its
    provider. *)
Definition providerVariable (env : ProcessEnv) (c : Channel) : option (option string) :=
  match c with
  | DBPublish => Some (DATABASE_PROVIDER env)
  | Notification => Some (NOTIFICATION_PROVIDER env)
  | _ => None
  end.

(** The rows and runs a trace asks the database to save, in order. *)
Definition savedRows (t : list Event) : list TestResultRow :=
  flat_map (fun e => match ev_action e with
                     | Call (SaveTestResult r) => [r]
                     | _ => []
                     end) t.

Definition savedRuns (t : list Event) : list TestRun :=
  flat_map (fun e => match ev_action e with
                     | Call (SaveTestRun r) => [r]
                     | _ => []
                     end) t.

(** The event is a read of the source file [p] by the fix-suggestion
    channel. *)
Definition isSourceRead (p : string) (e : Event) : bool :=
  match ev_channel e, ev_action e with
  | Some FixSuggestion, Call (ReadFileSync q) => bool_decide (q = p)
  | _, _ => false
  end.

Definition sourceReads (p : string) (t : list Event) : nat :=
  length (List.filter (isSourceRead p) t).


(** What a pull-request step presupposes: a commit is requested only on a
    branch whose creation was answered with [true], a pull request only
    from a branch on which a commit was answered with a non-empty hash. *)
Definition prStepJustified {W} (h : Handler W) (e : Event) : Prop :=
  match ev_action e with
  | Call (CommitChanges name _ _) =>
      exists base w w', h _ (CreateBranch name base) w = (Ok true, w')
  | Call (CreatePullRequest o) =>
      (exists w w', h _ (CreateBranch (sourceBranch o) (targetBranch o)) w = (Ok true, w'))
      /\ exists changes msg hash w w',
           h _ (CommitChanges (sourceBranch o) changes msg) w = (Ok (Some hash), w')
           /\ hash <> EmptyString
  | _ => True
  end.

(** The row [_publishToDatabase] builds for a test case, up to the time
    stamp and the generated id of a test case without id. *)
Definition rowFor (id : string) (fs : list TestFailure) (tc : TestCaseDetails)
    (row : TestResultRow) : Prop :=
  let failure := List.find (fun f => bool_decide (f_testTitle f = testTitle tc)) fs in
  testRunId row = id
  /\ (testId tc <> EmptyString -> row_testId row = testId tc)
  /\ row_testTitle row = testTitle tc
  /\ row_suiteTitle row = suiteTitle tc
  /\ row_status row = or_default (Some (status tc)) "unknown"
  /\ row_duration row = default 0%Q (tcd_duration tc)
  /\ row_errorMessage row = f_errorMessage <$> failure
  /\ row_errorStack row = f_errorStack <$> failure.

(** What one iteration of the row loop leaves in the trace. *)
Definition rowStep (id : string) (fs : list TestFailure) (tc : TestCaseDetails)
    (t : list Event) : Prop :=
  (exists row, savedRows t = [row] /\ rowFor id fs tc row)
  /\ savedRuns t = []
  /\ ~ In (logEv db LDBResultsSaved) t.


(** The two paths [generateFixSuggestion] answers for a failure of the test
    file [file]: both carry the same sanitised name. *)
Definition fixResultOf (env : ProcessEnv) (failure : TestFailure) (file : string)
    : FixResult :=
  let dir := pathJoin (cwd env) "test-results" in
  let name := safeFilenameOf failure file in
  {| promptPath := pathJoin (pathJoin dir "prompts") (name ++ ".md");
     fixPath := pathJoin (pathJoin dir "fixes") ("fix-" ++ name ++ ".md") |}.

(** The block returned normally, left the source-code cache alone and read
    no source file. *)
Definition framed {W A} (p : string) (s : Proc W)
    : Completion A -> Proc W -> list Event -> Prop :=
  fun r s' t => (exists a, r = Ok a)
                /\ sourceCodeCache s' = sourceCodeCache s
                /\ sourceReads p t = 0%nat.

(** The file system answers every read of [p] with a non-empty text. *)
Definition readable {W} (h : Handler W) (p : string) : Prop :=
  forall w, exists src w', h _ (ReadFileSync p) w = (Ok src, w') /\ src <> EmptyString.

(** The cache holds nothing, or a non-empty text, for [p]. *)
Definition cacheSound {W} (p : string) (s : Proc W) : Prop :=
  match sourceCodeCache s !! p with
  | Some src => src <> EmptyString
  | None => True
  end.

(** ** HTML escaping in the notification and bug-tracker providers *)

(** [s.replace(/c/g, rep)] for a pattern of one character. *)
Fixpoint replaceAll (c : ascii) (rep : string) (s : string) : string :=
  match s with
  | EmptyString => EmptyString
  | String x s' =>
      (if Ascii.eqb x c then rep else String x EmptyString) ++ replaceAll c rep s'
  end.

(** [escapeHtml]: five replacements, the ampersand first. *)
Definition escapeHtml (text : string) : string :=
  replaceAll "'"%char "&#039;"
    (replaceAll (ascii_of_nat 34) "&quot;"
       (replaceAll ">"%char "&gt;"
          (replaceAll "<"%char "&lt;"
             (replaceAll "&"%char "&amp;" text)))).

(** The entity of a character, or the character itself. *)
Definition escapeChar (c : ascii) : string :=
  if Ascii.eqb c "&"%char then "&amp;"
  else if Ascii.eqb c "<"%char then "&lt;"
  else if Ascii.eqb c ">"%char then "&gt;"
  else if Ascii.eqb c (ascii_of_nat 34) then "&quot;"
  else if Ascii.eqb c "'"%char then "&#039;"
  else String c EmptyString.

Fixpoint escapeEach (s : string) : string :=
  match s with
  | EmptyString => EmptyString
  | String c s' => escapeChar c ++ escapeEach s'
  end.

(** One of the four characters that open or close markup or an attribute
    value. *)
Definition isMarkup (c : ascii) : bool :=
  bool_decide (nat_of_ascii c ∈ [60; 62; 34; 39]%nat).

(** ** The provider registry

    [ProviderRegistry] keeps one instance per provider kind and the
    configuration it was initialised with.  [W] is the world outside the
    registry, [getenv] reads [process.env] from it; the factories, which
    build a provider from a type name and an optional configuration record
    and may throw, are parameters. *)
Module Registry.
Section Model.
Context {C BugTracker Database Notifier PRProvider AIProvider W : Type}.
Context (getenv : W -> gmap string string).

(** One section of a [ProviderConfig]: [{type, config?}]. *)
Record Entry := { entry_type : string; entry_config : option C }.

Record ProviderConfig := {
  bugTracker : option Entry;
  database : option Entry;
  notification : option Entry;
  pr : option Entry;
  ai : option Entry
}.

(** The static fields of the class. *)
Record State := {
  bugTrackerProvider : option BugTracker;
  databaseProvider : option Database;
  notificationProvider : option Notifier;
  prProvider : option PRProvider;
  aiProvider : option AIProvider;
  config : option ProviderConfig
}.

(** The [createProvider] methods of the five factories and the [close]
    method of a database provider. *)
Record Factories := {
  createBugTracker : string -> option C -> W -> Completion BugTracker * W;
  createDatabase : string -> option C -> W -> Completion Database * W;
  createNotifier : string -> option C -> W -> Completion Notifier * W;
  createPRProvider : string -> option C -> W -> Completion PRProvider * W;
  createAIProvider : string -> W -> Completion AIProvider * W;
  closeDatabase : Database -> W -> Completion unit * W
}.

Context (F : Factories).

(** [process.env.X ? {type: process.env.X} : undefined] *)
Definition entryOf (v : option string) : option Entry :=
  match v with
  | Some t => if decide (t = EmptyString) then None
              else Some {| entry_type := t; entry_config := None |}
  | None => None
  end.

Definition loadConfigFromEnv (w : W) : ProviderConfig :=
  {| bugTracker := entryOf (getenv w !! "BUG_TRACKER_PROVIDER");
     database := entryOf (getenv w !! "DATABASE_PROVIDER");
     notification := entryOf (getenv w !! "NOTIFICATION_PROVIDER");
     pr := entryOf (getenv w !! "PR_PROVIDER");
     ai := entryOf (getenv w !! "AI_PROVIDER") |}.

Definition withConfig (c : option ProviderConfig) (st : State) : State :=
  {| bugTrackerProvider := bugTrackerProvider st;
     databaseProvider := databaseProvider st;
     notificationProvider := notificationProvider st;
     prProvider := prProvider st;
     aiProvider := aiProvider st;
     config := c |}.

(** [initialize(config?)]: [this.config = config || this.loadConfigFromEnv()] *)
Definition initialize (c : option ProviderConfig) (w : W) (st : State) : State :=
  withConfig (Some (default (loadConfigFromEnv w) c)) st.

(** [if (!this.config) await this.initialize()] *)
Definition ensureConfig (w : W) (st : State) : State :=
  match config st with
  | Some _ => st
  | None => initialize None w st
  end.

(** [getBugTrackerProvider] *)
Definition getBugTrackerProvider (st : State) (w : W)
    : Completion BugTracker * State * W :=
  match bugTrackerProvider st with
  | Some p => (Ok p, st, w)
  | None =>
      let st1 := ensureConfig w st in
      match config st1 ≫= bugTracker with
      | None => (Throw (ErrorObj "Bug tracker configuration not found"), st1, w)
      | Some e =>
          match createBugTracker F (entry_type e) (entry_config e) w with
          | (Ok p, w') =>
              (Ok p,
               {| bugTrackerProvider := Some p;
                  databaseProvider := databaseProvider st1;
                  notificationProvider := notificationProvider st1;
                  prProvider := prProvider st1;
                  aiProvider := aiProvider st1;
                  config := config st1 |}, w')
          | (Throw err, w') => (Throw err, st1, w')
          end
      end
  end.

(** [getDatabaseProvider] *)
Definition getDatabaseProvider (st : State) (w : W)
    : Completion Database * State * W :=
  match databaseProvider st with
  | Some p => (Ok p, st, w)
  | None =>
      let st1 := ensureConfig w st in
      match config st1 ≫= database with
      | None => (Throw (ErrorObj "Database configuration not found"), st1, w)
      | Some e =>
          match createDatabase F (entry_type e) (entry_config e) w with
          | (Ok p, w') =>
              (Ok p,
               {| bugTrackerProvider := bugTrackerProvider st1;
                  databaseProvider := Some p;
                  notificationProvider := notificationProvider st1;
                  prProvider := prProvider st1;
                  aiProvider := aiProvider st1;
                  config := config st1 |}, w')
          | (Throw err, w') => (Throw err, st1, w')
          end
      end
  end.

(** [getNotificationProvider] *)
Definition getNotificationProvider (st : State) (w : W)
    : Completion Notifier * State * W :=
  match notificationProvider st with
  | Some p => (Ok p, st, w)
  | None =>
      let st1 := ensureConfig w st in
      match config st1 ≫= notification with
      | None => (Throw (ErrorObj "Notification configuration not found"), st1, w)
      | Some e =>
          match createNotifier F (entry_type e) (entry_config e) w with
          | (Ok p, w') =>
              (Ok p,
               {| bugTrackerProvider := bugTrackerProvider st1;
                  databaseProvider := databaseProvider st1;
                  notificationProvider := Some p;
                  prProvider := prProvider st1;
                  aiProvider := aiProvider st1;
                  config := config st1 |}, w')
          | (Throw err, w') => (Throw err, st1, w')
          end
      end
  end.

(** [getPRProvider] *)
Definition getPRProvider (st : State) (w : W)
    : Completion PRProvider * State * W :=
  match prProvider st with
  | Some p => (Ok p, st, w)
  | None =>
      let st1 := ensureConfig w st in
      match config st1 ≫= pr with
      | None => (Throw (ErrorObj "PR provider configuration not found"), st1, w)
      | Some e =>
          match createPRProvider F (entry_type e) (entry_config e) w with
          | (Ok p, w') =>
              (Ok p,
               {| bugTrackerProvider := bugTrackerProvider st1;
                  databaseProvider := databaseProvider st1;
                  notificationProvider := notificationProvider st1;
                  prProvider := Some p;
                  aiProvider := aiProvider st1;
                  config := config st1 |}, w')
          | (Throw err, w') => (Throw err, st1, w')
          end
      end
  end.

(** [getAIProvider]: without an [ai] section the type comes from
    [AIProviderFactory.createFromEnv], that is from [AI_PROVIDER] at the
    time of the call, or is ['azure-openai']. *)
Definition getAIProvider (st : State) (w : W)
    : Completion AIProvider * State * W :=
  match aiProvider st with
  | Some p => (Ok p, st, w)
  | None =>
      let st1 := ensureConfig w st in
      let providerType :=
        match config st1 ≫= ai with
        | None => or_default (getenv w !! "AI_PROVIDER") "azure-openai"
        | Some e => entry_type e
        end in
      match createAIProvider F providerType w with
      | (Ok p, w') =>
          (Ok p,
           {| bugTrackerProvider := bugTrackerProvider st1;
              databaseProvider := databaseProvider st1;
              notificationProvider := notificationProvider st1;
              prProvider := prProvider st1;
              aiProvider := Some p;
              config := config st1 |}, w')
      | (Throw err, w') => (Throw err, st1, w')
      end
  end.

(** The registry before its first use, and after [reset]. *)
Definition empty : State :=
  {| bugTrackerProvider := None; databaseProvider := None;
     notificationProvider := None; prProvider := None; aiProvider := None;
     config := None |}.

Definition reset (st : State) : State := empty.

(** [closeAll]: the reset follows the [close] of the database provider and
    is skipped when that throws. *)
Definition closeAll (st : State) (w : W) : Completion unit * State * W :=
  match databaseProvider st with
  | Some p =>
      match closeDatabase F p w with
      | (Ok _, w') => (Ok tt, reset st, w')
      | (Throw err, w') => (Throw err, st, w')
      end
  | None => (Ok tt, reset st, w)
  end.
End Model.
End Registry.

(** ** The GitHub bug tracker ([providers/bugTrackers/GitHubBugTracker.ts])

    The methods are functions of what the GitHub API answers: [api] gives,
    for each request, its answer at the time the method makes it, and a
    method returns the requests it made, in order, with its completion.
    No method makes a request of one kind twice. *)
Module GitHubTracker.

Record GitHubConfig := { owner : string; repo : string; token : string }.

(** The fields the tracker reads of an issue the API returns. *)
Record Issue := {
  number : Z;
  html_url : string;
  state : string;
  issue_title : string
}.

(** The argument of [octokit.issues.create]. *)
Record NewIssue := {
  ni_owner : string;
  ni_repo : string;
  ni_title : string;
  ni_body : string;
  ni_labels : list string;
  ni_assignees : option (list string)
}.

Inductive ApiCall :=
| SearchIssues (q : string) (per_page : Z)
| CreateComment (owner repo : string) (issue_number : Z) (body : string)
| CreateIssue (i : NewIssue).

Record Octokit := {
  search_issuesAndPullRequests : string -> Z -> Completion (list Issue);
  issues_createComment : string -> string -> Z -> string -> Completion unit;
  issues_create : NewIssue -> Completion Issue
}.

(** An instance: its configuration and the settled [initialized] promise
    of the constructor. *)
Record Tracker := {
  tracker_config : GitHubConfig;
  initialized : Completion unit
}.

(** The argument of [findBugs]. *)
Record Query := {
  q_title : option string;
  q_labels : option (list string);
  q_status : option string
}.

Section Methods.
Context (parseInt : string -> Z) (this : Tracker) (api : Octokit).

Definition mapPriorityToLabel (p : BugPriority) : string :=
  match p with
  | Critical => "priority: critical"
  | High => "priority: high"
  | Medium => "priority: medium"
  | Low => "priority: low"
  end.

Definition mapGitHubStateToStatus (state : string) : string :=
  if decide (state = "closed") then "Closed" else "Open".

Definition formatIssueBody (bugDetails : BugDetails) : string :=
  let failure := testFailure bugDetails in
  "## Test Information" ++ newline ++ newline
  ++ "- **Test:** " ++ f_testTitle failure ++ newline
  ++ "- **Suite:** " ++ f_suiteTitle failure ++ newline
  ++ (match knownFile failure with
      | Some file => "- **File:** `" ++ file ++ "`" ++ newline
      | None => EmptyString
      end)
  ++ (match f_location failure with
      | Some l => "- **Location:** Line " ++ pretty (loc_line l) ++ ", Column "
                  ++ pretty (loc_column l) ++ newline
      | None => EmptyString
      end)
  ++ newline ++ "## Error Details" ++ newline ++ newline
  ++ "```" ++ newline ++ f_errorMessage failure ++ newline ++ "```" ++ newline
  ++ (if decide (f_errorStack failure = EmptyString) then EmptyString
      else newline ++ "## Stack Trace" ++ newline ++ newline
           ++ "<details>" ++ newline ++ "<summary>View stack trace</summary>"
           ++ newline ++ newline
           ++ "```" ++ newline ++ f_errorStack failure ++ newline ++ "```" ++ newline
           ++ "</details>" ++ newline)
  ++ newline ++ "---" ++ newline
  ++ "_This issue was automatically created by the Playwright AI Test Reporter_".

Definition bugInfoOf (issue : Issue) : BugInfo :=
  {| bi_id := pretty (number issue);
     bi_url := html_url issue;
     bi_status := mapGitHubStateToStatus (state issue);
     bi_title := issue_title issue |}.

(** The search expression [findBugs] builds. *)
Definition searchQueryOf (query : Query) : string :=
  "repo:" ++ owner (tracker_config this) ++ "/" ++ repo (tracker_config this)
  ++ " is:issue label:bug"
  ++ (if truthy (q_title query)
      then " " ++ dq ++ default EmptyString (q_title query) ++ dq ++ " in:title"
      else EmptyString)
  ++ (match q_labels query with
      | Some (l :: ls) => " " ++ join " " (map (fun x => "label:" ++ x) (l :: ls))
      | _ => EmptyString
      end)
  ++ (if decide (q_status query = Some "Open") then " is:open"
      else if decide (q_status query = Some "Closed") then " is:closed"
      else if truthy (q_status query) then EmptyString
      else " is:open").

(** [findBugs]: a failed search is an empty result. *)
Definition findBugs (query : Query) : list ApiCall * Completion (list BugInfo) :=
  match initialized this with
  | Throw e => ([], Throw e)
  | Ok _ =>
      let q := searchQueryOf query in
      ([SearchIssues q 100],
       match search_issuesAndPullRequests api q 100 with
       | Ok items => Ok (map bugInfoOf items)
       | Throw _ => Ok []
       end)
  end.

(** [addComment] *)
Definition addComment (bugId comment : string) : list ApiCall * Completion bool :=
  match initialized this with
  | Throw e => ([], Throw e)
  | Ok _ =>
      let c := tracker_config this in
      let issueNumber := parseInt bugId in
      ([CreateComment (owner c) (repo c) issueNumber comment],
       match issues_createComment api (owner c) (repo c) issueNumber comment with
       | Ok _ => Ok true
       | Throw _ => Ok false
       end)
  end.

(** The issue [createBug] asks for when none exists. *)
Definition newIssueOf (bugDetails : BugDetails) : NewIssue :=
  {| ni_owner := owner (tracker_config this);
     ni_repo := repo (tracker_config this);
     ni_title := bd_title bugDetails;
     ni_body := formatIssueBody bugDetails;
     ni_labels := (("bug" :: "automated-test" :: bd_labels bugDetails)
                   ++ [mapPriorityToLabel (priority bugDetails)])%list;
     ni_assignees := if decide (assignee bugDetails = EmptyString) then None
                     else Some [assignee bugDetails] |}.

(** [createBug]: everything after [await this.initialized] is inside the
    [try], whose [catch] returns [null]. *)
Definition createBug (bugDetails : BugDetails) : list ApiCall * Completion (option BugInfo) :=
  match initialized this with
  | Throw e => ([], Throw e)
  | Ok _ =>
      let '(t1, found) :=
        findBugs {| q_title := Some (bd_title bugDetails); q_labels := None;
                    q_status := None |} in
      match found with
      | Throw _ => (t1, Ok None)
      | Ok (existingBug :: _) =>
          let '(t2, commented) :=
            addComment (bi_id existingBug)
              ("Test failed again:" ++ newline ++ newline ++ bd_description bugDetails) in
          ((t1 ++ t2)%list,
           match commented with
           | Ok _ => Ok (Some existingBug)
           | Throw _ => Ok None
           end)
      | Ok [] =>
          let i := newIssueOf bugDetails in
          ((t1 ++ [CreateIssue i])%list,
           match issues_create api i with
           | Ok created =>
               Ok (Some {| bi_id := pretty (number created);
                           bi_url := html_url created;
                           bi_status := "Open";
                           bi_title := issue_title created |})
           | Throw _ => Ok None
           end)
      end
  end.
End Methods.
End GitHubTracker.

(** ** More sample environments *)

Module Fixtures.

(** The sample world with a registry that has no [bugTracker] section. *)
Definition noTracker : Handler Z := fun R q w =>
  match q in Request R return Completion R * Z with
  | GetBugTrackerProvider => (Throw (ErrorObj "Bug tracker configuration not found"), w)
  | q' => Sample.handler Sample.noFaults _ q' w
  end.

(** A test that is interrupted and passes when it is run again. *)
Definition interruptedThenPassed : list RunEvent :=
  [TestEnd Sample.checkout Sample.interrupt; TestEnd Sample.checkout (Sample.pass 900)].

(** Two failures of one test file and one of another. *)
Definition shopFailures : list TestFailure :=
  [ attemptFailure Sample.helpers Sample.loginB (Sample.fail "Timeout 30000ms exceeded");
    attemptFailure Sample.helpers Sample.loginA (Sample.fail "expected 1 to be 2");
    attemptFailure Sample.helpers Sample.checkout (Sample.fail "locator not found") ].

(** A registry whose world is the environment itself and whose providers
    are named after the type they were asked for. *)
Definition named : @Registry.Factories unit string string string string string
                     (gmap string string) :=
  {| Registry.createBugTracker := fun t _ w => (Ok t, w);
     Registry.createDatabase := fun t _ w => (Ok t, w);
     Registry.createNotifier := fun t _ w => (Ok t, w);
     Registry.createPRProvider := fun t _ w => (Ok t, w);
     Registry.createAIProvider := fun t w => (Ok t, w);
     Registry.closeDatabase := fun _ w => (Ok tt, w) |}.

(** A GitHub tracker whose API is down: every request throws. *)
Definition octokitDown : GitHubTracker.Octokit :=
  {| GitHubTracker.search_issuesAndPullRequests := fun _ _ => Throw (ErrorObj "HttpError: 503");
     GitHubTracker.issues_createComment := fun _ _ _ _ => Throw (ErrorObj "HttpError: 503");
     GitHubTracker.issues_create := fun _ => Throw (ErrorObj "HttpError: 503") |}.

Definition tracker : GitHubTracker.Tracker :=
  {| GitHubTracker.tracker_config :=
       {| GitHubTracker.owner := "acme"; GitHubTracker.repo := "shop";
          GitHubTracker.token := "t" |};
     GitHubTracker.initialized := Ok tt |}.

(** The sample world with that tracker behind [createBug]. *)
Definition githubDown : Handler Z := fun R q w =>
  match q in Request R return Completion R * Z with
  | CreateBug d => ((GitHubTracker.createBug (fun _ => 0) tracker octokitDown d).2, w)
  | q' => Sample.handler Sample.noFaults _ q' w
  end.
End Fixtures.

(** ** Reasoning about runs *)

Section WP.
Context {W : Type}.

Lemma wp_ret {A} (a : A) Q (s : Proc W) : Q (Ok a) s [] -> wp (ret a) Q s.
Proof. exact id. Qed.

Lemma wp_bind {A B} (m : M W A) (f : A -> M W B) Q (s : Proc W) :
  wp m (fun r s' t =>
          match r with
          | Ok a => wp (f a) (fun r' s'' t' => Q r' s'' (t ++ t')%list) s'
          | Throw e => Q (Throw e) s' t
          end) s ->
  wp (bind m f) Q s.
Proof. unfold wp, bind. destruct (result (m s)); exact id. Qed.

Lemma wp_try {A} (m : M W A) hdl Q (s : Proc W) :
  wp m (fun r s' t =>
          match r with
          | Ok a => Q (Ok a) s' t
          | Throw e => wp (hdl e) (fun r' s'' t' => Q r' s'' (t ++ t')%list) s'
          end) s ->
  wp (try_catch m hdl) Q s.
Proof.
  unfold wp, try_catch. destruct (m s) as [[a|e] s' t]; simpl; exact id.
Qed.

Lemma wp_log ch msg Q (s : Proc W) :
  Q (Ok tt) s [ {| ev_channel := ch; ev_action := Log msg |} ] ->
  wp (log ch msg) Q s.
Proof. exact id. Qed.

Lemma wp_call (h : Handler W) ch {R} (q : Request R) Q s :
  (forall r w, h R q (world s) = (r, w) ->
     Q r {| world := w; exitCode := exitCode s; sourceCodeCache := sourceCodeCache s |}
       [ {| ev_channel := ch; ev_action := Call q |} ]) ->
  wp (call h ch q) Q s.
Proof.
  intros H. unfold wp, call. destruct (h R q (world s)) as [r w] eqn:E.
  simpl. now apply H.
Qed.

Lemma wp_dateNow (clk : Clock W) Q s :
  (forall t w, clk (world s) = (t, w) ->
     Q (Ok t) {| world := w; exitCode := exitCode s; sourceCodeCache := sourceCodeCache s |} []) ->
  wp (dateNow clk) Q s.
Proof.
  intros H. unfold wp, dateNow. destruct (clk (world s)) as [t w] eqn:E.
  simpl. now apply H.
Qed.

Lemma wp_cacheGet k Q (s : Proc W) :
  Q (Ok (sourceCodeCache s !! k)) s [] -> wp (cacheGet k) Q s.
Proof. exact id. Qed.

Lemma wp_cacheSet k v Q (s : Proc W) :
  Q (Ok tt) {| world := world s; exitCode := exitCode s;
               sourceCodeCache := <[k := v]> (sourceCodeCache s) |} [] ->
  wp (cacheSet k v) Q s.
Proof. exact id. Qed.

Lemma wp_cacheNew Q (s : Proc W) :
  Q (Ok tt) {| world := world s; exitCode := exitCode s; sourceCodeCache := ∅ |} [] ->
  wp cacheNew Q s.
Proof. exact id. Qed.

Lemma wp_setExitCode n Q (s : Proc W) :
  Q (Ok tt) {| world := world s; exitCode := Some n;
               sourceCodeCache := sourceCodeCache s |} [] ->
  wp (setExitCode n) Q s.
Proof. exact id. Qed.

Lemma wp_mono {A} (m : M W A) (Q Q' : Completion A -> Proc W -> list Event -> Prop) s :
  wp m Q s -> (forall r s' t, Q r s' t -> Q' r s' t) -> wp m Q' s.
Proof. unfold wp. intros H HQ. now apply HQ. Qed.

Lemma wp_when c (m : M W unit) Q s :
  (c = true -> wp m Q s) -> (c = false -> Q (Ok tt) s []) -> wp (when c m) Q s.
Proof. destruct c; simpl; intros H1 H2; [now apply H1 | now apply H2]. Qed.

(** A loop keeps an invariant [I] that every iteration re-establishes; an
    iteration that throws ends the loop in [T]. *)
Lemma wp_forEach {A} (l : list A) (body : A -> M W unit)
    (I : Proc W -> list Event -> Prop) (T : Thrown -> Proc W -> list Event -> Prop) s :
  I s [] ->
  (forall x s0 t0, x ∈ l -> I s0 t0 ->
     wp (body x) (fun r s' t => match r with
                                | Ok _ => I s' (t0 ++ t)%list
                                | Throw e => T e s' (t0 ++ t)%list
                                end) s0) ->
  wp (forEach l body) (fun r s' t => match r with
                                     | Ok _ => I s' t
                                     | Throw e => T e s' t
                                     end) s.
Proof.
  intros H0 Hstep.
  assert (G : forall s0 t0, I s0 t0 ->
            wp (forEach l body)
               (fun r s' t => match r with
                              | Ok _ => I s' (t0 ++ t)%list
                              | Throw e => T e s' (t0 ++ t)%list
                              end) s0).
  { clear H0 s. induction l as [|x l IH]; intros s0 t0 HI.
    - apply wp_ret. rewrite app_nil_r. auto.
    - simpl. apply wp_bind.
      eapply wp_mono; [apply (Hstep x s0 t0); [left | exact HI] |].
      intros [a|e] s' t HI'; [|exact HI'].
      eapply wp_mono.
      + apply IH; [| exact HI']. intros y s1 t1 Hy. apply Hstep. now right.
      + intros [a'|e'] s'' t'; now rewrite app_assoc. }
  exact (G s [] H0).
Qed.
End WP.

(** One step through the code under a postcondition. *)
Ltac wp_step :=
  lazymatch goal with
  | |- wp (bind _ _) _ _ => apply wp_bind
  | |- wp (try_catch _ _) _ _ => apply wp_try
  | |- wp (log _ _) _ _ => apply wp_log
  | |- wp (ret _) _ _ => apply wp_ret
  | |- wp (call _ _ _) _ _ =>
      let r := fresh "r" in let w := fresh "w" in let E := fresh "Ecall" in
      apply wp_call; intros r w E; destruct r
  | |- wp (dateNow _) _ _ =>
      let t := fresh "now" in let w := fresh "w" in
      apply wp_dateNow; intros t w _
  | |- wp (cacheGet _) _ _ => apply wp_cacheGet
  | |- wp (cacheSet _ _) _ _ => apply wp_cacheSet
  | |- wp cacheNew _ _ => apply wp_cacheNew
  | |- wp (setExitCode _) _ _ => apply wp_setExitCode
  | |- wp (when ?c _) _ _ =>
      let E := fresh "Ewhen" in destruct c eqn:E; cbn [when]
  | |- wp (if ?c then _ else _) _ _ =>
      let E := fresh "Eif" in destruct c eqn:E
  | |- wp (match ?x with _ => _ end) _ _ =>
      let E := fresh "Ematch" in destruct x eqn:E
  end.

Ltac wp_steps := repeat (wp_step; cbn beta iota).

(** ** The test-record store *)

Lemma store_get_set k k' r st :
  store_get k (store_set k' r st) = if decide (k = k') then Some r else store_get k st.
Proof.
  induction st as [|[k0 r0] st IH]; simpl.
  - repeat case_decide; congruence.
  - repeat (case_decide; simpl); try congruence.
Qed.

Lemma store_get_push k k' a st :
  store_get k (store_push k' a st) =
  if decide (k = k')
  then (fun r => {| test := test r; attempts := attempts r ++ [a] |}) <$> store_get k st
  else store_get k st.
Proof.
  induction st as [|[k0 r0] st IH]; simpl.
  - now case_decide.
  - repeat (case_decide; simpl); try congruence.
Qed.

Lemma store_keys_push k a st : store_keys (store_push k a st) = store_keys st.
Proof.
  induction st as [|[k0 r0] st IH]; simpl; [reflexivity|].
  case_decide; simpl; congruence.
Qed.

Lemma store_keys_set_new k r st :
  store_get k st = None -> store_keys (store_set k r st) = (store_keys st ++ [k])%list.
Proof.
  induction st as [|[k0 r0] st IH]; simpl; [reflexivity|].
  case_decide; [discriminate|]. intros Hn. simpl. now rewrite IH.
Qed.

Lemma store_get_None_keys k st : store_get k st = None <-> k ∉ store_keys st.
Proof.
  induction st as [|[k0 r0] st IH]; simpl.
  - split; [intros _; apply not_elem_of_nil | reflexivity].
  - case_decide; subst.
    + split; [discriminate|]. intros H. exfalso. apply H. left.
    + rewrite IH. rewrite not_elem_of_cons. tauto.
Qed.

Section Ingest.
Context (u : Helpers).

Lemma attemptsUnder_onTestEnd t r rp k :
  attemptsUnder k (testRecords (onTestEnd u t r rp)) =
  (attemptsUnder k (testRecords rp)
   ++ if decide (tc_title t = k) then [attemptOf r] else [])%list.
Proof.
  unfold attemptsUnder, onTestEnd, store_has. simpl.
  rewrite store_get_push.
  destruct (store_get (tc_title t) (testRecords rp)) as [r0|] eqn:E.
  - repeat case_decide; subst; try congruence.
    + rewrite E. reflexivity.
    + now rewrite app_nil_r.
  - rewrite store_get_set. repeat case_decide; subst; try congruence.
    + rewrite E. reflexivity.
    + now rewrite app_nil_r.
Qed.

Lemma attemptsUnder_ingest evs rp k :
  attemptsUnder k (testRecords (ingest u evs rp)) =
  (attemptsUnder k (testRecords rp) ++ attemptsFor k evs)%list.
Proof.
  revert rp. induction evs as [|e evs IH]; intros rp; simpl.
  - now rewrite app_nil_r.
  - unfold ingest in *. cbn [fold_left]. rewrite IH.
    destruct e; cbn [deliver attemptsFor flat_map].
    + rewrite attemptsUnder_onTestEnd. now rewrite <- app_assoc.
    + reflexivity.
Qed.

Lemma Forall_store_push (P : string * TestRecord -> Prop) k a st :
  (forall k0 r0, P (k0, r0) -> P (k0, {| test := test r0; attempts := attempts r0 ++ [a] |})) ->
  Forall P st -> Forall P (store_push k a st).
Proof.
  intros HP. induction 1 as [|[k0 r0] st H0 H IH]; simpl; [constructor|].
  case_decide; constructor; auto.
Qed.

Lemma Forall_store_set_new (P : string * TestRecord -> Prop) k r st :
  store_get k st = None -> P (k, r) -> Forall P st -> Forall P (store_set k r st).
Proof.
  intros Hn Hk. induction 1 as [|[k0 r0] st H0 H IH]; simpl; [repeat constructor; auto|].
  simpl in Hn. case_decide; [discriminate|]. constructor; auto.
Qed.

Lemma wellKeyed_onTestEnd t r rp :
  wellKeyed (testRecords rp) -> wellKeyed (testRecords (onTestEnd u t r rp)).
Proof.
  intros [Hnd Hall]. unfold onTestEnd, store_has; simpl.
  destruct (store_get (tc_title t) (testRecords rp)) eqn:E.
  - split.
    + now rewrite store_keys_push.
    + apply Forall_store_push; auto.
  - split.
    + rewrite store_keys_push, store_keys_set_new by exact E.
      apply NoDup_app. repeat split; auto.
      * intros x Hx Hx'. apply list_elem_of_singleton in Hx'. subst.
        apply store_get_None_keys in E. contradiction.
      * apply NoDup_singleton.
    + apply Forall_store_push; auto. apply Forall_store_set_new; auto.
Qed.

Lemma wellKeyed_ingest evs rp :
  wellKeyed (testRecords rp) -> wellKeyed (testRecords (ingest u evs rp)).
Proof.
  revert rp. induction evs as [|e evs IH]; intros rp H; simpl; [exact H|].
  apply IH. destruct e; simpl; [now apply wellKeyed_onTestEnd | exact H].
Qed.


(** C5 as amended.  Attempt-end events are appended to the same record
    exactly when their tests have the same title: the record stored under
    a title holds, in arrival order, the attempts of all the events whose
    test has that title and of no other event; keys are distinct and each
    record sits under the title of its test, so tests that share a title
    share one record whatever their suites. *)
Theorem records_are_keyed_by_title cfg evs k :
  let st := testRecords (ingest u evs (newReporter cfg)) in
  attemptsUnder k st = attemptsFor k evs
  /\ NoDup (store_keys st)
  /\ (forall k' r, store_get k' st = Some r -> testTitle (test r) = k').
Proof.
  intros st. split; [apply (attemptsUnder_ingest evs (newReporter cfg) k)|].
  assert (Hw : wellKeyed st).
  { apply wellKeyed_ingest. split; [constructor | constructor]. }
  destruct Hw as [Hnd Hall]. split; [exact Hnd|].
  intros k' r Hget. clear Hnd.
  induction st as [|[k0 r0] st0 IH]; [discriminate|].
  apply Forall_cons in Hall as [H0 Hall]. cbn in Hget, H0.
  case_decide; [injection Hget as <-; congruence | now apply IH].
Qed.

End Ingest.


(** ** Every channel absorbs what its collaborators throw *)

Lemma absorbed_intro {W A} cs (s s' : Proc W) (a : A) t :
  exitCode s' = exitCode s -> Forall (within cs) t -> absorbed cs s (Ok a) s' t.
Proof. unfold absorbed; eauto. Qed.

Lemma wp_keep {W A} (m : M W A) cs Q (s : Proc W) :
  wp m (absorbed cs s) s ->
  (forall a s', result (m s) = Ok a -> exitCode s' = exitCode s ->
                Q (Ok a) s' (trace (m s))) ->
  wp m Q s.
Proof.
  unfold wp, absorbed. intros ([a Ha] & He & Ht) HQ.
  rewrite Ha. now apply HQ.
Qed.

Lemma when_absorbed {W} cs c (m : M W unit) (s : Proc W) :
  wp m (absorbed cs s) s -> wp (when c m) (absorbed cs s) s.
Proof.
  destruct c; [exact id | intros _]. apply wp_ret. apply absorbed_intro; auto.
Qed.

Ltac within_solve :=
  repeat first
    [ apply Forall_nil
    | apply Forall_app; split
    | apply Forall_cons; split
    | assumption
    | (unfold within; cbn; tauto) ].

Ltac absorbed_done :=
  apply absorbed_intro;
  [ cbn [exitCode]; try congruence | within_solve ].

Ltac absorbed_in :=
  let r := fresh "r" in let s' := fresh "s" in let t := fresh "t" in
  let a := fresh "a" in let Hx := fresh "Hexit" in let Ht := fresh "Htrace" in
  intros r s' t ([a ->] & Hx & Ht); cbn [exitCode] in Hx; cbn beta iota.

Ltac wp_use lem :=
  eapply wp_mono; [ eapply lem; first [assumption | cbn; tauto] | absorbed_in ].

Section Absorption.
Context {W : Type} (h : Handler W) (clk : Clock W) (u : Helpers) (env : ProcessEnv).
Context (rp : Reporter).

Lemma explain_absorbed cs ch needles e (s : Proc W) :
  In ch cs -> wp (explain ch needles e) (absorbed cs s) s.
Proof. intros Hc. unfold explain. wp_steps; absorbed_done. Qed.

Lemma callGenAI_absorbed cs prompt (s : Proc W) :
  In fx cs -> wp (callGenAISuggestion h prompt) (absorbed cs s) s.
Proof. intros Hc. unfold callGenAISuggestion. wp_steps; absorbed_done. Qed.

Lemma generateFix_absorbed cs f (s : Proc W) :
  In fx cs -> wp (generateFixSuggestion h env f) (absorbed cs s) s.
Proof.
  intros Hc. unfold generateFixSuggestion. wp_steps; try absorbed_done.
  all: wp_use (callGenAI_absorbed cs); wp_steps; absorbed_done.
Qed.

Lemma generatePR_absorbed cs f r (s : Proc W) :
  In pra cs -> wp (_generatePullRequest h clk u env f r) (absorbed cs s) s.
Proof.
  intros Hc. unfold _generatePullRequest. wp_steps; try absorbed_done.
  all: wp_use (explain_absorbed cs); absorbed_done.
Qed.

Lemma afterFix_absorbed cs f r (s : Proc W) :
  In fx cs -> In pra cs -> wp (afterFix h clk u env rp f r) (absorbed cs s) s.
Proof.
  intros Hc Hp. unfold afterFix. wp_steps; try absorbed_done.
  wp_use (generatePR_absorbed cs). absorbed_done.
Qed.

Lemma fixOne_absorbed cs f (s : Proc W) :
  In fx cs -> In pra cs -> wp (fixOne h clk u env rp f) (absorbed cs s) s.
Proof.
  intros Hc Hp. unfold fixOne. wp_steps; try absorbed_done.
  all: wp_use (generateFix_absorbed cs); wp_use (afterFix_absorbed cs); absorbed_done.
Qed.

Lemma forEach_absorbed cs {A} (l : list A) (body : A -> M W unit) (s : Proc W) :
  (forall x s0, wp (body x) (absorbed cs s0) s0) ->
  wp (forEach l body) (absorbed cs s) s.
Proof.
  intros Hb. eapply wp_mono.
  - apply wp_forEach with
      (I := fun s' t => exitCode s' = exitCode s /\ Forall (within cs) t)
      (T := fun _ _ _ => False).
    + split; [reflexivity | constructor].
    + intros x s0 t0 _ [He Ht]. eapply wp_mono; [apply Hb|].
      intros r s' t ([a ->] & He' & Ht'). split; [congruence|].
      apply Forall_app; auto.
  - intros [[]|e] s' t; [|intros []]. intros [He Ht]. now apply absorbed_intro.
Qed.

Lemma generateFixSuggestions_absorbed cs fs (s : Proc W) :
  In fx cs -> In pra cs ->
  wp (_generateFixSuggestions h clk u env rp fs) (absorbed cs s) s.
Proof.
  intros Hc Hp. unfold _generateFixSuggestions. wp_steps.
  eapply wp_mono; [apply (forEach_absorbed cs); intros; now apply fixOne_absorbed|].
  absorbed_in. wp_steps; absorbed_done.
Qed.

Lemma bugOne_absorbed cs f (s : Proc W) :
  In bug cs -> wp (bugOne h u f) (absorbed cs s) s.
Proof. intros Hc. unfold bugOne. wp_steps; absorbed_done. Qed.

Lemma createBugs_absorbed cs fs (s : Proc W) :
  In bug cs -> wp (_createBugsForFailures h u fs) (absorbed cs s) s.
Proof.
  intros Hc. unfold _createBugsForFailures. wp_steps.
  - eapply wp_mono; [apply (forEach_absorbed cs); intros; now apply bugOne_absorbed|].
    absorbed_in. wp_steps; absorbed_done.
  - wp_use (explain_absorbed cs). absorbed_done.
Qed.

Lemma saveOne_kept cs id fs tc (s : Proc W) :
  In db cs -> wp (saveOne h clk id fs tc) (kept cs s) s.
Proof.
  intros Hc. unfold saveOne.
  wp_steps; (split; [cbn [exitCode]; congruence | within_solve]).
Qed.

Lemma publish_absorbed cs sm cases fs (s : Proc W) :
  In db cs -> wp (_publishToDatabase h clk u env sm cases fs) (absorbed cs s) s.
Proof.
  intros Hc. unfold _publishToDatabase. wp_steps; try absorbed_done.
  all: try (wp_use (explain_absorbed cs); wp_steps; absorbed_done).
  eapply wp_mono.
  - apply wp_forEach with
      (I := fun s' t => exitCode s' = exitCode s /\ Forall (within cs) t)
      (T := fun _ s' t => exitCode s' = exitCode s /\ Forall (within cs) t).
    + split; [reflexivity | constructor].
    + intros x s0 t0 _ [He Ht]. eapply wp_mono; [apply (saveOne_kept cs); exact Hc|].
      intros [a'|e'] s' t' [He' Ht']; (split; [congruence | apply Forall_app; auto]).
  - intros [a'|e'] s' t' [He' Ht']; cbn beta iota.
    + wp_steps; absorbed_done.
    + wp_steps. wp_use (explain_absorbed cs). wp_steps; absorbed_done.
Qed.

Lemma sendEmail_absorbed cs sm fs (s : Proc W) :
  In mail cs -> wp (_sendEmailNotification h env sm fs) (absorbed cs s) s.
Proof.
  intros Hc. unfold _sendEmailNotification. wp_steps; try absorbed_done.
  all: try (wp_use (explain_absorbed cs); wp_steps; absorbed_done).
Qed.

Lemma saveLastRun_absorbed cs b (s : Proc W) :
  In None cs -> wp (saveLastRunStatus h u rp b) (absorbed cs s) s.
Proof. intros Hc. unfold saveLastRunStatus. wp_steps; absorbed_done. Qed.

Lemma fixStage_absorbed fs (s : Proc W) :
  wp (fixStage h clk u env rp fs) (absorbed [fx; pra] s) s.
Proof.
  apply when_absorbed, generateFixSuggestions_absorbed; cbn; tauto.
Qed.

Lemma bugStage_absorbed fs (s : Proc W) :
  wp (bugStage h u rp fs) (absorbed [bug] s) s.
Proof. apply when_absorbed, createBugs_absorbed; cbn; tauto. Qed.

Lemma dbStage_absorbed sm cases fs (s : Proc W) :
  wp (dbStage h clk u env rp sm cases fs) (absorbed [db] s) s.
Proof. apply when_absorbed, publish_absorbed; cbn; tauto. Qed.

Lemma mailStage_absorbed sm fs (s : Proc W) :
  wp (mailStage h env rp sm fs) (absorbed [mail] s) s.
Proof. apply when_absorbed, sendEmail_absorbed; cbn; tauto. Qed.

(** *** The shape of a run of [onEnd] *)

Lemma onEnd_no_tests (s : Proc W) :
  pr_testCount (processTestResults u (testRecords rp)) = 0 ->
  result (onEnd h clk u env rp s) = Ok tt
  /\ exitCode (final (onEnd h clk u env rp s)) = Some 1
  /\ trace (onEnd h clk u env rp s) = [logEv None LNoTests].
Proof.
  intros H0.
  change (wp (onEnd h clk u env rp)
            (fun r s' t => r = Ok tt /\ exitCode s' = Some 1
                           /\ t = [logEv None LNoTests]) s).
  unfold onEnd. wp_step. wp_step.
  destruct (decide _) as [_|Hn]; [|contradiction].
  unfold _exitWithError. wp_steps. auto.
Qed.

Lemma wp_when_log (c : bool) ch m Q (s : Proc W) :
  Q (Ok tt) s (if c then [logEv ch m] else []) -> wp (when c (log ch m)) Q s.
Proof. destruct c; exact id. Qed.

Lemma onEnd_shape (s : Proc W) :
  pr_testCount (processTestResults u (testRecords rp)) <> 0 ->
  wp (onEnd h clk u env rp) (endShape h clk u env rp s) s.
Proof.
  intros Hn. unfold onEnd.
  wp_step. wp_step.
  destruct (decide _) as [E0|_]; [contradiction|].
  wp_step. apply wp_call. intros [bi|e] w1 Ecall.
  2:{ exists now. left. eexists e, _, w1. split; [exact Ecall|]. repeat split. }
  cbn beta iota.
  wp_step. apply (wp_keep _ [fx; pra]); [apply fixStage_absorbed|].
  intros [] s1 _ He1. cbn [exitCode] in He1.
  wp_step. apply (wp_keep _ [bug]); [apply bugStage_absorbed|].
  intros [] s2 _ He2.
  wp_step. wp_step. wp_step. apply wp_when_log. wp_step. apply wp_when_log.
  wp_step. apply wp_call. intros [[]|e] w2 Ecall2.
  2:{ exists now. right. eexists bi, _, _. left. eexists e, _, w2.
      split; [exact Ecall2|]. split; [reflexivity|].
      split; [cbn [exitCode] in *; congruence|].
      unfold reports, summaryOf; cbn [failures].
      repeat first [rewrite <- app_assoc | progress cbn [app]]. reflexivity. }
  cbn beta iota.
  wp_step. apply (wp_keep _ [db]); [apply dbStage_absorbed|].
  intros [] s3 _ He3. cbn [exitCode] in He3.
  wp_step. apply (wp_keep _ [mail]); [apply mailStage_absorbed|].
  intros [] s4 _ He4.
  wp_step. apply (wp_keep _ [None]); [apply saveLastRun_absorbed; cbn; tauto|].
  intros [] s5 _ He5.
  wp_step. apply wp_when_log. cbn beta iota.
  destruct (hasErrors rp _) eqn:Eh; unfold _exitWithError, _exitWithSuccess;
    wp_step; exists now; right; eexists bi, _, _; right; eexists _, _, _;
    (split; [reflexivity|]); (split; [rewrite Eh; reflexivity|]);
    unfold reports, summaryOf; cbn [failures];
    repeat first [rewrite <- app_assoc | progress cbn [app]];
    rewrite ?app_nil_r; reflexivity.
Qed.
End Absorption.

(** ** Stage order *)

Lemma stageOrdered_app t1 t2 :
  stageOrdered t1 -> stageOrdered t2 ->
  (forall e1 e2 c1 c2, In e1 t1 -> In e2 t2 ->
     ev_channel e1 = Some c1 -> ev_channel e2 = Some c2 -> (stage c1 <= stage c2)%nat) ->
  stageOrdered (t1 ++ t2).
Proof.
  intros H1 H2 H12 i j ei ej ci cj Hij Hi Hj Hci Hcj.
  destruct (decide (j < length t1)%nat) as [Hj1|Hj1].
  - rewrite lookup_app_l in Hi by lia. rewrite lookup_app_l in Hj by lia.
    eapply (H1 i j); eauto.
  - rewrite lookup_app_r in Hj by lia.
    destruct (decide (i < length t1)%nat) as [Hi1|Hi1].
    + rewrite lookup_app_l in Hi by lia.
      eapply H12; eauto.
      * apply list_elem_of_In. eapply list_elem_of_lookup_2; eauto.
      * apply list_elem_of_In. eapply list_elem_of_lookup_2; eauto.
    + rewrite lookup_app_r in Hi by lia.
      eapply (H2 (i - length t1)%nat (j - length t1)%nat); eauto. lia.
Qed.

Lemma span_app lo mid hi t1 t2 :
  (lo <= mid <= hi)%nat ->
  span lo mid t1 -> span mid hi t2 -> span lo hi (t1 ++ t2).
Proof.
  intros Hb [Ho1 Hs1] [Ho2 Hs2]. split.
  - apply stageOrdered_app; auto.
    intros e1 e2 c1 c2 He1 He2 Hc1 Hc2.
    unfold stagesIn in *. rewrite List.Forall_forall in Hs1, Hs2.
    specialize (Hs1 e1 He1 c1 Hc1). specialize (Hs2 e2 He2 c2 Hc2). lia.
  - unfold stagesIn in *. apply Forall_app. split.
    + eapply Forall_impl; [exact Hs1|]. cbn. intros e He c Hc. specialize (He c Hc). lia.
    + eapply Forall_impl; [exact Hs2|]. cbn. intros e He c Hc. specialize (He c Hc). lia.
Qed.

Lemma span_nil lo hi : span lo hi [].
Proof.
  split; [|constructor]. intros i j ei ej ci cj _ Hi. now rewrite lookup_nil in Hi.
Qed.

Lemma span_within k cs t :
  (forall c, In (Some c) cs -> stage c = k) ->
  Forall (within cs) t -> span k k t.
Proof.
  intros Hcs Ht.
  assert (Hs : stagesIn k k t).
  { eapply Forall_impl; [exact Ht|]. cbn. intros e He c Hc.
    unfold within in He. rewrite Hc in He. rewrite (Hcs c He). lia. }
  split; [|exact Hs].
  intros i j ei ej ci cj _ Hi Hj Hci Hcj.
  unfold stagesIn in Hs. rewrite Forall_lookup in Hs.
  pose proof (Hs i ei Hi ci Hci). pose proof (Hs j ej Hj cj Hcj). lia.
Qed.

Lemma span_mono lo hi lo' hi' t :
  (lo' <= lo)%nat -> (hi <= hi')%nat -> span lo hi t -> span lo' hi' t.
Proof.
  intros H1 H2 [Ho Hs]. split; [exact Ho|].
  eapply Forall_impl; [exact Hs|]. cbn. intros e He c Hc. specialize (He c Hc). lia.
Qed.

Lemma span_quiet k t : Forall (within [None]) t -> span k k t.
Proof. apply span_within. intros c [Hc|[]]. discriminate. Qed.

(** ** Consequences of the shape of a run *)

Lemma Forall_within_impl cs (P : Event -> Prop) t :
  Forall (within cs) t -> (forall e, within cs e -> P e) -> Forall P t.
Proof. intros Ht HP. eapply Forall_impl; [exact Ht | exact HP]. Qed.

Section RunEnd.
Context {W : Type} (h : Handler W) (clk : Clock W) (u : Helpers) (env : ProcessEnv).

Lemma hasErrors_false rp fs :
  hasErrors rp fs = false <->
  fs = [] /\ nonTestErrors rp = [] /\ hasInterruptedTests rp = false.
Proof.
  unfold hasErrors, nonEmpty.
  destruct fs, (nonTestErrors rp), (hasInterruptedTests rp); cbn;
    split; try discriminate; try tauto; intros (? & ? & ?); discriminate.
Qed.

Lemma saveLastRun_steps rp b (s : Proc W) :
  Forall (lastRunStep u rp b) (trace (saveLastRunStatus h u rp b s)).
Proof.
  change (wp (saveLastRunStatus h u rp b)
            (fun _ _ t => Forall (lastRunStep u rp b) t) s).
  unfold saveLastRunStatus. wp_steps;
    repeat first [apply Forall_nil | apply Forall_app; split | apply Forall_cons; split];
    unfold lastRunStep; cbn; auto.
Qed.

(** A property of events that holds of every step of every stage holds of
    the whole trace, however the run ends. *)
Lemma onEnd_trace_forall rp (P : Event -> Prop) (s : Proc W) :
  let p := processTestResults u (testRecords rp) in
  let fs := pr_failures p in
  P (logEv None LNoTests) ->
  P (callEv None GetBuildInfo) ->
  (forall s1, Forall P (trace (fixStage h clk u env rp fs s1))) ->
  (forall s2, Forall P (trace (bugStage h u rp fs s2))) ->
  (forall ttd bi, Forall P (reports rp (summaryOf u rp p ttd bi))) ->
  (forall ttd bi, P (callEv None (WriteSummary (summaryOf u rp p ttd bi) (allTestCasesOf rp)))) ->
  (forall sm s3, Forall P (trace (dbStage h clk u env rp sm (allTestCasesOf rp) fs s3))) ->
  (forall sm s4, Forall P (trace (mailStage h env rp sm fs s4))) ->
  (forall s5, Forall P (trace (saveLastRunStatus h u rp (nonEmpty fs) s5))) ->
  P (logEv None LInterrupted) ->
  Forall P (trace (onEnd h clk u env rp s)).
Proof.
  intros p fs H0 Hb Hf Hg Hr Hw Hd Hm Hl Hi.
  destruct (decide (pr_testCount p = 0)) as [E|E].
  - destruct (onEnd_no_tests h clk u env rp s E) as (_ & _ & ->).
    repeat constructor. exact H0.
  - pose proof (onEnd_shape h clk u env rp s E) as Hs.
    unfold wp, endShape in Hs. fold p fs in Hs.
    destruct Hs as (endTime & [(e & w & w' & _ & _ & _ & ->)
                              | (bi & s1 & s2 & [(e & w & w' & _ & _ & _ & ->)
                                                | (s3 & s4 & s5 & _ & _ & ->)])]).
    all: cbv zeta; destruct (hasInterruptedTests rp);
      repeat first
        [ apply Hr | apply Hf | apply Hg | apply Hd | apply Hm | apply Hl
        | apply Forall_nil
        | apply Forall_app; split
        | apply Forall_cons; split
        | exact Hb | apply Hw | exact Hi | exact I ].
Qed.

(** Channel stages only produce events of their channels. *)
Lemma stage_events rp (P : Event -> Prop) (s : Proc W) :
  (forall e, ev_channel e <> None -> P e) ->
  (forall e, lastRunStep u rp
               (nonEmpty (pr_failures (processTestResults u (testRecords rp)))) e -> P e) ->
  P (logEv None LNoTests) ->
  P (callEv None GetBuildInfo) ->
  (forall ttd bi, Forall P (reports rp (summaryOf u rp (processTestResults u (testRecords rp)) ttd bi))) ->
  (forall ttd bi, P (callEv None (WriteSummary
                                    (summaryOf u rp (processTestResults u (testRecords rp)) ttd bi)
                                    (allTestCasesOf rp)))) ->
  P (logEv None LInterrupted) ->
  Forall P (trace (onEnd h clk u env rp s)).
Proof.
  intros Hc Hl H0 Hb Hr Hw Hi.
  assert (Hch : forall cs t, ~ In None cs -> Forall (within cs) t -> Forall P t).
  { intros cs t Hn Ht. eapply Forall_within_impl; [exact Ht|].
    intros e He. apply Hc. intros E. unfold within in He. now rewrite E in He. }
  apply onEnd_trace_forall; auto.
  - intros s1. apply (Hch [fx; pra]); [cbn; intuition discriminate|].
    apply (fixStage_absorbed h clk u env rp _ s1).
  - intros s2. apply (Hch [bug]); [cbn; intuition discriminate|].
    apply (bugStage_absorbed h u rp _ s2).
  - intros sm s3. apply (Hch [db]); [cbn; intuition discriminate|].
    apply (dbStage_absorbed h clk u env rp sm _ _ s3).
  - intros sm s4. apply (Hch [mail]); [cbn; intuition discriminate|].
    apply (mailStage_absorbed h env rp sm _ s4).
  - intros s5. eapply Forall_impl; [apply saveLastRun_steps | exact Hl].
Qed.
End RunEnd.

Lemma absorbed_trace {W A} (m : M W A) cs (s : Proc W) :
  wp m (absorbed cs s) s -> Forall (within cs) (trace (m s)).
Proof. intros (_ & _ & H). exact H. Qed.

Lemma absorbed_result {W} (m : M W unit) cs (s : Proc W) :
  wp m (absorbed cs s) s -> result (m s) = Ok tt.
Proof. intros ([[] H] & _ & _). exact H. Qed.

Lemma span_app' a b c d t1 t2 :
  span a b t1 -> span c d t2 -> (a <= b)%nat -> (b <= c)%nat -> (c <= d)%nat ->
  span a d (t1 ++ t2).
Proof.
  intros H1 H2 Hab Hbc Hcd. apply (span_app a b d); [lia | exact H1 |].
  eapply span_mono; [| |exact H2]; lia.
Qed.

Lemma span_cons a d e t :
  ev_channel e = None -> span a d t -> span a d (e :: t).
Proof.
  intros He [Ho Hs]. split.
  - intros i j ei ej ci cj Hij Hi Hj Hci Hcj.
    destruct i as [|i]; [cbn in Hi; injection Hi as <-; congruence|].
    destruct j as [|j]; [lia|]. cbn in Hi, Hj.
    eapply (Ho i j); eauto. lia.
  - apply Forall_cons. split; [|exact Hs]. intros c Hc. congruence.
Qed.

Section Claims.
Context {W : Type} (h : Handler W) (clk : Clock W) (u : Helpers) (env : ProcessEnv).

Lemma reports_quiet rp sm : Forall (within [None]) (reports rp sm).
Proof.
  unfold reports. destruct (nonEmpty (nonTestErrors rp)), (nonEmpty (failures sm));
    repeat constructor.
Qed.

Lemma onEnd_stageOrdered rp (s : Proc W) :
  stageOrdered (trace (onEnd h clk u env rp s)).
Proof.
  assert (Hseg_f : forall fs s1, span 0 0 (trace (fixStage h clk u env rp fs s1))).
  { intros. apply (span_within 0 [fx; pra]).
    - intros c [E|[E|[]]]; inversion E; reflexivity.
    - apply absorbed_trace, fixStage_absorbed. }
  assert (Hseg_b : forall fs s2, span 1 1 (trace (bugStage h u rp fs s2))).
  { intros. apply (span_within 1 [bug]).
    - intros c [E|[]]; inversion E; reflexivity.
    - apply absorbed_trace, bugStage_absorbed. }
  assert (Hseg_d : forall sm cs fs s3, span 2 2 (trace (dbStage h clk u env rp sm cs fs s3))).
  { intros. apply (span_within 2 [db]).
    - intros c [E|[]]; inversion E; reflexivity.
    - apply absorbed_trace, dbStage_absorbed. }
  assert (Hseg_m : forall sm fs s4, span 3 3 (trace (mailStage h env rp sm fs s4))).
  { intros. apply (span_within 3 [mail]).
    - intros c [E|[]]; inversion E; reflexivity.
    - apply absorbed_trace, mailStage_absorbed. }
  assert (Hseg_l : forall b s5, span 3 3 (trace (saveLastRunStatus h u rp b s5))).
  { intros. apply span_quiet, absorbed_trace, saveLastRun_absorbed. now left. }
  assert (Hseg_r : forall sm, span 1 1 (reports rp sm)).
  { intros. apply span_quiet, reports_quiet. }
  set (p := processTestResults u (testRecords rp)).
  destruct (decide (pr_testCount p = 0)) as [E|E].
  - destruct (onEnd_no_tests h clk u env rp s E) as (_ & _ & ->).
    apply (span_cons 0 0); [reflexivity | apply span_nil].
  - pose proof (onEnd_shape h clk u env rp s E) as Hs.
    unfold wp, endShape in Hs. cbv zeta in Hs.
    destruct Hs as (endTime & [(e & w & w' & _ & _ & _ & ->)
                              | (bi & s1 & s2 & [(e & w & w' & _ & _ & _ & ->)
                                                | (s3 & s4 & s5 & _ & _ & ->)])]).
    + apply (span_cons 0 0); [reflexivity | apply span_nil].
    + apply (span_cons 0 1); [reflexivity|].
      eapply span_app'; [apply Hseg_f | | lia | | ].
      * eapply span_app'; [apply Hseg_b | | lia | |].
        -- eapply span_app'; [apply Hseg_r | | lia | |].
           ++ apply (span_cons 1 1); [reflexivity | apply span_nil].
           ++ lia.
           ++ lia.
        -- lia.
        -- lia.
      * lia.
      * lia.
    + assert (Hpre : span 0 1
                (callEv None GetBuildInfo
                 :: trace (fixStage h clk u env rp (pr_failures p) s1)
                 ++ trace (bugStage h u rp (pr_failures p) s2)
                 ++ reports rp (summaryOf u rp p
                                  (formatTime u (msToSec (endTime - startTime rp))) bi)
                 ++ [callEv None
                       (WriteSummary
                          (summaryOf u rp p
                             (formatTime u (msToSec (endTime - startTime rp))) bi)
                          (allTestCasesOf rp))])).
      { apply (span_cons 0 1); [reflexivity|].
        eapply span_app'; [apply Hseg_f | | lia | | ].
        * eapply span_app'; [apply Hseg_b | | lia | |].
          -- eapply span_app'; [apply Hseg_r | | lia | |].
             ++ apply (span_cons 1 1); [reflexivity | apply span_nil].
             ++ lia.
             ++ lia.
          -- lia.
          -- lia.
        * lia.
        * lia. }
      apply (span_app' 0 1 2 3); [exact Hpre | | lia | lia | lia].
      apply (span_app' 2 2 3 3); [apply Hseg_d | | lia | lia | lia].
      apply (span_app' 3 3 3 3); [apply Hseg_m | | lia | lia | lia].
      apply (span_app' 3 3 3 3); [apply Hseg_l | | lia | lia | lia].
      destruct (hasInterruptedTests rp);
        [apply (span_cons 3 3); [reflexivity | apply span_nil] | apply span_nil].
Qed.

Lemma onEnd_completes rp (s : Proc W) :
  reportingTotal h ->
  pr_testCount (processTestResults u (testRecords rp)) <> 0 ->
  let p := processTestResults u (testRecords rp) in
  let fs := pr_failures p in
  exists (sm : TestSummary) (s1 s2 s3 s4 s5 : Proc W),
    result (onEnd h clk u env rp s) = Ok tt
    /\ exitCode (final (onEnd h clk u env rp s)) = Some (if hasErrors rp fs then 1 else 0)
    /\ trace (onEnd h clk u env rp s) =
         ((callEv None GetBuildInfo
            :: trace (fixStage h clk u env rp fs s1)
            ++ trace (bugStage h u rp fs s2)
            ++ reports rp sm
            ++ [callEv None (WriteSummary sm (allTestCasesOf rp))])
          ++ trace (dbStage h clk u env rp sm (allTestCasesOf rp) fs s3)
          ++ trace (mailStage h env rp sm fs s4)
          ++ trace (saveLastRunStatus h u rp (nonEmpty fs) s5)
          ++ (if hasInterruptedTests rp then [logEv None LInterrupted] else []))%list.
Proof.
  intros [Hb Hw] E p fs.
  pose proof (onEnd_shape h clk u env rp s E) as Hs.
  unfold wp, endShape in Hs. cbv zeta in Hs.
  destruct Hs as (endTime & [(e & w & w' & Hc & _)
                            | (bi & s1 & s2 & [(e & w & w' & Hc & _)
                                              | (s3 & s4 & s5 & Hr & Hx & Ht)])]).
  - destruct (Hb w) as (v & w2 & Hv). congruence.
  - destruct (Hw (summaryOf u rp p (formatTime u (msToSec (endTime - startTime rp))) bi)
                 (allTestCasesOf rp) w) as (w2 & Hv).
    fold p in Hc. congruence.
  - eexists _, s1, s2, s3, s4, s5. split; [exact Hr|]. split; [exact Hx|]. exact Ht.
Qed.
End Claims.

Lemma loggedSummaries_Forall (Q : TestSummary -> Prop) t :
  Forall (fun e => match ev_channel e, ev_action e with
                   | None, Log (LSummary sm) => Q sm
                   | _, _ => True
                   end) t ->
  Forall Q (loggedSummaries t).
Proof.
  induction 1 as [|e t He Ht IH]; [constructor|].
  unfold loggedSummaries in *. cbn [flat_map]. apply Forall_app. split; [|exact IH].
  destruct e as [[c|] [m|R q]]; cbn in *; try constructor.
  destruct m; cbn in *; repeat constructor. exact He.
Qed.

Lemma reporterWrites_Forall (Q : string * string -> Prop) t :
  Forall (fun e => match ev_channel e, ev_action e with
                   | None, Call (WriteFileSync p d) => Q (p, d)
                   | _, _ => True
                   end) t ->
  Forall Q (reporterWrites t).
Proof.
  induction 1 as [|e t He Ht IH]; [constructor|].
  unfold reporterWrites in *. cbn [flat_map]. apply Forall_app. split; [|exact IH].
  destruct e as [[c|] [m|R q]]; cbn in *; try constructor.
  destruct q; cbn in *; repeat constructor. exact He.
Qed.

Lemma reporterWrites_app t1 t2 :
  reporterWrites (t1 ++ t2) = (reporterWrites t1 ++ reporterWrites t2)%list.
Proof. unfold reporterWrites. apply flat_map_app. Qed.

Lemma reporterWrites_channel cs t :
  ~ In None cs -> Forall (within cs) t -> reporterWrites t = [].
Proof.
  intros Hn. induction 1 as [|e t He Ht IH]; [reflexivity|].
  unfold reporterWrites in *. cbn [flat_map]. rewrite IH.
  destruct e as [[c|] a]; [reflexivity|]. contradiction.
Qed.

Section ClaimsEnd.
Context {W : Type} (h : Handler W) (clk : Clock W) (u : Helpers) (env : ProcessEnv).

(** C1.  A completed run signals success exactly when there was at least
    one test, the failures list and the non-test errors list are empty and
    no interrupted test was seen; otherwise it signals failure.  The
    statement holds for every behaviour [h] of the collaborators: the
    signal is a function of the reporter's state alone. *)
Theorem exit_signal_decision rp (s : Proc W) :
  let p := processTestResults u (testRecords rp) in
  let r := onEnd h clk u env rp s in
  0 <= pr_testCount p ->
  result r = Ok tt ->
  (exitCode (final r) = Some 0 \/ exitCode (final r) = Some 1)
  /\ (exitCode (final r) = Some 0 <->
      0 < pr_testCount p /\ pr_failures p = [] /\ nonTestErrors rp = []
      /\ hasInterruptedTests rp = false).
Proof.
  intros p r Hnn Hok. subst r.
  destruct (decide (pr_testCount p = 0)) as [E|E].
  - destruct (onEnd_no_tests h clk u env rp s E) as (_ & -> & _).
    split; [now right|]. split; [discriminate|]. intros [Hpos _]. lia.
  - pose proof (onEnd_shape h clk u env rp s E) as Hs.
    unfold wp, endShape in Hs. cbv zeta in Hs. fold p in Hs.
    destruct Hs as (endTime & [(e & w & w' & _ & Hr & _)
                              | (bi & s1 & s2 & [(e & w & w' & _ & Hr & _)
                                                | (s3 & s4 & s5 & _ & -> & _)])]);
      [congruence | congruence |].
    destruct (hasErrors rp (pr_failures p)) eqn:Eh.
    + split; [now right|]. split; [discriminate|].
      intros (_ & H1 & H2 & H3).
      assert (hasErrors rp (pr_failures p) = false) by (apply hasErrors_false; auto).
      congruence.
    + split; [now left|]. split; [|reflexivity]. intros _.
      apply hasErrors_false in Eh. split; [lia | exact Eh].
Qed.

(** C3.  With no test discovered the run reports that state, signals
    failure, and does nothing else: no channel event and no call at all. *)
Theorem no_tests_discovered rp (s : Proc W) :
  pr_testCount (processTestResults u (testRecords rp)) = 0 ->
  result (onEnd h clk u env rp s) = Ok tt
  /\ exitCode (final (onEnd h clk u env rp s)) = Some 1
  /\ trace (onEnd h clk u env rp s) = [logEv None LNoTests].
Proof. apply onEnd_no_tests. Qed.

(** C4.  Every summary a run reports has passedCount + failedCount +
    skippedCount = testCount. *)
Theorem summary_counts_add_up rp (s : Proc W) (sm : TestSummary) :
  In sm (loggedSummaries (trace (onEnd h clk u env rp s))) ->
  passedCount sm + failedCount sm + skippedCount sm = testCount sm.
Proof.
  revert sm. apply List.Forall_forall. apply loggedSummaries_Forall.
  apply stage_events.
  - intros [[c|] a] Hc; cbn in *; [exact I | congruence].
  - intros [[c|] [m|R q]] [Hc Ha]; cbn in *; try exact I; try discriminate.
    destruct m; cbn in *; tauto.
  - exact I.
  - exact I.
  - intros ttd bi. unfold reports.
    destruct (nonEmpty (nonTestErrors rp)), (nonEmpty _); repeat constructor;
      cbn; lia.
  - intros. exact I.
  - exact I.
Qed.

Lemma saveLastRun_writes rp b (s : Proc W) :
  lastRunWritable h rp ->
  reporterWrites (trace (saveLastRunStatus h u rp b s)) =
    [(lastRunPath rp, jsonStringify u (lastRunDataOf rp b))].
Proof.
  intros (He & Hm & Hw).
  change (wp (saveLastRunStatus h u rp b)
            (fun _ _ t => reporterWrites t =
               [(lastRunPath rp, jsonStringify u (lastRunDataOf rp b))]) s).
  unfold saveLastRunStatus. wp_steps; try reflexivity.
  all: repeat match goal with
       | E : h _ (ExistsSync _) ?w = (Throw _, _) |- _ =>
           destruct (He w) as (? & ? & ?); congruence
       | E : h _ (MkdirSync _) ?w = (Throw _, _) |- _ =>
           destruct (Hm w) as (? & ?); congruence
       | E : h _ (WriteFileSync _ ?d) ?w = (Throw _, _) |- _ =>
           destruct (Hw d w) as (? & ?); congruence
       end.
Qed.

(** C10.  Whenever a run with at least one test writes the last-run
    document, the document is the serialisation of an object whose status
    is 'failed' exactly when the failures list is non-empty (interrupted
    tests and non-test errors play no part); the document is written when
    the reporter's own calls and the file system do not throw; and there is
    a run that signals failure while its document says 'passed'. *)
Theorem last_run_status_follows_failures rp (s : Proc W) :
  let fs := pr_failures (processTestResults u (testRecords rp)) in
  let doc := lastRunDataOf rp (nonEmpty fs) in
  let r := onEnd h clk u env rp s in
  (lr_status doc = "failed" <-> fs <> [])
  /\ (lr_status doc = "passed" <-> fs = [])
  /\ Forall (fun pd => pd = (lastRunPath rp, jsonStringify u doc)) (reporterWrites (trace r))
  /\ (pr_testCount (processTestResults u (testRecords rp)) <> 0 ->
      reportingTotal h -> lastRunWritable h rp ->
      reporterWrites (trace r) = [(lastRunPath rp, jsonStringify u doc)])
  /\ (exists evs,
        let r' := Sample.run Sample.noFaults Sample.allOn evs in
        exitCode (final r') = Some 1
        /\ exists path tests,
             reporterWrites (trace r') =
               [(path, Sample.stringify {| lr_status := "passed"; lr_failedTests := tests |})]).
Proof.
  intros fs doc r. repeat split.
  - unfold doc, lastRunDataOf; cbn. destruct fs; cbn; [discriminate | congruence].
  - intros H. unfold doc, lastRunDataOf; cbn. destruct fs; cbn; congruence.
  - unfold doc, lastRunDataOf; cbn. destruct fs; cbn; [congruence | discriminate].
  - intros ->. reflexivity.
  - apply reporterWrites_Forall. apply stage_events.
    + intros [[c|] a] Hc; cbn in *; [exact I | congruence].
    + intros [[c|] [m|R q]] [Hc Ha]; cbn in *; try exact I; try discriminate.
      destruct q; cbn in *; try exact I. destruct Ha as [-> ->]. reflexivity.
    + exact I.
    + exact I.
    + intros ttd bi. unfold reports.
      destruct (nonEmpty (nonTestErrors rp)), (nonEmpty _); repeat constructor.
    + intros. exact I.
    + exact I.
  - intros E Hrt Hlw.
    destruct (onEnd_completes h clk u env rp s Hrt E)
      as (sm & s1 & s2 & s3 & s4 & s5 & _ & _ & Ht).
    subst r. rewrite Ht.
    rewrite !reporterWrites_app.
    change (callEv None GetBuildInfo :: ?l) with ([callEv None GetBuildInfo] ++ l)%list.
    rewrite !reporterWrites_app.
    rewrite (reporterWrites_channel [fx; pra] (trace (fixStage _ _ _ _ _ _ s1)));
      [| cbn; intuition discriminate | apply absorbed_trace, fixStage_absorbed].
    rewrite (reporterWrites_channel [bug] (trace (bugStage _ _ _ _ s2)));
      [| cbn; intuition discriminate | apply absorbed_trace, bugStage_absorbed].
    rewrite (reporterWrites_channel [db] (trace (dbStage _ _ _ _ _ _ _ _ s3)));
      [| cbn; intuition discriminate | apply absorbed_trace, dbStage_absorbed].
    rewrite (reporterWrites_channel [mail] (trace (mailStage _ _ _ _ _ s4)));
      [| cbn; intuition discriminate | apply absorbed_trace, mailStage_absorbed].
    rewrite (saveLastRun_writes rp _ s5 Hlw).
    assert (Hrep : reporterWrites (reports rp sm) = []).
    { unfold reports. destruct (nonEmpty (nonTestErrors rp)), (nonEmpty (failures sm)); reflexivity. }
    rewrite Hrep.
    destruct (hasInterruptedTests rp); reflexivity.
  - exists [TestEnd Sample.checkout (Sample.pass 1000);
            SetupError {| err_message := "global setup failed"; err_stack := None |}].
    split; [vm_compute; reflexivity|].
    exists "./test-results/.last-run.json", []. vm_compute. reflexivity.
Qed.
End ClaimsEnd.

(** ** Loops *)

Lemma forEach_forall {W A} (P : Event -> Prop) (l : list A) (body : A -> M W unit) (s : Proc W) :
  (forall x s0, Forall P (trace (body x s0))) ->
  Forall P (trace (forEach l body s)).
Proof.
  intros Hb. revert s. induction l as [|x l IH]; intros s; [constructor|].
  cbn [forEach]. unfold bind. specialize (Hb x s).
  destruct (result (body x s)); cbn [trace]; [|exact Hb].
  apply Forall_app. split; [exact Hb | apply IH].
Qed.

(** When no iteration throws, the loop runs the body once per element, in
    order, each from the state the previous one left. *)
Lemma forEach_trace {W A} (l : list A) (body : A -> M W unit) (s : Proc W) :
  (forall x s0, result (body x s0) = Ok tt) ->
  result (forEach l body s) = Ok tt
  /\ exists ss : list (Proc W),
       length ss = length l
       /\ trace (forEach l body s) =
            concat (zip_with (fun x si => trace (body x si)) l ss).
Proof.
  intros Hb. revert s. induction l as [|x l IH]; intros s.
  - split; [reflexivity|]. exists []. split; reflexivity.
  - cbn [forEach]. unfold bind. rewrite (Hb x s).
    destruct (IH (final (body x s))) as (Hr & ss & Hlen & Ht).
    cbn [result trace]. split; [exact Hr|].
    exists (s :: ss). split; [cbn; congruence|]. cbn. now rewrite Ht.
Qed.

Section Isolation.
Context {W : Type} (h : Handler W) (clk : Clock W) (u : Helpers) (env : ProcessEnv).

Lemma bugOne_under_throw f (s : Proc W) :
  bugTrackerAlwaysThrows h ->
  Forall (fun e => forall i, e <> logEv bug (LBugCreated i)) (trace (bugOne h u f s)).
Proof.
  intros Hthrow.
  change (wp (bugOne h u f)
            (fun _ _ t => Forall (fun e => forall i, e <> logEv bug (LBugCreated i)) t) s).
  unfold bugOne. wp_steps.
  1,2: match goal with
       | E : h _ (CreateBug ?d) ?w = (Ok _, _) |- _ =>
           destruct (Hthrow d w) as (? & ? & ?); congruence
       end.
  repeat first [apply Forall_nil | apply Forall_app; split | apply Forall_cons; split];
    try exact I; intros i; discriminate.
Qed.

Lemma bugStage_under_throw rp fs (s : Proc W) :
  bugTrackerAlwaysThrows h ->
  Forall (fun e => forall i, e <> logEv bug (LBugCreated i)) (trace (bugStage h u rp fs s)).
Proof.
  intros Hthrow. unfold bugStage.
  destruct (createBug (config rp) && nonEmpty fs); [|constructor].
  cbn [when]. unfold _createBugsForFailures.
  set (P := fun e : Event => forall i, e <> logEv bug (LBugCreated i)).
  assert (Hx : forall needles e s0,
             wp (explain (W:=W) bug needles e) (fun _ _ t => Forall P t) s0).
  { intros needles e s0.
    unfold explain. wp_steps;
      repeat first [apply Forall_nil | apply Forall_app; split | apply Forall_cons; split];
      try exact I; intros i; discriminate. }
  change (wp (log bug LBanner;;
              try_catch
                (call h bug GetBugTrackerProvider;;
                 forEach fs (bugOne h u);; log bug LBugComplete)
                (explain bug ["Bug tracker provider configuration not found"]))%eff
            (fun _ _ t => Forall P t) s).
  wp_steps.
  - unfold wp.
    match goal with |- context [forEach fs (bugOne h u) ?s0] =>
      pose proof (forEach_forall P fs (bugOne h u) s0
                    (fun x s1 => bugOne_under_throw x s1 Hthrow)) as Hl;
      destruct (forEach_trace fs (bugOne h u) s0) as (Hr & _)
    end.
    { intros x s0. apply (absorbed_result _ [bug]), bugOne_absorbed. now left. }
    rewrite Hr. cbn beta iota. wp_steps.
    repeat first [apply Forall_nil | apply Forall_app; split | apply Forall_cons; split
                 | exact Hl];
      try exact I; intros i; discriminate.
  - eapply wp_mono; [apply Hx|]. intros r0 s0 t0 Hxe. cbn beta.
    repeat first [apply Forall_nil | apply Forall_app; split | apply Forall_cons; split
                 | exact Hxe];
      try exact I; intros i; discriminate.
Qed.

Lemma hasErrors_withCreateBug b rp fs :
  hasErrors (withCreateBug b rp) fs = hasErrors rp fs.
Proof. reflexivity. Qed.

Lemma publish_banner sm cases fs (s : Proc W) :
  exists t, trace (_publishToDatabase h clk u env sm cases fs s) = logEv db LBanner :: t.
Proof.
  unfold _publishToDatabase. unfold bind at 1. cbn [log result final trace].
  eexists. reflexivity.
Qed.

Lemma sendEmail_banner sm fs (s : Proc W) :
  exists t, trace (_sendEmailNotification h env sm fs s) = logEv mail LBanner :: t.
Proof.
  unfold _sendEmailNotification. unfold bind at 1. cbn [log result final trace].
  eexists. reflexivity.
Qed.

(** C2.  When the bug tracker throws on every call, the run still returns
    normally, no bug is recorded as created, the database and notification
    channels still start when they are switched on, and the exit signal is
    the one of the same run with the bug channel switched off. *)
Theorem bug_channel_failure_is_absorbed rp (s : Proc W) :
  let p := processTestResults u (testRecords rp) in
  let r := onEnd h clk u env rp s in
  let r' := onEnd h clk u env (withCreateBug false rp) s in
  bugTrackerAlwaysThrows h ->
  reportingTotal h ->
  createBug (config rp) = true ->
  pr_testCount p <> 0 ->
  result r = Ok tt
  /\ exitCode (final r) = exitCode (final r')
  /\ (forall i, ~ In (logEv bug (LBugCreated i)) (trace r))
  /\ (publishToDB (config rp) = true -> In (logEv db LBanner) (trace r))
  /\ (sendEmail (config rp) = true -> In (logEv mail LBanner) (trace r)).
Proof.
  intros p r r' Hthrow Htot Hon E.
  destruct (onEnd_completes h clk u env rp s Htot E)
    as (sm & s1 & s2 & s3 & s4 & s5 & Hr & Hx & Ht).
  destruct (onEnd_completes h clk u env (withCreateBug false rp) s Htot E)
    as (sm' & s1' & s2' & s3' & s4' & s5' & Hr' & Hx' & Ht').
  fold p in Hx, Hx', Ht. fold r in Hr, Hx, Ht. fold r' in Hx'.
  split; [exact Hr|]. split; [rewrite Hx, Hx'; reflexivity|].
  split; [|split].
  - intros i Hin.
    assert (HF : Forall (fun e => forall i, e <> logEv bug (LBugCreated i)) (trace r)).
    { subst r. apply onEnd_trace_forall; try (intros; discriminate).
      - intros s0. eapply Forall_within_impl;
          [apply absorbed_trace, fixStage_absorbed|].
        intros e He j ->. cbn in He. intuition discriminate.
      - intros s0. now apply bugStage_under_throw.
      - intros ttd bi. eapply Forall_within_impl; [apply reports_quiet|].
        intros e He j ->. cbn in He. intuition discriminate.
      - intros sm0 s0. eapply Forall_within_impl;
          [apply absorbed_trace, dbStage_absorbed|].
        intros e He j ->. cbn in He. intuition discriminate.
      - intros sm0 s0. eapply Forall_within_impl;
          [apply absorbed_trace, mailStage_absorbed|].
        intros e He j ->. cbn in He. intuition discriminate.
      - intros s0. eapply Forall_within_impl;
          [apply absorbed_trace, (saveLastRun_absorbed h u rp [None]); now left|].
        intros e He j ->. cbn in He. intuition discriminate. }
    rewrite List.Forall_forall in HF. exact (HF _ Hin i eq_refl).
  - intros Hdb. rewrite Ht. unfold dbStage. rewrite Hdb. cbn [when].
    destruct (publish_banner sm (allTestCasesOf rp) (pr_failures p) s3) as (t & ->).
    apply in_or_app. right. apply in_or_app. left. now left.
  - intros Hm. rewrite Ht. unfold mailStage. rewrite Hm. cbn [when].
    destruct (sendEmail_banner sm (pr_failures p) s4) as (t & ->).
    apply in_or_app. right. apply in_or_app. right. apply in_or_app. left. now left.
Qed.
End Isolation.


Section FixLoop.
Context {W : Type} (h : Handler W) (clk : Clock W) (u : Helpers) (env : ProcessEnv).
Context (rp : Reporter).

Lemma afterFix_nested f r (s : Proc W) :
  wp (afterFix h clk u env rp f r) (fun res _ t => res = Ok tt /\ nestedSegment rp t) s.
Proof.
  unfold afterFix, nestedSegment. destruct r as [r|].
  - wp_step. wp_step. destruct (generatePR (config rp)) eqn:Epr; cbn [when].
    + wp_step. wp_step. wp_use (generatePR_absorbed h clk u env [pra]).
      split; [destruct a; reflexivity|].
      eexists [_], (_ :: _). split; [reflexivity|].
      split; [within_solve|]. split; [within_solve|].
      intros _. split; [reflexivity|]. eexists _, _. reflexivity.
    + wp_step. split; [reflexivity|].
      eexists [_], []. split; [reflexivity|].
      split; [within_solve|]. split; [constructor|]. congruence.
  - wp_step. split; [reflexivity|].
    eexists [_], []. split; [reflexivity|].
    split; [within_solve|]. split; [constructor|]. congruence.
Qed.

Lemma nested_prefix t0 t :
  Forall (within [fx]) t0 -> nestedSegment rp t -> nestedSegment rp (t0 ++ t).
Proof.
  intros H0 (t1 & t2 & -> & H1 & H2 & H3).
  exists (t0 ++ t1)%list, t2. split; [now rewrite app_assoc|].
  split; [apply Forall_app; auto|]. split; [exact H2|].
  intros Hne. destruct (H3 Hne) as (Hpr & pp & fp & Hl).
  split; [exact Hpr|]. exists pp, fp. rewrite last_app, Hl. reflexivity.
Qed.

Lemma nested_fix_only t : Forall (within [fx]) t -> nestedSegment rp t.
Proof.
  intros H. exists t, []. split; [now rewrite app_nil_r|].
  split; [exact H|]. split; [constructor|]. congruence.
Qed.

Lemma fixOne_nested f (s : Proc W) :
  nestedSegment rp (trace (fixOne h clk u env rp f s)).
Proof.
  change (wp (fixOne h clk u env rp f) (fun _ _ t => nestedSegment rp t) s).
  unfold fixOne. destruct (knownFile f) as [file|].
  2:{ apply wp_ret. apply nested_fix_only. constructor. }
  wp_steps.
  all: try (apply nested_fix_only; within_solve).
  all: wp_use (generateFix_absorbed h env [fx]);
    (eapply wp_mono; [apply afterFix_nested|]);
    intros res s' t' [-> Hn]; cbn beta iota;
    repeat (apply nested_prefix; [within_solve|]); exact Hn.
Qed.

Lemma fixOne_result f (s : Proc W) : result (fixOne h clk u env rp f s) = Ok tt.
Proof.
  apply (absorbed_result _ [fx; pra]), fixOne_absorbed; cbn; tauto.
Qed.


Lemma generateFixSuggestions_trace fs (s : Proc W) :
  result (_generateFixSuggestions h clk u env rp fs s) = Ok tt
  /\ exists ss : list (Proc W),
       length ss = length fs
       /\ trace (_generateFixSuggestions h clk u env rp fs s) =
            (logEv fx LBanner
             :: concat (zip_with (fun f si => trace (fixOne h clk u env rp f si)) fs ss)
             ++ [logEv fx LDone])%list.
Proof.
  change (wp (_generateFixSuggestions h clk u env rp fs)
            (fun r _ t =>
               r = Ok tt
               /\ exists ss : list (Proc W),
                    length ss = length fs
                    /\ t = (logEv fx LBanner
                            :: concat (zip_with (fun f si => trace (fixOne h clk u env rp f si)) fs ss)
                            ++ [logEv fx LDone])%list) s).
  unfold _generateFixSuggestions. wp_steps.
  unfold wp at 1.
  match goal with |- context [forEach fs _ ?s0] =>
    destruct (forEach_trace fs (fixOne h clk u env rp) s0 fixOne_result)
      as (Hr & ss & Hlen & Ht)
  end.
  rewrite Hr, Ht. cbn beta iota. wp_step.
  split; [reflexivity|]. exists ss. split; [exact Hlen|]. reflexivity.
Qed.



End FixLoop.

Section Pipeline.
Context {W : Type} (h : Handler W) (clk : Clock W) (u : Helpers) (env : ProcessEnv).

Lemma createBugs_banner fs (s : Proc W) :
  exists t, trace (_createBugsForFailures h u fs s) = logEv bug LBanner :: t.
Proof.
  unfold _createBugsForFailures. unfold bind at 1. cbn [log result final trace].
  eexists. reflexivity.
Qed.

(** C7.  The trace of [onEnd] is ordered by pipeline stage: fix suggestion
    (with pull-request automation inside it), then bug filing, then
    database publishing, then notification; no event of a later stage
    precedes an event of an earlier one.  Inside the fix-suggestion channel
    the failures are handled one after the other, and the pull-request
    events of a failure come directly after the log line of its generated
    fix.  In a run that completes, every enabled channel does start. *)
Theorem channels_run_in_order rp (s : Proc W) :
  let fs := pr_failures (processTestResults u (testRecords rp)) in
  let r := onEnd h clk u env rp s in
  stageOrdered (trace r)
  /\ (forall l s0, exists ss : list (Proc W),
        length ss = length l
        /\ trace (_generateFixSuggestions h clk u env rp l s0) =
             (logEv fx LBanner
              :: concat (zip_with (fun f si => trace (fixOne h clk u env rp f si)) l ss)
              ++ [logEv fx LDone])%list)
  /\ (forall f s0, nestedSegment rp (trace (fixOne h clk u env rp f s0)))
  /\ (reportingTotal h ->
      pr_testCount (processTestResults u (testRecords rp)) <> 0 ->
      (generateFix (config rp) = true -> fs <> [] -> In (logEv fx LBanner) (trace r))
      /\ (createBug (config rp) = true -> fs <> [] -> In (logEv bug LBanner) (trace r))
      /\ (publishToDB (config rp) = true -> In (logEv db LBanner) (trace r))
      /\ (sendEmail (config rp) = true -> In (logEv mail LBanner) (trace r))).
Proof.
  intros fs r. split; [apply onEnd_stageOrdered|].
  split; [intros l s0; apply generateFixSuggestions_trace|].
  split; [intros f s0; apply fixOne_nested|].
  intros Htot E.
  destruct (onEnd_completes h clk u env rp s Htot E)
    as (sm & s1 & s2 & s3 & s4 & s5 & _ & _ & Ht).
  fold fs in Ht. fold r in Ht. rewrite Ht. repeat split.
  - intros Hon Hne. unfold fixStage. rewrite Hon.
    destruct fs as [|f0 fs0]; [congruence|]. cbn [nonEmpty andb when].
    destruct (generateFixSuggestions_trace h clk u env rp (f0 :: fs0) s1)
      as (_ & ss & _ & ->).
    apply in_or_app. left. right. now left.
  - intros Hon Hne. unfold bugStage. rewrite Hon.
    destruct fs as [|f0 fs0]; [congruence|]. cbn [nonEmpty andb when].
    destruct (createBugs_banner (f0 :: fs0) s2) as (t & ->).
    apply in_or_app. left. right. apply in_or_app. right.
    apply in_or_app. left. now left.
  - intros Hon. unfold dbStage. rewrite Hon. cbn [when].
    destruct (publish_banner h clk u env sm (allTestCasesOf rp) fs s3) as (t & ->).
    apply in_or_app. right. apply in_or_app. left. now left.
  - intros Hon. unfold mailStage. rewrite Hon. cbn [when].
    destruct (sendEmail_banner h env sm fs s4) as (t & ->).
    apply in_or_app. right. apply in_or_app. right. apply in_or_app. left. now left.
Qed.


(** C8 as amended.  With the notification provider configured and
    resolved: an empty recipient list sends nothing; otherwise exactly one
    summary notification is requested, with severity Error when
    failedCount is positive, else Warning when more than a fifth of the
    tests were skipped, else Info; and the failures notification is
    requested exactly when the failures list is non-empty and the summary
    request returned without throwing. *)
Theorem notification_sends summary fs (s : Proc W) w1 :
  let t := trace (_sendEmailNotification h env summary fs s) in
  let rs := recipientsOf env in
  let o := summaryOptionsOf summary rs in
  truthy (NOTIFICATION_PROVIDER env) = true ->
  h _ GetNotificationProvider (world s) = (Ok tt, w1) ->
  (rs = [] -> summarySends t = [] /\ failureSends t = [])
  /\ (rs <> [] ->
      summarySends t = [(summary, o)]
      /\ (0 < failedCount summary -> severity o = Error)
      /\ (failedCount summary <= 0 -> testCount summary < 5 * skippedCount summary ->
          severity o = Warning)
      /\ (failedCount summary <= 0 -> 5 * skippedCount summary <= testCount summary ->
          severity o = Info)
      /\ failureSends t =
           match fst (h _ (SendTestSummary summary o) w1) with
           | Ok _ => if nonEmpty fs then [(fs, failuresOptionsOf fs rs)] else []
           | Throw _ => []
           end).
Proof.
  intros t rs o Hcfg Hprov. subst t o rs.
  assert (Hx : forall needles e s0,
             wp (explain (W:=W) mail needles e)
                (fun r _ t => r = Ok tt /\ summarySends t = [] /\ failureSends t = []) s0).
  { intros needles e s0. unfold explain. wp_steps; repeat split; reflexivity. }
  destruct (recipientsOf env) as [|r0 rs0] eqn:Ers.
  - split; [intros _|congruence].
    change (wp (_sendEmailNotification h env summary fs)
              (fun _ _ t => summarySends t = [] /\ failureSends t = []) s).
    unfold _sendEmailNotification. rewrite Hcfg, Ers. cbn [negb nonEmpty].
    wp_steps.
    all: try match goal with
             | E : h _ GetNotificationProvider _ = (Throw _, _) |- _ =>
                 cbn [world] in E; rewrite Hprov in E; discriminate
             end.
    all: split; reflexivity.
  - split; [congruence|intros _].
    set (rs := r0 :: rs0). set (o := summaryOptionsOf summary rs).
    assert (Hsev : (0 < failedCount summary -> severity o = Error)
                   /\ (failedCount summary <= 0 ->
                       testCount summary < 5 * skippedCount summary -> severity o = Warning)
                   /\ (failedCount summary <= 0 ->
                       5 * skippedCount summary <= testCount summary -> severity o = Info)).
    { unfold o, summaryOptionsOf, severityOf. cbn [severity].
      repeat split; intros; repeat case_decide; try reflexivity; lia. }
    destruct Hsev as (Hs1 & Hs2 & Hs3).
    cut (summarySends (trace (_sendEmailNotification h env summary fs s)) = [(summary, o)]
         /\ failureSends (trace (_sendEmailNotification h env summary fs s)) =
             match fst (h _ (SendTestSummary summary o) w1) with
             | Ok _ => if nonEmpty fs then [(fs, failuresOptionsOf fs rs)] else []
             | Throw _ => []
             end).
    { intros [H1 H2]. repeat split; assumption. }
    change (wp (_sendEmailNotification h env summary fs)
              (fun _ _ t =>
                 summarySends t = [(summary, o)]
                 /\ failureSends t =
                     match fst (h _ (SendTestSummary summary o) w1) with
                     | Ok _ => if nonEmpty fs then [(fs, failuresOptionsOf fs rs)] else []
                     | Throw _ => []
                     end) s).
    unfold _sendEmailNotification. rewrite Hcfg, Ers. cbn [negb nonEmpty].
    fold rs. fold o.
    wp_step. wp_step. wp_step. wp_step. wp_step.
    apply wp_call. intros r w Ecall. rewrite Hprov in Ecall.
    injection Ecall as <- <-. cbn beta iota.
    wp_step. wp_step. wp_step. wp_step. wp_step.
    apply wp_call. intros r w Ecall. cbn [world] in Ecall.
    rewrite Ecall. cbn [fst].
    destruct r as [res|e]; cbn beta iota.
    + wp_steps.
      all: try (eapply wp_mono; [apply Hx|]; intros ? ? ? (-> & Hxs & Hxf); cbn beta; wp_steps).
      all: unfold summarySends, failureSends in *;
        rewrite ?flat_map_app in *; cbn [flat_map ev_action logEv app] in *;
        rewrite ?Hxs, ?Hxf; split; reflexivity.
    + wp_steps.
      eapply wp_mono; [apply Hx|]. intros ? ? ? (-> & Hxs & Hxf). cbn beta. wp_steps.
      all: unfold summarySends, failureSends in *;
        rewrite ?flat_map_app in *; cbn [flat_map ev_action logEv app] in *;
        rewrite ?Hxs, ?Hxf; split; reflexivity.
Qed.
End Pipeline.

(** ** Event ingestion, continued *)

Section IngestMore.
Context (u : Helpers).

Lemma ingest_app evs1 evs2 rp :
  ingest u (evs1 ++ evs2) rp = ingest u evs2 (ingest u evs1 rp).
Proof. unfold ingest. apply fold_left_app. Qed.

Lemma ingest_snoc evs e rp :
  ingest u (evs ++ [e]) rp = deliver u (ingest u evs rp) e.
Proof. now rewrite ingest_app. Qed.

Lemma interrupted_ingest evs rp :
  hasInterruptedTests (ingest u evs rp) = true <->
  hasInterruptedTests rp = true
  \/ exists t r, In (TestEnd t r) evs /\ tr_status r = interrupted.
Proof.
  revert rp. induction evs as [|e evs IH]; intros rp; cbn [ingest fold_left].
  - split; [now left | intros [H|(t & r & [] & _)]; exact H].
  - change (fold_left (deliver u) evs (deliver u rp e)) with (ingest u evs (deliver u rp e)).
    rewrite IH. destruct e as [t r|e]; cbn [deliver onTestEnd onError hasInterruptedTests].
    + case_decide as Hs.
      * split; [intros _; right; exists t, r; split; [now left | exact Hs]|]. now left.
      * split.
        -- intros [H|(t' & r' & Hin & Hr')]; [now left|]. right. exists t', r'. split; [now right | exact Hr'].
        -- intros [H|(t' & r' & [Heq|Hin] & Hr')]; [now left| |].
           ++ injection Heq as <- <-. contradiction.
           ++ right. now exists t', r'.
    + split.
      * intros [H|(t' & r' & Hin & Hr')]; [now left|]. right. exists t', r'. split; [now right | exact Hr'].
      * intros [H|(t' & r' & [Heq|Hin] & Hr')]; [now left|discriminate|].
        right. now exists t', r'.
Qed.

Lemma nonTestErrors_ingest evs rp :
  nonTestErrors (ingest u evs rp) = (nonTestErrors rp ++ setupErrors evs)%list.
Proof.
  revert rp. induction evs as [|e evs IH]; intros rp; cbn [ingest fold_left setupErrors flat_map].
  - now rewrite app_nil_r.
  - change (fold_left (deliver u) evs (deliver u rp e)) with (ingest u evs (deliver u rp e)).
    rewrite IH. destruct e as [t r|e]; cbn [deliver onTestEnd onError nonTestErrors app].
    + reflexivity.
    + now rewrite <- app_assoc.
Qed.

Lemma addedFailures_ingest evs rp :
  addedFailures (ingest u evs rp) = (addedFailures rp ++ failingAttempts u evs)%list.
Proof.
  revert rp. induction evs as [|e evs IH]; intros rp; cbn [ingest fold_left failingAttempts flat_map].
  - now rewrite app_nil_r.
  - change (fold_left (deliver u) evs (deliver u rp e)) with (ingest u evs (deliver u rp e)).
    rewrite IH. destruct e as [t r|e]; cbn [deliver onTestEnd onError addedFailures app].
    + destruct (isFailing (tr_status r)); [now rewrite <- app_assoc | reflexivity].
    + reflexivity.
Qed.
End IngestMore.

Lemma firstOccurrences_seen seen seen' l :
  (forall x, x ∈ seen <-> x ∈ seen') ->
  firstOccurrences seen l = firstOccurrences seen' l.
Proof.
  revert seen seen'. induction l as [|x l IH]; intros seen seen' H; cbn [firstOccurrences].
  - reflexivity.
  - destruct (decide (x ∈ seen)) as [Hx|Hx], (decide (x ∈ seen')) as [Hx'|Hx'].
    + now apply IH.
    + exfalso. apply Hx'. now apply H.
    + exfalso. apply Hx. now apply H.
    + f_equal. apply IH. intros y. rewrite !elem_of_cons, H. tauto.
Qed.

Section IngestOrder.
Context (u : Helpers).

Lemma store_keys_onTestEnd t r rp :
  store_keys (testRecords (onTestEnd u t r rp)) =
  (store_keys (testRecords rp)
   ++ if decide (tc_title t ∈ store_keys (testRecords rp)) then [] else [tc_title t])%list.
Proof.
  unfold onTestEnd, store_has. cbn [testRecords].
  destruct (store_get (tc_title t) (testRecords rp)) eqn:E; rewrite store_keys_push.
  - case_decide as Hin; [now rewrite app_nil_r|].
    apply store_get_None_keys in Hin. congruence.
  - rewrite store_keys_set_new by exact E.
    case_decide as Hin; [|reflexivity].
    apply store_get_None_keys in E. contradiction.
Qed.

Lemma store_keys_ingest evs rp :
  store_keys (testRecords (ingest u evs rp)) =
  (store_keys (testRecords rp)
   ++ firstOccurrences (store_keys (testRecords rp)) (titlesOf evs))%list.
Proof.
  revert rp. induction evs as [|e evs IH]; intros rp; cbn [ingest fold_left titlesOf flat_map].
  - now rewrite app_nil_r.
  - change (fold_left (deliver u) evs (deliver u rp e)) with (ingest u evs (deliver u rp e)).
    rewrite IH. destruct e as [t r|e]; cbn [deliver app].
    + rewrite store_keys_onTestEnd. cbn [firstOccurrences].
      fold (titlesOf evs).
      destruct (decide (tc_title t ∈ store_keys (testRecords rp))) as [Hin|Hin].
      * now rewrite app_nil_r.
      * rewrite <- app_assoc. cbn [app]. do 2 f_equal.
        apply firstOccurrences_seen. intros x.
        rewrite elem_of_app, elem_of_cons, elem_of_cons, elem_of_nil. tauto.
    + reflexivity.
Qed.

Lemma details_onTestEnd t r rp k :
  test <$> store_get k (testRecords (onTestEnd u t r rp)) =
  match store_get k (testRecords rp) with
  | Some r0 => Some (test r0)
  | None => if decide (tc_title t = k) then Some (testCaseDetails u t) else None
  end.
Proof.
  unfold onTestEnd, store_has. cbn [testRecords].
  rewrite store_get_push.
  destruct (store_get (tc_title t) (testRecords rp)) as [r1|] eqn:E.
  - destruct (decide (k = tc_title t)) as [->|Hne].
    + rewrite E. cbn. reflexivity.
    + destruct (store_get k (testRecords rp)); [reflexivity|].
      case_decide; [congruence | reflexivity].
  - rewrite store_get_set.
    destruct (decide (k = tc_title t)) as [->|Hne].
    + rewrite E. cbn. now rewrite decide_True.
    + destruct (store_get k (testRecords rp)); [reflexivity|].
      case_decide; [congruence | reflexivity].
Qed.

Lemma details_ingest evs rp k :
  test <$> store_get k (testRecords (ingest u evs rp)) =
  match store_get k (testRecords rp) with
  | Some r0 => Some (test r0)
  | None => testCaseDetails u <$> firstTestTitled k evs
  end.
Proof.
  revert rp. induction evs as [|e evs IH]; intros rp; cbn [ingest fold_left].
  - destruct (store_get k (testRecords rp)); reflexivity.
  - change (fold_left (deliver u) evs (deliver u rp e)) with (ingest u evs (deliver u rp e)).
    rewrite IH. destruct e as [t r|e]; cbn [deliver].
    + pose proof (details_onTestEnd t r rp k) as Hd.
      unfold firstTestTitled. cbn [flat_map].
      destruct (store_get k (testRecords (onTestEnd u t r rp))) as [r1|] eqn:E1;
        cbn [fmap option_fmap option_map] in Hd;
        destruct (store_get k (testRecords rp)) as [r0|] eqn:E0.
      * congruence.
      * case_decide; [|discriminate]. cbn. congruence.
      * discriminate.
      * case_decide; [discriminate|]. reflexivity.
    + reflexivity.
Qed.
End IngestOrder.

Section RunVerdict.
Context {W : Type} (h : Handler W) (clk : Clock W) (u : Helpers) (env : ProcessEnv).

Lemma onEnd_exit rp (s : Proc W) :
  result (onEnd h clk u env rp s) = Ok tt ->
  exitCode (final (onEnd h clk u env rp s)) =
  Some (if decide (pr_testCount (processTestResults u (testRecords rp)) = 0) then 1
        else if hasErrors rp (pr_failures (processTestResults u (testRecords rp)))
             then 1 else 0).
Proof.
  intros Hok. case_decide as E.
  - now destruct (onEnd_no_tests h clk u env rp s E) as (_ & -> & _).
  - pose proof (onEnd_shape h clk u env rp s E) as Hs.
    unfold wp, endShape in Hs. cbv zeta in Hs.
    destruct Hs as (endTime & [(e & w & w' & _ & Hr & _)
                              | (bi & s1 & s2 & [(e & w & w' & _ & Hr & _)
                                                | (s3 & s4 & s5 & _ & -> & _)])]);
      [congruence | congruence | reflexivity].
Qed.

Lemma hasErrors_flag rp fs : hasInterruptedTests rp = true -> hasErrors rp fs = true.
Proof. unfold hasErrors. intros ->. now rewrite orb_true_r. Qed.

Lemma hasErrors_nonTest rp fs : nonTestErrors rp <> [] -> hasErrors rp fs = true.
Proof.
  unfold hasErrors. destruct (nonTestErrors rp); [congruence|]. intros _.
  cbn. now rewrite orb_true_r.
Qed.

(** X1.  A run in which an attempt was interrupted, or in which an error was
    reported outside any test, signals failure when it completes, whatever
    the final results of the tests are (an interrupted test that passes on
    retry included) and whatever the collaborators do. *)
Theorem trouble_outside_results_fails_the_run cfg now dirs evs (s : Proc W) :
  let rp := ingest u evs (onBegin now dirs (newReporter cfg)) in
  let r := onEnd h clk u env rp s in
  (exists t res, In (TestEnd t res) evs /\ tr_status res = interrupted)
  \/ (exists e, In (SetupError e) evs) ->
  result r = Ok tt ->
  exitCode (final r) = Some 1.
Proof.
  intros rp r Hev Hok. subst r. rewrite (onEnd_exit rp s Hok).
  case_decide; [reflexivity|].
  replace (hasErrors rp _) with true; [reflexivity|]. symmetry.
  destruct Hev as [Hi|[e He]].
  - apply hasErrors_flag. apply interrupted_ingest. now right.
  - apply hasErrors_nonTest. unfold rp. rewrite nonTestErrors_ingest.
    cbn [onBegin newReporter nonTestErrors app].
    apply in_split in He as (l1 & l2 & ->).
    unfold setupErrors. rewrite flat_map_app. cbn [flat_map app].
    now destruct (flat_map _ l1).
Qed.
End RunVerdict.

Section IngestFacts.
Context (u : Helpers).

(** X2.  Every attempt that ends failed or timed out is handed to the file
    handler, in arrival order and once per attempt: the attempts of a test
    that passes on a later retry are among them. *)
Theorem failing_attempts_reach_the_file_handler cfg evs :
  addedFailures (ingest u evs (newReporter cfg)) = failingAttempts u evs
  /\ forall t r, In (TestEnd t r) evs -> isFailing (tr_status r) = true ->
       In (attemptFailure u t r) (addedFailures (ingest u evs (newReporter cfg))).
Proof.
  assert (E : addedFailures (ingest u evs (newReporter cfg)) = failingAttempts u evs)
    by now rewrite addedFailures_ingest.
  split; [exact E|]. intros t r Hin Hf. rewrite E.
  unfold failingAttempts. apply in_flat_map. exists (TestEnd t r).
  split; [exact Hin|]. rewrite Hf. now left.
Qed.

(** X3.  Records are kept in the order in which their titles first appear, and
    the details of a record are those of the first test delivered under its
    title: later tests with the same title add attempts but never replace
    the id, file, location or suite of the record. *)
Theorem records_follow_first_appearance cfg evs :
  let st := testRecords (ingest u evs (newReporter cfg)) in
  store_keys st = firstOccurrences [] (titlesOf evs)
  /\ forall k, test <$> store_get k st = testCaseDetails u <$> firstTestTitled k evs.
Proof.
  intros st. split.
  - unfold st. now rewrite store_keys_ingest.
  - intros k. unfold st. now rewrite details_ingest.
Qed.
End IngestFacts.

(** ** Strings *)

Lemma substring_length_le n m s : (String.length (String.substring n m s) <= m)%nat.
Proof.
  revert n m. induction s as [|c s IH]; intros [|n] [|m]; cbn; try lia.
  - specialize (IH 0%nat m). lia.
  - apply (IH n 0%nat).
  - apply (IH n (S m)).
Qed.

Lemma substring_chars (P : ascii -> Prop) n m s :
  Forall P (list_ascii_of_string s) ->
  Forall P (list_ascii_of_string (String.substring n m s)).
Proof.
  revert n m. induction s as [|c s IH]; intros [|n] [|m] H; cbn; try constructor;
    try (apply Forall_cons in H as [Hc Hs]); auto.
Qed.


Lemma mapChars_chars (P : ascii -> Prop) f s :
  (forall c, P (f c)) -> Forall P (list_ascii_of_string (mapChars f s)).
Proof. intros H. induction s; cbn; constructor; auto. Qed.


Lemma mapChars_length f s : String.length (mapChars f s) = String.length s.
Proof. induction s; cbn; congruence. Qed.

Lemma collapseSpaces_chars (P : ascii -> Prop) b s :
  P "-"%char -> Forall P (list_ascii_of_string s) ->
  Forall (fun c => P c /\ isSpace c = false) (list_ascii_of_string (collapseSpaces b s)).
Proof.
  intros Hd. revert b. induction s as [|c s IH]; intros b H; cbn; [constructor|].
  apply Forall_cons in H as [Hc Hs].
  destruct (isSpace c) eqn:E.
  - destruct b; [now apply IH|]. constructor; [split; [exact Hd | reflexivity]|].
    now apply IH.
  - constructor; [now split|]. now apply IH.
Qed.


Lemma collapseSpaces_length b s :
  (String.length (collapseSpaces b s) <= String.length s)%nat.
Proof.
  revert b. induction s as [|c s IH]; intros b; cbn; [lia|].
  destruct (isSpace c); [destruct b|]; cbn;
    [specialize (IH true) | specialize (IH true) | specialize (IH false)]; lia.
Qed.

(** X4.  A name produced by [sanitizeFilename] has at most 100 characters
    and holds none of the nine reserved characters and no ASCII white
    space, whatever the test id or title it is made from. *)
Theorem sanitizeFilename_is_safe filename :
  (String.length (sanitizeFilename filename) <= 100)%nat
  /\ Forall (fun c => isReserved c = false /\ isSpace c = false)
       (list_ascii_of_string (sanitizeFilename filename)).
Proof.
  unfold sanitizeFilename. split; [apply substring_length_le|].
  apply substring_chars. apply collapseSpaces_chars; [reflexivity|].
  apply mapChars_chars. intros c. destruct (isReserved c) eqn:E; [reflexivity | exact E].
Qed.


Lemma splitOn_nonempty sep s : splitOn sep s <> [].
Proof.
  destruct s as [|c s]; cbn; [discriminate|].
  case_decide; [discriminate|]. now destruct (splitOn sep s).
Qed.

Lemma append_cons c (a b : string) : String c a ++ b = String c (a ++ b).
Proof. reflexivity. Qed.

Lemma append_nil_l (b : string) : EmptyString ++ b = b.
Proof. reflexivity. Qed.

Lemma append_nil_r (s : string) : s ++ EmptyString = s.
Proof. induction s; rewrite ?append_cons, ?append_nil_l; congruence. Qed.

Lemma append_assoc (a b c : string) : (a ++ b) ++ c = a ++ (b ++ c).
Proof. induction a; rewrite ?append_cons, ?append_nil_l; congruence. Qed.

Lemma concat_cons2 sep (x y : string) l :
  String.concat sep (x :: y :: l) = x ++ sep ++ String.concat sep (y :: l).
Proof. reflexivity. Qed.

(** [split] followed by [join] with the same separator gives the string
    back. *)
Lemma join_splitOn sep s : join (String sep EmptyString) (splitOn sep s) = s.
Proof.
  unfold join. induction s as [|c s IH]; cbn [splitOn]; [reflexivity|].
  pose proof (splitOn_nonempty sep s) as Hne.
  case_decide as Hc.
  - subst c. destruct (splitOn sep s) as [|w ws]; [contradiction|].
    rewrite concat_cons2, append_nil_l, append_cons, append_nil_l. now rewrite IH.
  - destruct (splitOn sep s) as [|w ws]; [contradiction|].
    destruct ws as [|w' ws].
    + cbn [String.concat] in *. now rewrite IH.
    + rewrite concat_cons2 in *. rewrite append_cons. now rewrite IH.
Qed.

Lemma splitOn_elements sep s : Forall (freeOf sep) (splitOn sep s).
Proof.
  induction s as [|c s IH]; cbn [splitOn].
  - repeat constructor.
  - case_decide as Hc.
    + constructor; [constructor | exact IH].
    + destruct (splitOn sep s) as [|w ws]; [repeat constructor; auto|].
      apply Forall_cons in IH as [Hw Hws]. constructor; [|exact Hws].
      constructor; auto.
Qed.

Lemma splitOn_free sep x : freeOf sep x -> splitOn sep x = [x].
Proof.
  induction x as [|c x IH]; cbn [splitOn]; [reflexivity|]. intros H.
  apply Forall_cons in H as [Hc Hx]. rewrite decide_False by exact Hc.
  now rewrite IH.
Qed.

Lemma splitOn_free_app sep x rest :
  freeOf sep x ->
  splitOn sep (x ++ String sep rest) = x :: splitOn sep rest.
Proof.
  induction x as [|c x IH]; rewrite ?append_cons, ?append_nil_l; cbn [splitOn]; intros H.
  - now rewrite decide_True.
  - apply Forall_cons in H as [Hc Hx]. rewrite decide_False by exact Hc.
    now rewrite IH.
Qed.

(** [join] followed by [split] gives the lines back when no line holds the
    separator. *)
Lemma splitOn_join sep l :
  l <> [] -> Forall (freeOf sep) l ->
  splitOn sep (join (String sep EmptyString) l) = l.
Proof.
  unfold join. induction l as [|x l IH]; [congruence|]. intros _ H.
  apply Forall_cons in H as [Hx Hl].
  destruct l as [|y l].
  - cbn [String.concat]. now apply splitOn_free.
  - rewrite concat_cons2, append_cons, append_nil_l. rewrite splitOn_free_app by exact Hx.
    f_equal. apply IH; [discriminate | exact Hl].
Qed.

Lemma join_app sep l1 l2 :
  l1 <> [] -> l2 <> [] ->
  join sep (l1 ++ l2) = join sep l1 ++ sep ++ join sep l2.
Proof.
  unfold join. induction l1 as [|x l1 IH]; [congruence|]. intros _ H2.
  destruct l1 as [|y l1].
  - cbn [app]. destruct l2; [congruence | reflexivity].
  - change ((x :: y :: l1) ++ l2)%list with (x :: y :: (l1 ++ l2))%list.
    rewrite !concat_cons2.
    change (String.concat sep (y :: (l1 ++ l2)%list))
      with (String.concat sep ((y :: l1) ++ l2)%list).
    rewrite IH by (discriminate || exact H2).
    now rewrite !append_assoc.
Qed.

(** X6.  [truncateStackTrace] returns a stack of at most 15 lines
    unchanged; a longer one is cut to its first 15 lines followed by one
    marker line, so the result never has more than 16 lines. *)
Theorem truncateStackTrace_lines stack :
  let lines := splitOn (ascii_of_nat 10) stack in
  ((length lines <= 15)%nat -> truncateStackTrace stack = stack)
  /\ splitOn (ascii_of_nat 10) (truncateStackTrace stack) =
     (if (15 <? length lines)%nat then (take 15 lines ++ ["... (truncated)"])%list else lines)
  /\ (length (splitOn (ascii_of_nat 10) (truncateStackTrace stack)) <= 16)%nat.
Proof.
  intros lines.
  assert (Hshort : (length lines <= 15)%nat -> truncateStackTrace stack = stack).
  { intros Hn. unfold truncateStackTrace. case_decide as He; [now subst|].
    fold lines. rewrite take_ge by exact Hn.
    replace (15 <? length lines)%nat with false by (symmetry; apply Nat.ltb_ge; lia).
    rewrite append_nil_r. apply join_splitOn. }
  assert (Hlines : splitOn (ascii_of_nat 10) (truncateStackTrace stack) =
     (if (15 <? length lines)%nat then (take 15 lines ++ ["... (truncated)"])%list else lines)).
  { destruct (15 <? length lines)%nat eqn:E.
    - apply Nat.ltb_lt in E. unfold truncateStackTrace.
      case_decide as He; [unfold lines in E; rewrite He in E; cbn in E; lia|].
      fold lines. replace (15 <? length lines)%nat with true by (symmetry; apply Nat.ltb_lt; lia).
      assert (Ht : take 15 lines <> []).
      { pose proof (splitOn_nonempty (ascii_of_nat 10) stack) as Hne. fold lines in Hne.
        destruct lines; [congruence | discriminate]. }
      change (join newline (take 15 lines) ++ newline ++ "... (truncated)")
        with (join newline (take 15 lines) ++ newline ++ join newline ["... (truncated)"]).
      rewrite <- join_app by (exact Ht || discriminate).
      apply splitOn_join.
      + now destruct (take 15 lines).
      + apply Forall_app. split.
        * apply Forall_take. apply splitOn_elements.
        * repeat constructor; discriminate.
    - apply Nat.ltb_ge in E. now rewrite Hshort. }
  split; [exact Hshort|]. split; [exact Hlines|].
  rewrite Hlines. destruct (15 <? length lines)%nat eqn:E.
  - rewrite length_app, length_take. cbn [length]. lia.
  - apply Nat.ltb_ge in E. lia.
Qed.

Lemma sanitize_char c :
  isBranchChar (lowerChar (if isAlnum c then c else "-"%char)) = true.
Proof. destruct c as [[] [] [] [] [] [] [] []]; vm_compute; reflexivity. Qed.

(** X7.  The title part of a branch name has as many characters as the
    test title and consists of lower-case letters, digits and dashes only;
    sanitising it again changes nothing. *)
Theorem sanitizeTitle_charset title :
  String.length (sanitizeTitle title) = String.length title
  /\ Forall (fun c => isBranchChar c = true) (list_ascii_of_string (sanitizeTitle title))
  /\ sanitizeTitle (sanitizeTitle title) = sanitizeTitle title.
Proof.
  unfold sanitizeTitle, toLowerCase. split; [now rewrite !mapChars_length|].
  assert (H : Forall (fun c => isBranchChar c = true)
                (list_ascii_of_string
                   (mapChars lowerChar
                      (mapChars (fun c => if isAlnum c then c else "-"%char) title)))).
  { induction title as [|c s IH]; cbn [mapChars list_ascii_of_string]; constructor.
    - apply sanitize_char.
    - exact IH. }
  split; [exact H|].
  set (t := mapChars lowerChar _) in *. clearbody t.
  induction t as [|c s IH]; cbn [mapChars list_ascii_of_string] in *; [reflexivity|].
  apply Forall_cons in H as [Hc Hs]. rewrite IH by exact Hs. f_equal.
  revert Hc. clear. destruct c as [[] [] [] [] [] [] [] []]; vm_compute; congruence.
Qed.

Lemma splitOn_length sep s : length (splitOn sep s) = S (countChar sep s).
Proof.
  induction s as [|c s IH]; cbn [splitOn countChar]; [reflexivity|].
  case_decide; cbn [length Nat.add]; [now rewrite IH|].
  destruct (splitOn sep s); cbn [length] in *; [discriminate | exact IH].
Qed.

Lemma trimStart_head s :
  match trimStart s with
  | String c _ => isSpace c = false
  | EmptyString => True
  end.
Proof.
  induction s as [|c s IH]; cbn [trimStart]; [exact I|].
  destruct (isSpace c) eqn:E; [exact IH | exact E].
Qed.

Lemma trimEnd_nonempty c s : isSpace c = false -> trimEnd (String c s) <> EmptyString.
Proof. intros E. cbn [trimEnd]. destruct (trimEnd s); [now rewrite E | discriminate]. Qed.

Lemma trimEnd_idem s : trimEnd (trimEnd s) = trimEnd s.
Proof.
  induction s as [|c s IH]; cbn [trimEnd]; [reflexivity|].
  destruct (trimEnd s) as [|c' t] eqn:E.
  - destruct (isSpace c) eqn:Ec; cbn [trimEnd]; [reflexivity | now rewrite Ec].
  - cbn [trimEnd]. cbn [trimEnd] in IH.
    destruct (trimEnd t) as [|c'' t'] eqn:Et.
    + destruct (isSpace c') eqn:Ec'; [discriminate | congruence].
    + congruence.
Qed.

Lemma trimEnd_head c s :
  isSpace c = false -> exists t, trimEnd (String c s) = String c t.
Proof.
  intros E. cbn [trimEnd]. destruct (trimEnd s); [rewrite E|]; eauto.
Qed.

(** [trim] leaves a trimmed string alone. *)
Lemma trim_idem s : trim (trim s) = trim s.
Proof.
  unfold trim. pose proof (trimStart_head s) as Hh.
  destruct (trimStart s) as [|c t] eqn:E; [reflexivity|].
  destruct (trimEnd_head c t Hh) as [t' Ht]. rewrite Ht.
  cbn [trimStart]. rewrite Hh. rewrite <- Ht. apply trimEnd_idem.
Qed.

(** X8.  When [EMAIL_RECIPIENTS] is set, also to the empty string, the
    recipient list is never empty: it has one entry more than the value has
    commas, and every entry is trimmed.  The list is empty only when the
    variable is unset. *)
Theorem recipients_of_a_set_variable env s :
  EMAIL_RECIPIENTS env = Some s ->
  recipientsOf env <> []
  /\ length (recipientsOf env) = S (countChar ","%char s)
  /\ Forall (fun r => trim r = r) (recipientsOf env).
Proof.
  intros E. unfold recipientsOf. rewrite E. split; [|split].
  - pose proof (splitOn_nonempty ","%char s). now destruct (splitOn _ s).
  - rewrite length_map. apply splitOn_length.
  - apply Forall_map. apply Forall_forall. intros r _. apply trim_idem.
Qed.

(** X9.  The slowest-test figure of the summary, the maximum of the passed
    durations and zero, is never negative, is at least every passed
    duration, and is zero or one of the durations. *)
Theorem maxDuration_is_the_maximum ds :
  (0 <= maxDuration ds)%Q
  /\ Forall (fun d => (d <= maxDuration ds)%Q) ds
  /\ (maxDuration ds = 0%Q \/ In (maxDuration ds) ds).
Proof.
  induction ds as [|d ds (H0 & Hall & Hin)]; cbn [maxDuration fold_right].
  - split; [apply Qle_refl|]. split; [constructor | now left].
  - fold (maxDuration ds).
    destruct (Qle_bool (maxDuration ds) d) eqn:E.
    + apply Qle_bool_iff in E. split; [eapply Qle_trans; eauto|].
      split; [|right; now left].
      constructor; [apply Qle_refl|].
      eapply Forall_impl; [exact Hall|]. intros x Hx. cbn beta in *.
      eapply Qle_trans; eauto.
    + assert (Hlt : (d <= maxDuration ds)%Q).
      { apply Qlt_le_weak. apply Qnot_le_lt. intros Hle.
        apply Qle_bool_iff in Hle. congruence. }
      split; [exact H0|]. split; [constructor; auto|].
      destruct Hin as [Hz|Hin]; [now left | right; now right].
Qed.

(** ** The channels, request by request *)

Section Requests.
Context {W : Type} (h : Handler W) (clk : Clock W) (u : Helpers) (env : ProcessEnv).


Lemma explain_logs ch needles e (s : Proc W) :
  Forall (fun e => ~ isRequest e) (trace (explain ch needles e s)).
Proof.
  change (wp (explain ch needles e) (fun _ _ t => Forall (fun e => ~ isRequest e) t) s).
  unfold explain. wp_steps;
    repeat first [apply Forall_nil | apply Forall_app; split | apply Forall_cons; split];
    try exact I; exact id.
Qed.

Lemma bugRequests_logs t : Forall (fun e => ~ isRequest e) t -> bugRequests t = [].
Proof.
  induction 1 as [|[c [m|R q]] l Hx Hl IH]; [reflexivity| |].
  - exact IH.
  - exfalso. apply Hx. exact I.
Qed.

Lemma forEach_requests {A B} (proj : list Event -> list B) (g : A -> list B)
    (l : list A) (body : A -> M W unit) (s : Proc W) :
  proj [] = [] ->
  (forall t1 t2, proj (t1 ++ t2)%list = (proj t1 ++ proj t2)%list) ->
  (forall x s0, result (body x s0) = Ok tt /\ proj (trace (body x s0)) = g x) ->
  result (forEach l body s) = Ok tt
  /\ proj (trace (forEach l body s)) = flat_map g l.
Proof.
  intros Hnil Happ Hb. revert s. induction l as [|x l IH]; intros s.
  - split; [reflexivity | exact Hnil].
  - cbn [forEach flat_map]. unfold bind. destruct (Hb x s) as [Hr Hp]. rewrite Hr.
    cbn [result trace]. destruct (IH (final (body x s))) as [Hr' Hp'].
    split; [exact Hr'|]. now rewrite Happ, Hp, Hp'.
Qed.

Lemma bugRequests_app t1 t2 :
  bugRequests (t1 ++ t2) = (bugRequests t1 ++ bugRequests t2)%list.
Proof. apply flat_map_app. Qed.

Lemma bugOne_requests f (s : Proc W) :
  result (bugOne h u f s) = Ok tt
  /\ bugRequests (trace (bugOne h u f s)) = [bugDetailsOf u f].
Proof.
  change (wp (bugOne h u f)
            (fun r _ t => r = Ok tt /\ bugRequests t = [bugDetailsOf u f]) s).
  unfold bugOne. wp_steps; (split; [try destruct a; reflexivity|]);
    rewrite ?bugRequests_app; reflexivity.
Qed.

(** X11.  Once the bug tracker is resolved, [_createBugsForFailures] asks
    for exactly one bug per failure, in the order of the failures list and
    with the payload built from that failure, whatever the earlier requests
    answered or threw; when the tracker cannot be resolved it asks for
    none. *)
Theorem one_bug_request_per_failure fs (s : Proc W) :
  bugRequests (trace (_createBugsForFailures h u fs s)) =
  match fst (h _ GetBugTrackerProvider (world s)) with
  | Ok _ => map (bugDetailsOf u) fs
  | Throw _ => []
  end.
Proof.
  change (wp (_createBugsForFailures h u fs)
            (fun _ _ t => bugRequests t =
               match fst (h _ GetBugTrackerProvider (world s)) with
               | Ok _ => map (bugDetailsOf u) fs
               | Throw _ => []
               end) s).
  unfold _createBugsForFailures. wp_step. wp_step. wp_step. wp_step.
  apply wp_call. intros r w E. cbn [world] in E. rewrite E. cbn [fst].
  destruct r as [[]|e]; cbn beta iota.
  - wp_step. unfold wp at 1.
    match goal with |- context [forEach fs (bugOne h u) ?s0] =>
      destruct (forEach_requests bugRequests (fun f => [bugDetailsOf u f]) fs
                  (bugOne h u) s0 eq_refl bugRequests_app bugOne_requests)
        as (Hr & Hp)
    end.
    rewrite Hr. cbn beta iota. wp_step.
    rewrite !bugRequests_app, Hp. cbn [bugRequests flat_map ev_action app].
    rewrite app_nil_r. clear. induction fs; cbn; congruence.
  - unfold wp. rewrite !bugRequests_app.
    rewrite (bugRequests_logs _ (explain_logs _ _ _ _)). reflexivity.
Qed.
End Requests.

Section PRSteps.
Context {W : Type} (h : Handler W) (clk : Clock W) (u : Helpers) (env : ProcessEnv).

Lemma explain_logs_wp ch needles e (s : Proc W) :
  wp (explain ch needles e) (fun _ _ t => Forall (fun e => ~ isRequest e) t) s.
Proof. apply explain_logs. Qed.

Lemma truthy_Some o : truthy o = true -> exists s, o = Some s /\ s <> EmptyString.
Proof.
  destruct o as [s|]; [|discriminate]. cbn. case_decide; [discriminate|]. eauto.
Qed.

(** X12.  Pull-request automation goes step by step: it asks for a commit
    only on the branch whose creation was answered with [true], and for a
    pull request only from a branch on which the commit was answered with
    a non-empty hash.  A refused branch or a failed commit ends the
    automation for that failure. *)
Theorem pull_request_steps_are_justified f r (s : Proc W) :
  Forall (prStepJustified h) (trace (_generatePullRequest h clk u env f r s)).
Proof.
  change (wp (_generatePullRequest h clk u env f r)
            (fun _ _ t => Forall (prStepJustified h) t) s).
  assert (Hx : forall needles e s0,
             wp (explain (W:=W) pra needles e)
                (fun _ _ t => Forall (prStepJustified h) t) s0).
  { intros needles e s0. eapply wp_mono; [apply explain_logs_wp|].
    intros r0 s1 t Ht. eapply Forall_impl; [exact Ht|].
    intros [c [m|R q]] Hq; [exact I | exfalso; apply Hq; exact I]. }
  unfold _generatePullRequest. wp_steps.
  all: try (eapply wp_mono; [apply Hx|]; intros ? ? ? Hxe; cbn beta).
  all: repeat match goal with
       | E : negb ?b = false |- _ => apply negb_false_iff in E
       | E : truthy _ = true |- _ => apply truthy_Some in E as (? & -> & ?)
       end; subst.
  all: repeat first [apply Forall_nil | apply Forall_app; split | apply Forall_cons; split
                    | exact Hxe];
    try exact I; unfold prStepJustified; cbn [ev_action sourceBranch targetBranch prOptionsOf];
    eauto 12.
Qed.
End PRSteps.

Section Gating.
Context {W : Type} (h : Handler W) (clk : Clock W) (u : Helpers) (env : ProcessEnv).

Lemma nested_channels rp t :
  nestedSegment rp t ->
  Forall (fun e => ev_channel e = fx
                   \/ (ev_channel e = pra /\ generatePR (config rp) = true)) t.
Proof.
  intros (t1 & t2 & -> & H1 & H2 & H3). apply Forall_app. split.
  - eapply Forall_impl; [exact H1|]. intros e [He|[]]. now left.
  - destruct t2 as [|e2 t2]; [constructor|].
    destruct H3 as [Hpr _]; [discriminate|].
    eapply Forall_impl; [exact H2|]. intros e [He|[]]. right. now split.
Qed.

Lemma fixSuggestions_channels rp fs (s : Proc W) :
  Forall (fun e => ev_channel e = fx
                   \/ (ev_channel e = pra /\ generatePR (config rp) = true))
    (trace (_generateFixSuggestions h clk u env rp fs s)).
Proof.
  change (wp (_generateFixSuggestions h clk u env rp fs)
            (fun _ _ t => Forall (fun e => ev_channel e = fx
                   \/ (ev_channel e = pra /\ generatePR (config rp) = true)) t) s).
  unfold _generateFixSuggestions. wp_step. wp_step. wp_step. wp_step. wp_step.
  unfold wp at 1.
  match goal with |- context [forEach fs _ ?s0] =>
    pose proof (forEach_forall
                  (fun e => ev_channel e = fx
                            \/ (ev_channel e = pra /\ generatePR (config rp) = true))
                  fs (fixOne h clk u env rp) s0
                  (fun x s1 => nested_channels rp _ (fixOne_nested h clk u env rp x s1))) as Hl;
    rewrite (proj1 (forEach_trace fs (fixOne h clk u env rp) s0
                      (fixOne_result h clk u env rp)))
  end.
  cbn beta iota. wp_step.
  repeat first [apply Forall_nil | apply Forall_app; split | apply Forall_cons; split
               | exact Hl]; try exact I; now left.
Qed.

Lemma publish_unconfigured sm cases fs (s : Proc W) :
  truthy (DATABASE_PROVIDER env) = false ->
  Forall (fun e => ~ isRequest e) (trace (_publishToDatabase h clk u env sm cases fs s)).
Proof.
  intros Hv. unfold _publishToDatabase. rewrite Hv. cbn [negb].
  change (wp (log db LBanner;;
              go_on <- try_catch (log db LNotConfigured;; ret false)
                         (fun e => explain db ["Database provider configuration not found";
                                               "Database configuration not found"] e;;
                                   ret true);;
              when go_on (log db LDone))%eff
            (fun _ _ t => Forall (fun e => ~ isRequest e) t) s).
  wp_steps;
    repeat first [apply Forall_nil | apply Forall_app; split | apply Forall_cons; split];
    try exact I; exact id.
Qed.

Lemma sendEmail_unconfigured sm fs (s : Proc W) :
  truthy (NOTIFICATION_PROVIDER env) = false ->
  Forall (fun e => ~ isRequest e) (trace (_sendEmailNotification h env sm fs s)).
Proof.
  intros Hv. unfold _sendEmailNotification. rewrite Hv. cbn [negb].
  change (wp (log mail LBanner;;
              go_on <- try_catch (log mail LNotConfigured;; ret false)
                         (fun e => explain mail ["Notification provider configuration not found"] e;;
                                   ret true);;
              when go_on (log mail LDone))%eff
            (fun _ _ t => Forall (fun e => ~ isRequest e) t) s).
  wp_steps;
    repeat first [apply Forall_nil | apply Forall_app; split | apply Forall_cons; split];
    try exact I; exact id.
Qed.

(** X13.  A channel acts only when it is enabled: every event of the fix,
    pull-request or bug channel presupposes its toggle (for pull requests
    also the fix toggle) and a non-empty failures list, every event of the
    database or notification channel its toggle; and the database and
    notification channels send a request only when their provider variable
    is set to a non-empty value. *)
Theorem channels_act_only_when_enabled rp (s : Proc W) :
  let fs := pr_failures (processTestResults u (testRecords rp)) in
  Forall (fun e => forall c, ev_channel e = Some c ->
            enabled rp fs c = true
            /\ (isRequest e -> forall v, providerVariable env c = Some v -> truthy v = true))
    (trace (onEnd h clk u env rp s)).
Proof.
  intros fs.
  apply onEnd_trace_forall; fold fs; try (intros; discriminate).
  - intros s1. unfold fixStage.
    destruct (generateFix (config rp) && nonEmpty fs) eqn:E; [|constructor].
    cbn [when]. eapply Forall_impl; [apply fixSuggestions_channels|].
    intros e [He|[He Hpr]] c Hc; rewrite He in Hc; injection Hc as <-;
      cbn [enabled providerVariable]; rewrite ?E, ?Hpr; split; try reflexivity;
      intros _ v Hv; discriminate.
  - intros s2. unfold bugStage.
    destruct (createBug (config rp) && nonEmpty fs) eqn:E; [|constructor].
    cbn [when]. eapply Forall_impl.
    + apply (absorbed_trace _ [bug]), createBugs_absorbed. now left.
    + intros e [He|[]] c Hc. rewrite <- He in Hc. injection Hc as <-.
      cbn [enabled providerVariable]. split; [exact E|]. intros _ v Hv; discriminate.
  - intros ttd bi. unfold reports.
    destruct (nonEmpty (nonTestErrors rp)), (nonEmpty _); repeat constructor;
      intros; discriminate.
  - intros sm s3. unfold dbStage.
    destruct (publishToDB (config rp)) eqn:E; [|constructor].
    cbn [when].
    assert (Hw : Forall (within [db])
                   (trace (_publishToDatabase h clk u env sm (allTestCasesOf rp) fs s3)))
      by (apply (absorbed_trace _ [db]), publish_absorbed; now left).
    destruct (truthy (DATABASE_PROVIDER env)) eqn:Ev.
    + eapply Forall_impl; [exact Hw|]. intros e [He|[]] c Hc.
      rewrite <- He in Hc. injection Hc as <-. cbn [enabled providerVariable].
      split; [exact E|]. intros _ v Hv. injection Hv as <-. exact Ev.
    + pose proof (publish_unconfigured sm (allTestCasesOf rp) fs s3 Ev) as Hq.
      revert Hw Hq. generalize (trace (_publishToDatabase h clk u env sm (allTestCasesOf rp) fs s3)).
      induction 1 as [|e t He Ht IH]; [constructor|]. intros Hq.
      apply Forall_cons in Hq as [Hq1 Hq2]. constructor; [|now apply IH].
      intros c Hc. destruct He as [He|[]]. rewrite <- He in Hc. injection Hc as <-.
      cbn [enabled]. split; [exact E|]. intros Hr. contradiction.
  - intros sm s4. unfold mailStage.
    destruct (sendEmail (config rp)) eqn:E; [|constructor].
    cbn [when].
    assert (Hw : Forall (within [mail]) (trace (_sendEmailNotification h env sm fs s4)))
      by (apply (absorbed_trace _ [mail]), sendEmail_absorbed; now left).
    destruct (truthy (NOTIFICATION_PROVIDER env)) eqn:Ev.
    + eapply Forall_impl; [exact Hw|]. intros e [He|[]] c Hc.
      rewrite <- He in Hc. injection Hc as <-. cbn [enabled providerVariable].
      split; [exact E|]. intros _ v Hv. injection Hv as <-. exact Ev.
    + pose proof (sendEmail_unconfigured sm fs s4 Ev) as Hq.
      revert Hw Hq. generalize (trace (_sendEmailNotification h env sm fs s4)).
      induction 1 as [|e t He Ht IH]; [constructor|]. intros Hq.
      apply Forall_cons in Hq as [Hq1 Hq2]. constructor; [|now apply IH].
      intros c Hc. destruct He as [He|[]]. rewrite <- He in Hc. injection Hc as <-.
      cbn [enabled]. split; [exact E|]. intros Hr. contradiction.
  - intros s5. eapply Forall_impl.
    + apply (absorbed_trace _ [None]), saveLastRun_absorbed. now left.
    + intros e [He|[]] c Hc. congruence.
Qed.
End Gating.


Section Crash.
Context {W : Type} (h : Handler W) (clk : Clock W) (u : Helpers) (env : ProcessEnv).

End Crash.

Section Rows.
Context {W : Type} (h : Handler W) (clk : Clock W) (u : Helpers) (env : ProcessEnv).

Lemma savedRows_app t1 t2 : savedRows (t1 ++ t2) = (savedRows t1 ++ savedRows t2)%list.
Proof. apply flat_map_app. Qed.

Lemma savedRuns_app t1 t2 : savedRuns (t1 ++ t2) = (savedRuns t1 ++ savedRuns t2)%list.
Proof. apply flat_map_app. Qed.

Lemma savedRows_logs t : Forall (fun e => ~ isRequest e) t -> savedRows t = [].
Proof.
  induction 1 as [|[c [m|R q]] l Hx Hl IH]; [reflexivity| |].
  - exact IH.
  - exfalso. apply Hx. exact I.
Qed.

Lemma savedRuns_logs t : Forall (fun e => ~ isRequest e) t -> savedRuns t = [].
Proof.
  induction 1 as [|[c [m|R q]] l Hx Hl IH]; [reflexivity| |].
  - exact IH.
  - exfalso. apply Hx. exact I.
Qed.

Lemma explain_says ch needles e (s : Proc W) :
  Forall (fun e => exists m, e = logEv ch m
                             /\ match m with
                                | LChannelError _ | LErrorMessage _ | LConfigHint => True
                                | _ => False
                                end)
    (trace (explain ch needles e s)).
Proof.
  change (wp (explain ch needles e)
            (fun _ _ t => Forall (fun e => exists m, e = logEv ch m
                             /\ match m with
                                | LChannelError _ | LErrorMessage _ | LConfigHint => True
                                | _ => False
                                end) t) s).
  unfold explain. wp_steps;
    repeat first [apply Forall_nil | apply Forall_app; split | apply Forall_cons; split];
    try exact I; eexists; (split; [reflexivity | exact I]).
Qed.

Lemma saveOne_row id fs tc (s : Proc W) :
  rowStep id fs tc (trace (saveOne h clk id fs tc s)).
Proof.
  change (wp (saveOne h clk id fs tc) (fun _ _ t => rowStep id fs tc t) s).
  unfold saveOne, rowStep. wp_steps.
  all: split; [eexists; split; [reflexivity|]; unfold rowFor; cbn;
               repeat split; try reflexivity; intros; congruence|].
  all: split; [reflexivity|]; cbn; intuition discriminate.
Qed.

Lemma rows_loop id fs cases (s : Proc W) :
  exists n, (n <= length cases)%nat
    /\ Forall2 (rowFor id fs) (take n cases)
         (savedRows (trace (forEach cases (saveOne h clk id fs) s)))
    /\ savedRuns (trace (forEach cases (saveOne h clk id fs) s)) = []
    /\ ~ In (logEv db LDBResultsSaved) (trace (forEach cases (saveOne h clk id fs) s))
    /\ (result (forEach cases (saveOne h clk id fs) s) = Ok tt -> n = length cases).
Proof.
  revert s. induction cases as [|tc cases IH]; intros s.
  - exists 0%nat. cbn. repeat split; auto.
  - cbn [forEach]. unfold bind.
    destruct (saveOne_row id fs tc s) as ((row & Hrow & Hfor) & Hruns & Hlog).
    destruct (result (saveOne h clk id fs tc s)) as [[]|e]; cbn [result trace].
    + destruct (IH (final (saveOne h clk id fs tc s))) as (n & Hn & Hrows & Hruns' & Hlog' & Hall).
      exists (S n). split; [cbn; lia|].
      rewrite savedRows_app, savedRuns_app, Hrow, Hruns, Hruns'.
      split; [cbn; constructor; assumption|]. split; [reflexivity|].
      split; [rewrite in_app_iff; tauto|]. intros Hok. cbn. f_equal. auto.
    + exists 1%nat. split; [cbn; lia|]. rewrite Hrow, Hruns.
      split; [cbn; rewrite take_0; constructor; [assumption | constructor]|].
      split; [reflexivity|]. split; [exact Hlog|]. discriminate.
Qed.
End Rows.

Section Publish.
Context {W : Type} (h : Handler W) (clk : Clock W) (u : Helpers) (env : ProcessEnv).

Lemma explain_db_quiet needles e (s : Proc W) :
  wp (explain db needles e)
     (fun r _ t => r = Ok tt /\ savedRows t = [] /\ savedRuns t = []
                   /\ ~ In (logEv db LDBResultsSaved) t) s.
Proof.
  unfold explain. wp_steps; (split; [reflexivity|]); cbn; intuition discriminate.
Qed.

(** X15.  [_publishToDatabase] saves at most one run; the rows it asks to
    save are those of a prefix of the test cases, in order, each carrying
    the id that [saveTestRun] answered and the error of the first failure
    with the same title; and the line that reports the results as saved is
    logged only after a row was requested for every test case. *)
Theorem rows_follow_the_saved_run sm cases fs (s : Proc W) :
  let t := trace (_publishToDatabase h clk u env sm cases fs s) in
  (length (savedRuns t) <= 1)%nat
  /\ exists n id,
       (n <= length cases)%nat
       /\ Forall2 (rowFor id fs) (take n cases) (savedRows t)
       /\ (savedRows t <> [] ->
           exists run w w', savedRuns t = [run] /\ h _ (SaveTestRun run) w = (Ok id, w'))
       /\ (In (logEv db LDBResultsSaved) t -> n = length cases).
Proof.
  set (Q := fun t : list Event =>
    (length (savedRuns t) <= 1)%nat
    /\ exists n id,
         (n <= length cases)%nat
         /\ Forall2 (rowFor id fs) (take n cases) (savedRows t)
         /\ (savedRows t <> [] ->
             exists run w w', savedRuns t = [run] /\ h _ (SaveTestRun run) w = (Ok id, w'))
         /\ (In (logEv db LDBResultsSaved) t -> n = length cases)).
  change (wp (_publishToDatabase h clk u env sm cases fs) (fun _ _ t => Q t) s).
  assert (Hnone : forall t, savedRows t = [] -> (length (savedRuns t) <= 1)%nat ->
                    ~ In (logEv db LDBResultsSaved) t -> Q t).
  { intros t Hr Hl Hn. split; [exact Hl|]. exists 0%nat, EmptyString.
    rewrite Hr, take_0. repeat split; [lia | constructor | congruence | tauto]. }
  unfold _publishToDatabase.
  wp_step. wp_step. wp_step. wp_step.
  destruct (negb (truthy (DATABASE_PROVIDER env))).
  { wp_steps; (apply Hnone; cbn; [reflexivity | lia | intuition discriminate]). }
  wp_step. wp_step.
  2:{ wp_step. eapply wp_mono; [apply explain_db_quiet|].
      intros r0 s0 t0 (-> & H1 & H2 & H3). cbn beta iota. wp_steps.
      all: apply Hnone; rewrite ?savedRows_app, ?savedRuns_app, ?H1, ?H2; cbn;
        rewrite ?in_app_iff; cbn; try reflexivity; try lia; intuition discriminate. }
  wp_step. wp_step. wp_step. wp_step.
  2:{ wp_step. eapply wp_mono; [apply explain_db_quiet|].
      intros r0 s0 t0 (-> & H1 & H2 & H3). cbn beta iota. wp_steps.
      all: apply Hnone; rewrite ?savedRows_app, ?savedRuns_app, ?H1, ?H2; cbn;
        rewrite ?in_app_iff; cbn; try reflexivity; try lia; intuition discriminate. }
  wp_step. wp_step. wp_step. wp_step. wp_step. wp_step. wp_step. wp_step. wp_step.
  apply wp_call. intros [id|e] wr Erun; cbn beta iota.
  2:{ wp_step. eapply wp_mono; [apply explain_db_quiet|].
      intros r0 s0 t0 (-> & H1 & H2 & H3). cbn beta iota. wp_steps.
      all: apply Hnone; rewrite ?savedRows_app, ?savedRuns_app, ?H1, ?H2; cbn;
        rewrite ?in_app_iff; cbn; try reflexivity; try lia; intuition discriminate. }
  wp_step. wp_step. wp_step. wp_step. wp_step.
  unfold wp at 1.
  match goal with |- context [forEach cases _ ?s0] =>
    generalize s0; intros sl;
    destruct (rows_loop h clk id fs cases sl) as (n & Hn & Hrows & Hruns & Hlog & Hall);
    destruct (result (forEach cases (saveOne h clk id fs) sl)) as [[]|e] eqn:Eres
  end; cbn beta iota.
  - specialize (Hall eq_refl). subst n. wp_steps.
    all: split;
      [ rewrite ?savedRuns_app, ?Hruns; cbn; lia
      | exists (length cases), id; split; [lia|];
        rewrite ?savedRows_app, ?savedRuns_app, ?Hruns; cbn [savedRows savedRuns flat_map ev_action app];
        rewrite ?app_nil_r; split; [exact Hrows|]; split; [eauto | reflexivity] ].
  - wp_step. eapply wp_mono; [apply explain_db_quiet|].
    intros r0 s0 t0 (-> & H1 & H2 & H3). cbn beta iota. wp_steps.
    all: split;
      [ rewrite ?savedRuns_app, ?Hruns, ?H2; cbn; lia
      | exists n, id; split; [exact Hn|];
        rewrite ?savedRows_app, ?savedRuns_app, ?Hruns, ?H1, ?H2;
        cbn [savedRows savedRuns flat_map ev_action app];
        rewrite ?app_nil_r; split; [exact Hrows|]; split; [eauto|];
        repeat first [rewrite in_app_iff | progress cbn [In]];
        intuition discriminate ].
Qed.
End Publish.

Section FixFiles.
Context {W : Type} (h : Handler W) (clk : Clock W) (u : Helpers) (env : ProcessEnv).

Lemma sourceReads_app p t1 t2 :
  sourceReads p (t1 ++ t2) = (sourceReads p t1 + sourceReads p t2)%nat.
Proof. unfold sourceReads. now rewrite List.filter_app, length_app. Qed.

Lemma sourceReads_none p cs t :
  ~ In fx cs -> Forall (within cs) t -> sourceReads p t = 0%nat.
Proof.
  intros Hn. induction 1 as [|e t He Ht IH]; [reflexivity|].
  unfold sourceReads in *. cbn [List.filter].
  replace (isSourceRead p e) with false; [exact IH|].
  unfold isSourceRead. destruct e as [[[]|] a]; try reflexivity.
  exfalso. apply Hn. exact He.
Qed.

(** [callGenAISuggestion] returns a text, leaves the cache alone and reads
    no source file. *)
Lemma callGenAI_frame p prompt (s : Proc W) :
  wp (callGenAISuggestion h prompt)
     (fun r s' t => (exists text, r = Ok text)
                    /\ sourceCodeCache s' = sourceCodeCache s
                    /\ sourceReads p t = 0%nat) s.
Proof.
  unfold callGenAISuggestion. wp_steps; (split; [eauto|]); split; reflexivity.
Qed.

(** X16.  [generateFixSuggestion] never throws.  Without a test file it
    answers nothing and sends no request.  When it answers a result, the
    prompt and the suggestion have both been written, to two paths under
    [test-results] that carry the same sanitised name, and the prompt was
    built from the source the cache now holds for the test file. *)
Theorem a_fix_result_means_both_files_were_written f (s : Proc W) :
  let r := generateFixSuggestion h env f s in
  exists o, result r = Ok o
    /\ (knownFile f = None -> o = None /\ Forall (fun e => ~ isRequest e) (trace r))
    /\ forall fr, o = Some fr ->
         exists file src text,
           knownFile f = Some file
           /\ fr = fixResultOf env f file
           /\ sourceCodeCache (final r) !! file = Some src
           /\ In (callEv fx (WriteFileSync (promptPath fr) (promptContentOf f file src)))
                (trace r)
           /\ In (callEv fx (WriteFileSync (fixPath fr) text)) (trace r).
Proof.
  cbv zeta.
  change (wp (generateFixSuggestion h env f)
            (fun r s' t => exists o, r = Ok o
    /\ (knownFile f = None -> o = None /\ Forall (fun e => ~ isRequest e) t)
    /\ forall fr, o = Some fr ->
         exists file src text,
           knownFile f = Some file
           /\ fr = fixResultOf env f file
           /\ sourceCodeCache s' !! file = Some src
           /\ In (callEv fx (WriteFileSync (promptPath fr) (promptContentOf f file src))) t
           /\ In (callEv fx (WriteFileSync (fixPath fr) text)) t) s).
  unfold generateFixSuggestion. destruct (knownFile f) as [file|] eqn:Ek.
  2:{ wp_steps. exists None. split; [reflexivity|]. split; [|discriminate].
      intros _. split; [reflexivity|]. repeat constructor; exact id. }
  assert (Hno : forall (s' : Proc W) t, exists o : option FixResult, Ok None = Ok o
    /\ (Some file = None -> o = None /\ Forall (fun e => ~ isRequest e) t)
    /\ forall fr, o = Some fr ->
         exists file0 src text,
           Some file = Some file0
           /\ fr = fixResultOf env f file0
           /\ sourceCodeCache s' !! file0 = Some src
           /\ In (callEv fx (WriteFileSync (promptPath fr) (promptContentOf f file0 src))) t
           /\ In (callEv fx (WriteFileSync (fixPath fr) text)) t).
  { intros s' t. exists None. repeat split; discriminate. }
  wp_steps; try apply Hno.
  all: eapply wp_mono; [apply (callGenAI_frame file)|];
    intros r0 s0 t0 ([text ->] & Hc & _); cbn beta iota; wp_steps; try apply Hno.
  all: cbn [sourceCodeCache] in *.
  all: try (apply truthy_Some in Eif as (src0 & E0 & _); rewrite ?E0 in *;
            cbn [from_option id] in *).
  all: eexists; split; [reflexivity|]; split; [discriminate|];
    intros fr Hfr; injection Hfr as <-; exists file; eexists _, text;
    split; [reflexivity|]; split; [reflexivity|].
  all: cbn [promptPath fixPath]; rewrite Hc.
  all: split; [|split; repeat first [rewrite in_app_iff | progress cbn [In]]; eauto 20].
  - exact E0.
  - apply lookup_insert_eq.
Qed.
End FixFiles.

Section SourceCache.
Context {W : Type} (h : Handler W) (clk : Clock W) (u : Helpers) (env : ProcessEnv).
Context (rp : Reporter) (p : string).

Ltac reads_count :=
  rewrite ?sourceReads_app;
  unfold sourceReads;
  cbn [List.filter isSourceRead ev_channel ev_action length app Nat.add fx pra].

Lemma explain_framed ch needles e (s : Proc W) :
  wp (explain ch needles e) (framed p s) s.
Proof.
  unfold explain, framed. wp_steps; (split; [eauto|]); split; try reflexivity;
    reads_count; destruct ch as [[]|]; reflexivity.
Qed.

Lemma generatePR_framed f r (s : Proc W) :
  wp (_generatePullRequest h clk u env f r) (framed p s) s.
Proof.
  unfold _generatePullRequest, framed. wp_steps.
  all: try (eapply wp_mono; [apply explain_framed|]; unfold framed;
            intros rx sx tx ([ax ->] & Hc & Hn); cbn beta iota).
  all: (split; [eauto|]); split;
    [ cbn [sourceCodeCache] in *; congruence
    | rewrite ?sourceReads_app, ?Hn; reflexivity ].
Qed.

Lemma afterFix_framed f r (s : Proc W) :
  wp (afterFix h clk u env rp f r) (framed p s) s.
Proof.
  unfold afterFix, framed. wp_steps.
  all: try (eapply wp_mono; [apply generatePR_framed|]; unfold framed;
            intros rx sx tx ([ax ->] & Hc & Hn); cbn beta iota).
  all: (split; [eauto|]); split;
    [ cbn [sourceCodeCache] in *; congruence
    | rewrite ?sourceReads_app, ?Hn; reflexivity ].
Qed.

(** With the source of [p] in the cache, or for a failure of another file,
    [generateFixSuggestion] does not read [p] and leaves its entry alone. *)
Lemma generateFix_reads f file (s : Proc W) :
  knownFile f = Some file ->
  (file = p -> truthy (sourceCodeCache s !! p) = true) ->
  wp (generateFixSuggestion h env f)
     (fun r s' t => (exists a, r = Ok a)
                    /\ sourceCodeCache s' !! p = sourceCodeCache s !! p
                    /\ sourceReads p t = 0%nat) s.
Proof.
  intros Hk Hp. unfold generateFixSuggestion. rewrite Hk.
  wp_steps.
  all: try (eapply wp_mono; [apply (callGenAI_frame h p)|];
            intros rx sx tx ([text ->] & Hc & Hn); cbn beta iota; wp_steps).
  all: cbn [sourceCodeCache] in *.
  all: try (assert (file <> p) by (intros ->; rewrite Hp in Eif by reflexivity; discriminate)).
  all: (split; [eauto|]); split;
    [ rewrite ?Hc; cbn [sourceCodeCache]; rewrite ?lookup_insert_ne by assumption; reflexivity
    | rewrite ?sourceReads_app, ?Hn; unfold sourceReads;
      cbn [List.filter isSourceRead ev_channel ev_action length app Nat.add fx];
      rewrite ?bool_decide_eq_false_2 by assumption; reflexivity ].
Qed.

(** A failure of another file, or without file, leaves the entry of [p]
    alone and does not read [p]. *)
Lemma fixOne_reads_other f (s : Proc W) :
  knownFile f <> Some p ->
  wp (fixOne h clk u env rp f)
     (fun r s' t => r = Ok tt
                    /\ sourceCodeCache s' !! p = sourceCodeCache s !! p
                    /\ sourceReads p t = 0%nat) s.
Proof.
  intros Hk. unfold fixOne. destruct (knownFile f) as [file|] eqn:Ek.
  2:{ wp_steps. repeat split. }
  assert (Hne : file <> p) by congruence.
  wp_steps.
  all: try (eapply wp_mono;
            [apply (generateFix_reads f file); [exact Ek | intros; contradiction]|];
            intros rx sx tx ([ax ->] & Hc & Hn); cbn beta iota;
            eapply wp_mono; [apply afterFix_framed|]; unfold framed;
            intros ry sy ty ([[] ->] & Hc' & Hn'); cbn beta iota).
  all: (split; [reflexivity|]); split;
    [ rewrite ?Hc', ?Hc; cbn [sourceCodeCache];
      rewrite ?lookup_insert_ne by assumption; reflexivity
    | rewrite ?sourceReads_app, ?Hn, ?Hn'; unfold sourceReads;
      cbn [List.filter isSourceRead ev_channel ev_action length app Nat.add fx];
      rewrite ?bool_decide_eq_false_2 by assumption; reflexivity ].
Qed.

(** A failure of the file [p] reads it exactly when the cache has no entry
    for it, and leaves a non-empty entry behind. *)
Lemma fixOne_reads_same f (s : Proc W) :
  readable h p -> cacheSound p s ->
  knownFile f = Some p ->
  wp (fixOne h clk u env rp f)
     (fun r s' t => r = Ok tt
                    /\ truthy (sourceCodeCache s' !! p) = true
                    /\ sourceReads p t =
                       match sourceCodeCache s !! p with
                       | Some _ => 0%nat
                       | None => 1%nat
                       end) s.
Proof.
  intros Hread Hsound Hk. unfold fixOne. rewrite Hk.
  unfold cacheSound in Hsound.
  wp_step. wp_step. wp_step. wp_step. wp_step. wp_step.
  destruct (sourceCodeCache s !! p) as [src|] eqn:Ec; cbn beta iota.
  - wp_step. wp_step.
    eapply wp_mono;
      [apply (generateFix_reads f p); [exact Hk | intros _; cbn [sourceCodeCache]; rewrite Ec; cbn; now rewrite decide_False]|].
    intros rx sx tx ([ax ->] & Hc & Hn); cbn beta iota.
    eapply wp_mono; [apply afterFix_framed|]. unfold framed.
    intros ry sy ty ([[] ->] & Hc' & Hn'); cbn beta iota.
    split; [reflexivity|]. split.
    + rewrite Hc', Hc. cbn [sourceCodeCache]. rewrite Ec. cbn. now rewrite decide_False.
    + rewrite ?sourceReads_app, Hn, Hn'. reflexivity.
  - wp_step. apply wp_call. intros r w E.
    destruct (Hread (world s)) as (src & w' & Hr & Hsrc).
    cbn [world] in E. rewrite Hr in E. injection E as <- <-. cbn beta iota.
    wp_step. wp_step.
    eapply wp_mono;
      [apply (generateFix_reads f p);
       [exact Hk | intros _; cbn [sourceCodeCache]; rewrite lookup_insert_eq; cbn; now rewrite decide_False]|].
    intros rx sx tx ([ax ->] & Hc & Hn); cbn beta iota.
    eapply wp_mono; [apply afterFix_framed|]. unfold framed.
    intros ry sy ty ([[] ->] & Hc' & Hn'); cbn beta iota.
    split; [reflexivity|]. split.
    + rewrite Hc', Hc. cbn [sourceCodeCache]. rewrite lookup_insert_eq. cbn. now rewrite decide_False.
    + rewrite ?sourceReads_app, Hn, Hn'. unfold sourceReads.
      cbn [List.filter isSourceRead ev_channel ev_action length app Nat.add fx].
      rewrite bool_decide_eq_true_2 by reflexivity. reflexivity.
Qed.

Lemma fixLoop_reads fs (s : Proc W) :
  readable h p -> cacheSound p s ->
  sourceReads p (trace (forEach fs (fixOne h clk u env rp) s)) =
  match sourceCodeCache s !! p with
  | Some _ => 0%nat
  | None => if existsb (fun f => bool_decide (knownFile f = Some p)) fs then 1%nat else 0%nat
  end.
Proof.
  intros Hread. revert s. induction fs as [|f fs IH]; intros s Hsound.
  - cbn. now destruct (sourceCodeCache s !! p).
  - cbn [forEach existsb]. unfold bind.
    destruct (decide (knownFile f = Some p)) as [Hk|Hk].
    + destruct (fixOne_reads_same f s Hread Hsound Hk) as (Hr & Hc & Hn).
      rewrite Hr. cbn [result trace]. rewrite sourceReads_app, Hn.
      rewrite bool_decide_eq_true_2 by exact Hk. cbn [orb].
      rewrite IH.
      * apply truthy_Some in Hc as (src & -> & _).
        destruct (sourceCodeCache s !! p); reflexivity.
      * unfold cacheSound. apply truthy_Some in Hc as (src & -> & Hne). exact Hne.
    + destruct (fixOne_reads_other f s Hk) as (Hr & Hc & Hn).
      rewrite Hr. cbn [result trace]. rewrite sourceReads_app, Hn.
      rewrite bool_decide_eq_false_2 by exact Hk. cbn [orb Nat.add].
      rewrite IH by (unfold cacheSound in *; now rewrite Hc).
      now rewrite Hc.
Qed.

(** X17.  When the file system answers the reads of a test file with a
    non-empty text, [_generateFixSuggestions] reads that file exactly once
    if some failure of the list belongs to it, however many failures do,
    and not at all otherwise: later failures of the file are served from
    the cache. *)
Theorem each_source_file_is_read_once fs (s : Proc W) :
  readable h p ->
  sourceReads p (trace (_generateFixSuggestions h clk u env rp fs s)) =
  if existsb (fun f => bool_decide (knownFile f = Some p)) fs then 1%nat else 0%nat.
Proof.
  intros Hread.
  change (wp (_generateFixSuggestions h clk u env rp fs)
            (fun _ _ t => sourceReads p t =
               if existsb (fun f => bool_decide (knownFile f = Some p)) fs
               then 1%nat else 0%nat) s).
  unfold _generateFixSuggestions. wp_step. wp_step. wp_step. wp_step. wp_step.
  unfold wp at 1.
  match goal with |- context [forEach fs _ ?s0] =>
    pose proof (fixLoop_reads fs s0 Hread I) as Hl;
    rewrite (proj1 (forEach_trace fs (fixOne h clk u env rp) s0
                      (fixOne_result h clk u env rp)))
  end.
  cbn beta iota. wp_step.
  rewrite !sourceReads_app, Hl. cbn [sourceCodeCache]. rewrite lookup_empty.
  unfold sourceReads. cbn. lia.
Qed.
End SourceCache.

(** ** The provider registry *)

Section RegistryFacts.
Context {C BugTracker Database Notifier PRProvider AIProvider W : Type}.
Context (getenv : W -> gmap string string).
Context (F : @Registry.Factories C BugTracker Database Notifier PRProvider AIProvider W).

Import Registry.

(** X18.  A getter of the registry creates its provider at most once: after
    a call that returned a provider, every later call returns that same
    provider without consulting the factory, the configuration or the
    environment, and leaves registry and world as they are.  This holds for
    all five getters. *)
Theorem a_resolved_provider_is_kept (st : State) (w : W) :
  (forall p st1 w1, getBugTrackerProvider getenv F st w = (Ok p, st1, w1) ->
     forall w2, getBugTrackerProvider getenv F st1 w2 = (Ok p, st1, w2))
  /\ (forall p st1 w1, getDatabaseProvider getenv F st w = (Ok p, st1, w1) ->
        forall w2, getDatabaseProvider getenv F st1 w2 = (Ok p, st1, w2))
  /\ (forall p st1 w1, getNotificationProvider getenv F st w = (Ok p, st1, w1) ->
        forall w2, getNotificationProvider getenv F st1 w2 = (Ok p, st1, w2))
  /\ (forall p st1 w1, getPRProvider getenv F st w = (Ok p, st1, w1) ->
        forall w2, getPRProvider getenv F st1 w2 = (Ok p, st1, w2))
  /\ (forall p st1 w1, getAIProvider getenv F st w = (Ok p, st1, w1) ->
        forall w2, getAIProvider getenv F st1 w2 = (Ok p, st1, w2)).
Proof.
  repeat split; intros p st1 w1 H w2.
  - unfold getBugTrackerProvider in *.
    destruct (bugTrackerProvider st) as [q|] eqn:E.
    + injection H as <- <- <-. now rewrite E.
    + destruct (config (ensureConfig getenv w st) ≫= bugTracker) as [e|]; [|discriminate].
      destruct (createBugTracker F _ _ w) as [[q|err] w']; [|discriminate].
      injection H as <- <- <-. reflexivity.
  - unfold getDatabaseProvider in *.
    destruct (databaseProvider st) as [q|] eqn:E.
    + injection H as <- <- <-. now rewrite E.
    + destruct (config (ensureConfig getenv w st) ≫= database) as [e|]; [|discriminate].
      destruct (createDatabase F _ _ w) as [[q|err] w']; [|discriminate].
      injection H as <- <- <-. reflexivity.
  - unfold getNotificationProvider in *.
    destruct (notificationProvider st) as [q|] eqn:E.
    + injection H as <- <- <-. now rewrite E.
    + destruct (config (ensureConfig getenv w st) ≫= notification) as [e|]; [|discriminate].
      destruct (createNotifier F _ _ w) as [[q|err] w']; [|discriminate].
      injection H as <- <- <-. reflexivity.
  - unfold getPRProvider in *.
    destruct (prProvider st) as [q|] eqn:E.
    + injection H as <- <- <-. now rewrite E.
    + destruct (config (ensureConfig getenv w st) ≫= pr) as [e|]; [|discriminate].
      destruct (createPRProvider F _ _ w) as [[q|err] w']; [|discriminate].
      injection H as <- <- <-. reflexivity.
  - unfold getAIProvider in *.
    destruct (aiProvider st) as [q|] eqn:E.
    + injection H as <- <- <-. now rewrite E.
    + cbv zeta in H.
      destruct (createAIProvider F _ w) as [[q|err] w']; [|discriminate].
      injection H as <- <- <-. reflexivity.
Qed.

(** X19.  The registry reads the environment once.  A first lookup of the
    bug tracker while [BUG_TRACKER_PROVIDER] is unset or empty throws
    'Bug tracker configuration not found' and pins the configuration:
    every later lookup throws the same error without consulting the
    factory, also in a world where the variable is set by then.  Only
    after [reset] is the variable read again and the factory asked. *)
Theorem a_missing_configuration_is_remembered (st : State) (w : W) :
  bugTrackerProvider st = None ->
  config st = None ->
  entryOf (C:=C) (getenv w !! "BUG_TRACKER_PROVIDER") = None ->
  exists st1,
    getBugTrackerProvider getenv F st w =
      (Throw (ErrorObj "Bug tracker configuration not found"), st1, w)
    /\ (forall w2, getBugTrackerProvider getenv F st1 w2 =
                     (Throw (ErrorObj "Bug tracker configuration not found"), st1, w2))
    /\ (forall w2 t, getenv w2 !! "BUG_TRACKER_PROVIDER" = Some t -> t <> EmptyString ->
          (getBugTrackerProvider getenv F (reset st1) w2).1.1 =
          (createBugTracker F t None w2).1).
Proof.
  intros Hp Hc He. eexists. split; [|split].
  - unfold getBugTrackerProvider, ensureConfig. rewrite Hp, Hc.
    cbn [initialize withConfig config loadConfigFromEnv bugTracker mbind option_bind default from_option id].
    rewrite He. reflexivity.
  - intros w2. unfold getBugTrackerProvider, ensureConfig.
    cbn [initialize withConfig config bugTrackerProvider loadConfigFromEnv bugTracker mbind option_bind default from_option id].
    rewrite Hp, He. reflexivity.
  - intros w2 t Ht Hne. unfold getBugTrackerProvider, ensureConfig, reset, empty.
    cbn [initialize withConfig config bugTrackerProvider loadConfigFromEnv bugTracker mbind option_bind default from_option id].
    rewrite Ht. cbn [entryOf]. rewrite decide_False by exact Hne.
    cbn [entry_type entry_config].
    destruct (createBugTracker F t None w2) as [[q|err] w']; reflexivity.
Qed.
End RegistryFacts.

Section Hint.
Context {C BugTracker Database Notifier PRProvider AIProvider W0 : Type}.
Context (getenv : W0 -> gmap string string).
Context (F : @Registry.Factories C BugTracker Database Notifier PRProvider AIProvider W0).
Context {W : Type} (h : Handler W) (u : Helpers).

(** X20.  When the registry has no bug-tracker section it throws 'Bug
    tracker configuration not found'.  The bug channel answers that error
    with its two error lines and nothing else: the configuration hint is
    not shown, because the sentence the channel looks for, 'Bug tracker
    provider configuration not found', is not part of the registry's
    message.  No bug is requested and the channel returns normally. *)
Theorem a_missing_bug_tracker_gets_no_hint (st : Registry.State) (w0 : W0)
    fs (s : Proc W) w1 :
  Registry.bugTrackerProvider st = None ->
  Registry.config st = None ->
  Registry.entryOf (C:=C) (getenv w0 !! "BUG_TRACKER_PROVIDER") = None ->
  exists e,
    (Registry.getBugTrackerProvider getenv F st w0).1.1 = Throw e
    /\ (h _ GetBugTrackerProvider (world s) = (Throw e, w1) ->
        trace (_createBugsForFailures h u fs s) =
          [ logEv bug LBanner; callEv bug GetBugTrackerProvider;
            logEv bug (LChannelError e);
            logEv bug (LErrorMessage "Bug tracker configuration not found") ]
        /\ result (_createBugsForFailures h u fs s) = Ok tt).
Proof.
  intros Hp Hc He. exists (ErrorObj "Bug tracker configuration not found"). split.
  - unfold Registry.getBugTrackerProvider, Registry.ensureConfig. rewrite Hp, Hc.
    cbn [Registry.initialize Registry.withConfig Registry.config
         Registry.loadConfigFromEnv Registry.bugTracker mbind option_bind
         default from_option id].
    rewrite He. reflexivity.
  - intros Hh.
    change (wp (_createBugsForFailures h u fs)
              (fun r _ t =>
                 t = [ logEv bug LBanner; callEv bug GetBugTrackerProvider;
                       logEv bug (LChannelError (ErrorObj "Bug tracker configuration not found"));
                       logEv bug (LErrorMessage "Bug tracker configuration not found") ]
                 /\ r = Ok tt) s).
    unfold _createBugsForFailures. wp_step. wp_step. wp_step. wp_step.
    apply wp_call. intros r w E. cbn [world] in E. rewrite Hh in E. injection E as <- <-.
    cbn beta iota. unfold explain. wp_step. wp_step. wp_step. wp_step.
    change (existsb _ _) with false. cbn [when]. wp_step. split; reflexivity.
Qed.
End Hint.

(** ** HTML escaping *)

Lemma replaceAll_app c rep a b :
  replaceAll c rep (a ++ b) = replaceAll c rep a ++ replaceAll c rep b.
Proof.
  induction a as [|x a IH]; rewrite ?append_cons, ?append_nil_l; cbn [replaceAll].
  - reflexivity.
  - now rewrite IH, append_assoc.
Qed.

Lemma escape_one c :
  escapeHtml (String c EmptyString) = escapeChar c.
Proof. destruct c as [[] [] [] [] [] [] [] []]; vm_compute; reflexivity. Qed.

Lemma escapeHtml_app a b : escapeHtml (a ++ b) = escapeHtml a ++ escapeHtml b.
Proof. unfold escapeHtml. now rewrite !replaceAll_app. Qed.

Lemma escapeChar_clean c :
  forallb (fun x => negb (isMarkup x)) (list_ascii_of_string (escapeChar c)) = true.
Proof. destruct c as [[] [] [] [] [] [] [] []]; vm_compute; reflexivity. Qed.

Lemma chars_app a b :
  list_ascii_of_string (a ++ b) = (list_ascii_of_string a ++ list_ascii_of_string b)%list.
Proof.
  induction a as [|x a IH]; rewrite ?append_cons, ?append_nil_l; cbn [list_ascii_of_string app];
    congruence.
Qed.

Lemma escapeHtml_each text : escapeHtml text = escapeEach text.
Proof.
  induction text as [|c s IH]; [reflexivity|].
  change (String c s) with (String c EmptyString ++ s).
  rewrite escapeHtml_app, escape_one, IH. reflexivity.
Qed.

(** X21.  [escapeHtml] replaces every character by its entity, each exactly
    once: escaping the ampersand first keeps the entities of the later
    replacements intact.  The result holds no angle bracket and no quote. *)
Theorem escapeHtml_escapes_each_character_once text :
  escapeHtml text = escapeEach text
  /\ Forall (fun c => isMarkup c = false) (list_ascii_of_string (escapeHtml text)).
Proof.
  split; [apply escapeHtml_each|]. rewrite escapeHtml_each.
  induction text as [|c s IH]; cbn [escapeEach]; [constructor|].
  rewrite chars_app. apply Forall_app. split; [|apply IH].
  apply Forall_forall. intros x Hx. apply negb_true_iff.
  pose proof (escapeChar_clean c) as Hc. rewrite forallb_forall in Hc.
  apply Hc. now apply list_elem_of_In.
Qed.

(** ** The GitHub bug tracker behind the bug channel *)

Section GitHub.
Context (parseInt : string -> Z) (this : GitHubTracker.Tracker).

Import GitHubTracker.

Lemma createBug_returns api d :
  initialized this = Ok tt -> exists o, (createBug parseInt this api d).2 = Ok o.
Proof.
  intros Hi. unfold createBug, findBugs, addComment. rewrite Hi.
  destruct (search_issuesAndPullRequests api _ 100) as [[|i items]|e]; cbn [map snd].
  - destruct (issues_create api _); eauto.
  - destruct (issues_createComment api _ _ _ _); eauto.
  - destruct (issues_create api _); eauto.
Qed.

(** X22.  [createBug] of the GitHub tracker throws only when the tracker's
    initialisation failed, and then before any request.  Otherwise it
    searches once for an open issue with the bug's title; when the search
    answers a non-empty list it asks for a comment on the first issue and
    returns that issue, whether or not the comment was accepted; when the
    search answers nothing, or throws, it asks for a new issue and returns
    it, or [null] when that request throws. *)
Theorem createBug_comments_or_files api d :
  let q := searchQueryOf this
             {| q_title := Some (bd_title d); q_labels := None; q_status := None |} in
  let c := tracker_config this in
  let r := createBug parseInt this api d in
  match initialized this with
  | Throw e => r = ([], Throw e)
  | Ok _ =>
      match search_issuesAndPullRequests api q 100 with
      | Ok (i :: _) =>
          r = ([ SearchIssues q 100;
                 CreateComment (owner c) (repo c) (parseInt (pretty (number i)))
                   ("Test failed again:" ++ newline ++ newline ++ bd_description d) ],
               Ok (Some (bugInfoOf i)))
      | _ =>
          r.1 = [SearchIssues q 100; CreateIssue (newIssueOf this d)]
          /\ r.2 = match issues_create api (newIssueOf this d) with
                   | Ok created =>
                       Ok (Some {| bi_id := pretty (number created);
                                   bi_url := html_url created;
                                   bi_status := "Open";
                                   bi_title := issue_title created |})
                   | Throw _ => Ok None
                   end
      end
  end.
Proof.
  cbv zeta. unfold createBug, findBugs, addComment.
  destruct (initialized this) as [[]|e]; [|reflexivity].
  destruct (search_issuesAndPullRequests api _ 100) as [[|i items]|e]; cbn [map].
  - split; reflexivity.
  - cbn [bugInfoOf bi_id].
    destruct (issues_createComment api _ _ _ _); reflexivity.
  - split; reflexivity.
Qed.
End GitHub.

Section GitHubChannel.
Context {W : Type} (h : Handler W) (u : Helpers).
Context (parseInt : string -> Z) (this : GitHubTracker.Tracker).
Context (api : W -> GitHubTracker.Octokit).

(** X23.  With an initialised GitHub tracker behind [createBug], the bug
    channel never logs its error line for a failure, whatever the GitHub
    API answers or throws: the tracker turns every API error into [null],
    which the channel reports as no bug created. *)
Theorem github_errors_never_reach_the_bug_channel fs (s : Proc W) :
  GitHubTracker.initialized this = Ok tt ->
  (forall d w, (h _ (CreateBug d) w).1 = (GitHubTracker.createBug parseInt this (api w) d).2) ->
  Forall (fun ev => forall title e, ev <> logEv bug (LBugError title e))
    (trace (_createBugsForFailures h u fs s)).
Proof.
  intros Hi Hh.
  set (P := fun ev : Event => forall title e, ev <> logEv bug (LBugError title e)).
  assert (Hone : forall f s0, Forall P (trace (bugOne h u f s0))).
  { intros f s0.
    change (wp (bugOne h u f) (fun _ _ t => Forall P t) s0).
    unfold bugOne. wp_step. wp_step. wp_step. wp_step.
    apply wp_call. intros r w E.
    pose proof (Hh (bugDetailsOf u f) (world s0)) as Hr. rewrite E in Hr. cbn [fst] in Hr.
    destruct (createBug_returns parseInt this (api (world s0)) (bugDetailsOf u f) Hi) as [o Ho].
    rewrite Ho in Hr. subst r. cbn beta iota.
    destruct o; wp_step;
      repeat first [apply Forall_nil | apply Forall_app; split | apply Forall_cons; split];
      try exact I; intros title e; discriminate. }
  change (wp (_createBugsForFailures h u fs) (fun _ _ t => Forall P t) s).
  unfold _createBugsForFailures. wp_step. wp_step. wp_step. wp_step. wp_step.
  - wp_step. unfold wp at 1.
    match goal with |- context [forEach fs (bugOne h u) ?s0] =>
      pose proof (forEach_forall P fs (bugOne h u) s0 Hone) as Hl;
      rewrite (proj1 (forEach_trace fs (bugOne h u) s0
                        (fun x s1 => absorbed_result _ [bug] _
                                       (bugOne_absorbed h u [bug] x s1 (or_introl eq_refl)))))
    end.
    cbn beta iota. wp_step.
    repeat first [apply Forall_nil | apply Forall_app; split | apply Forall_cons; split
                 | exact Hl]; try exact I; intros title e'; discriminate.
  - unfold wp.
    match goal with |- context [trace (explain ?c ?n ?e0 ?s0)] =>
      pose proof (explain_says c n e0 s0) as Hx;
      set (tx := trace (explain c n e0 s0)) in *; clearbody tx
    end.
    repeat first [apply Forall_nil | apply Forall_app; split | apply Forall_cons; split];
      try exact I; try (intros title e'; discriminate).
    eapply Forall_impl; [exact Hx|]. intros ev (m & Hev & Hm) title e'.
    rewrite Hev. destruct m; try contradiction; discriminate.
Qed.
End GitHubChannel.

(** ** Examples *)

(** C5, the claim as stated fails: two tests named "login" in the suites
    "admin" and "shop" have different identities, yet their attempts land in
    one and the same record. *)
Lemma identity_key_counterexample :
  let rp := ingest Sample.helpers
              [TestEnd Sample.loginA (Sample.fail "boom");
               TestEnd Sample.loginB (Sample.pass 900)]
              (newReporter defaultConfig) in
  identityOf Sample.loginA <> identityOf Sample.loginB
  /\ store_keys (testRecords rp) = ["login"]
  /\ attemptsUnder "login" (testRecords rp) =
       [attemptOf (Sample.fail "boom"); attemptOf (Sample.pass 900)].
Proof. split; [discriminate|]. split; reflexivity. Qed.

(** C8, the claim as stated fails: with recipients configured and one
    failure, a summary request that throws leaves the failures notification
    unsent. *)
Lemma failures_notification_counterexample :
  let t := trace (_sendEmailNotification (Sample.handler Sample.mailDown) Sample.penv
                    Sample.aSummary [Sample.aFailure] Sample.start) in
  recipientsOf Sample.penv <> []
  /\ [Sample.aFailure] <> []
  /\ length (summarySends t) = 1%nat
  /\ failureSends t = [].
Proof.
  split; [vm_compute; discriminate|]. split; [discriminate|].
  split; vm_compute; reflexivity.
Qed.

(** [generateFixSuggestion] returns a result also when the AI provider
    throws: [callGenAISuggestion] turns the error into the suggestion text,
    which is then saved as the fix. *)
Example ai_error_still_yields_a_fix :
  result (generateFixSuggestion (Sample.handler Sample.aiUnavailable) Sample.penv
            Sample.aFailure Sample.start)
  = Ok (Some {| promptPath := "/repo/test-results/prompts/a-1.md";
                fixPath := "/repo/test-results/fixes/fix-a-1.md" |}).
Proof. vm_compute. reflexivity. Qed.

(** A test that fails first and passes on retry leaves the failures list
    empty. *)
Example retried_test_is_no_failure :
  pr_failures
    (specProcessTestResults Sample.categorize
       (testRecords (Sample.collect Sample.allOn
                       [TestEnd Sample.checkout (Sample.fail "flaky");
                        TestEnd Sample.checkout (Sample.pass 700)]))) = [].
Proof. reflexivity. Qed.

Lemma exit_signal_decision_witness :
  let rp := Sample.collect Sample.allOn [TestEnd Sample.checkout (Sample.pass 1000)] in
  let p := processTestResults Sample.helpers (testRecords rp) in
  let r := onEnd (Sample.handler Sample.noFaults) Sample.clock Sample.helpers Sample.penv rp
             Sample.start in
  0 <= pr_testCount p
  /\ result r = Ok tt
  /\ (exitCode (final r) = Some 0 \/ exitCode (final r) = Some 1)
  /\ (exitCode (final r) = Some 0 <->
      0 < pr_testCount p /\ pr_failures p = [] /\ nonTestErrors rp = []
      /\ hasInterruptedTests rp = false).
Proof.
  intros rp p r.
  assert (H0 : 0 <= pr_testCount p) by (vm_compute; discriminate).
  assert (H1 : result r = Ok tt) by (vm_compute; reflexivity).
  split; [exact H0|]. split; [exact H1|].
  exact (exit_signal_decision (Sample.handler Sample.noFaults) Sample.clock Sample.helpers
           Sample.penv rp Sample.start H0 H1).
Defined.

Lemma bug_channel_failure_is_absorbed_witness :
  let h := Sample.handler Sample.trackerDown in
  let rp := Sample.mixedRun in
  let p := processTestResults Sample.helpers (testRecords rp) in
  let r := onEnd h Sample.clock Sample.helpers Sample.penv rp Sample.start in
  let r' := onEnd h Sample.clock Sample.helpers Sample.penv (withCreateBug false rp)
              Sample.start in
  bugTrackerAlwaysThrows h
  /\ reportingTotal h
  /\ createBug (config rp) = true
  /\ pr_testCount p <> 0
  /\ result r = Ok tt
  /\ exitCode (final r) = exitCode (final r')
  /\ (forall i, ~ In (logEv bug (LBugCreated i)) (trace r))
  /\ (publishToDB (config rp) = true -> In (logEv db LBanner) (trace r))
  /\ (sendEmail (config rp) = true -> In (logEv mail LBanner) (trace r)).
Proof.
  intros h rp p r r'.
  assert (H0 : bugTrackerAlwaysThrows h).
  { intros d w. eexists _, _. reflexivity. }
  assert (H1 : reportingTotal h).
  { split; [intros w | intros sm cases w]; eexists; try eexists; reflexivity. }
  assert (H2 : createBug (config rp) = true) by reflexivity.
  assert (H3 : pr_testCount p <> 0) by (vm_compute; discriminate).
  split; [exact H0|]. split; [exact H1|]. split; [exact H2|]. split; [exact H3|].
  exact (bug_channel_failure_is_absorbed h Sample.clock Sample.helpers Sample.penv rp
           Sample.start H0 H1 H2 H3).
Defined.

Lemma no_tests_discovered_witness :
  let rp := Sample.collect Sample.allOn [] in
  let r := onEnd (Sample.handler Sample.noFaults) Sample.clock Sample.helpers Sample.penv rp
             Sample.start in
  pr_testCount (processTestResults Sample.helpers (testRecords rp)) = 0
  /\ result r = Ok tt
  /\ exitCode (final r) = Some 1
  /\ trace r = [logEv None LNoTests].
Proof.
  intros rp r.
  assert (H0 : pr_testCount (processTestResults Sample.helpers (testRecords rp)) = 0)
    by reflexivity.
  split; [exact H0|].
  exact (no_tests_discovered (Sample.handler Sample.noFaults) Sample.clock Sample.helpers
           Sample.penv rp Sample.start H0).
Defined.

Lemma summary_counts_add_up_witness :
  let r := Sample.run Sample.noFaults Sample.allOn
             [TestEnd Sample.loginA (Sample.fail "Timeout 30000ms exceeded");
              TestEnd Sample.checkout (Sample.pass 1000)] in
  In Sample.aSummary (loggedSummaries (trace r))
  /\ passedCount Sample.aSummary + failedCount Sample.aSummary
     + skippedCount Sample.aSummary = testCount Sample.aSummary.
Proof.
  intros r.
  assert (H0 : In Sample.aSummary (loggedSummaries (trace r))).
  { vm_compute. left. reflexivity. }
  split; [exact H0|].
  exact (summary_counts_add_up (Sample.handler Sample.noFaults) Sample.clock Sample.helpers
           Sample.penv Sample.mixedRun Sample.start Sample.aSummary H0).
Defined.

Lemma notification_sends_witness :
  let h := Sample.handler Sample.noFaults in
  let t := trace (_sendEmailNotification h Sample.penv Sample.aSummary [Sample.aFailure]
                    Sample.start) in
  let rs := recipientsOf Sample.penv in
  let o := summaryOptionsOf Sample.aSummary rs in
  truthy (NOTIFICATION_PROVIDER Sample.penv) = true
  /\ h _ GetNotificationProvider (world Sample.start) = (Ok tt, 1000)
  /\ (rs <> [] ->
      summarySends t = [(Sample.aSummary, o)]
      /\ (0 < failedCount Sample.aSummary -> severity o = Error)
      /\ (failedCount Sample.aSummary <= 0 ->
          testCount Sample.aSummary < 5 * skippedCount Sample.aSummary ->
          severity o = Warning)
      /\ (failedCount Sample.aSummary <= 0 ->
          5 * skippedCount Sample.aSummary <= testCount Sample.aSummary ->
          severity o = Info)
      /\ failureSends t =
           match fst (h _ (SendTestSummary Sample.aSummary o) 1000) with
           | Ok _ => if nonEmpty [Sample.aFailure]
                     then [([Sample.aFailure], failuresOptionsOf [Sample.aFailure] rs)]
                     else []
           | Throw _ => []
           end).
Proof.
  intros h t rs o.
  assert (H0 : truthy (NOTIFICATION_PROVIDER Sample.penv) = true) by reflexivity.
  assert (H1 : h _ GetNotificationProvider (world Sample.start) = (Ok tt, 1000))
    by reflexivity.
  split; [exact H0|]. split; [exact H1|].
  exact (proj2 (notification_sends h Sample.penv Sample.aSummary [Sample.aFailure]
                  Sample.start 1000 H0 H1)).
Defined.

(** ** The hypotheses of the statements above, at sample inputs *)

Lemma trouble_outside_results_fails_the_run_witness :
  let evs := Fixtures.interruptedThenPassed in
  let rp := ingest Sample.helpers evs (onBegin 0 [] (newReporter Sample.allOn)) in
  let r := onEnd (Sample.handler Sample.noFaults) Sample.clock Sample.helpers Sample.penv rp
             Sample.start in
  ((exists t res, In (TestEnd t res) evs /\ tr_status res = interrupted)
   \/ (exists e, In (SetupError e) evs))
  /\ result r = Ok tt
  /\ pr_failures (processTestResults Sample.helpers (testRecords rp)) = []
  /\ exitCode (final r) = Some 1.
Proof.
  intros evs rp r.
  assert (H0 : (exists t res, In (TestEnd t res) evs /\ tr_status res = interrupted)
               \/ (exists e, In (SetupError e) evs)).
  { left. exists Sample.checkout, Sample.interrupt. split; [left; reflexivity | reflexivity]. }
  assert (H1 : result r = Ok tt) by (vm_compute; reflexivity).
  split; [exact H0|]. split; [exact H1|]. split; [reflexivity|].
  exact (trouble_outside_results_fails_the_run (Sample.handler Sample.noFaults) Sample.clock
           Sample.helpers Sample.penv Sample.allOn 0 [] evs Sample.start H0 H1).
Defined.


Lemma recipients_of_a_set_variable_witness :
  EMAIL_RECIPIENTS Sample.penv = Some "dev@example.test, qa@example.test"
  /\ recipientsOf Sample.penv <> []
  /\ length (recipientsOf Sample.penv) = 2%nat
  /\ Forall (fun r => trim r = r) (recipientsOf Sample.penv).
Proof.
  assert (H0 : EMAIL_RECIPIENTS Sample.penv = Some "dev@example.test, qa@example.test")
    by reflexivity.
  split; [exact H0|].
  exact (recipients_of_a_set_variable Sample.penv "dev@example.test, qa@example.test" H0).
Defined.


Lemma each_source_file_is_read_once_witness :
  let h := Sample.handler Sample.noFaults in
  let p := "/repo/tests/shop.spec.ts" in
  readable h p
  /\ sourceReads p
       (trace (_generateFixSuggestions h Sample.clock Sample.helpers Sample.penv
                 Sample.mixedRun Fixtures.shopFailures Sample.start)) = 1%nat.
Proof.
  intros h p.
  assert (H0 : readable h p).
  { intros w. eexists _, _. split; [reflexivity | discriminate]. }
  split; [exact H0|].
  exact (each_source_file_is_read_once h Sample.clock Sample.helpers Sample.penv
           Sample.mixedRun p Fixtures.shopFailures Sample.start H0).
Defined.

Lemma a_missing_configuration_is_remembered_witness :
  let st := @Registry.empty unit string string string string string in
  let w : gmap string string := ∅ in
  Registry.bugTrackerProvider st = None
  /\ Registry.config st = None
  /\ Registry.entryOf (C:=unit) (id w !! "BUG_TRACKER_PROVIDER") = None
  /\ exists st1,
       Registry.getBugTrackerProvider id Fixtures.named st w =
         (Throw (ErrorObj "Bug tracker configuration not found"), st1, w)
       /\ (forall w2, Registry.getBugTrackerProvider id Fixtures.named st1 w2 =
                        (Throw (ErrorObj "Bug tracker configuration not found"), st1, w2))
       /\ (forall w2 t, id w2 !! "BUG_TRACKER_PROVIDER" = Some t -> t <> EmptyString ->
             (Registry.getBugTrackerProvider id Fixtures.named (Registry.reset st1) w2).1.1 =
             (Registry.createBugTracker Fixtures.named t None w2).1).
Proof.
  intros st w.
  assert (H0 : Registry.bugTrackerProvider st = None) by reflexivity.
  assert (H1 : Registry.config st = None) by reflexivity.
  assert (H2 : Registry.entryOf (C:=unit) (id w !! "BUG_TRACKER_PROVIDER") = None)
    by reflexivity.
  split; [exact H0|]. split; [exact H1|]. split; [exact H2|].
  exact (a_missing_configuration_is_remembered id Fixtures.named st w H0 H1 H2).
Defined.

Lemma a_missing_bug_tracker_gets_no_hint_witness :
  let st := @Registry.empty unit string string string string string in
  let w : gmap string string := ∅ in
  let e := ErrorObj "Bug tracker configuration not found" in
  Registry.bugTrackerProvider st = None
  /\ Registry.config st = None
  /\ Registry.entryOf (C:=unit) (id w !! "BUG_TRACKER_PROVIDER") = None
  /\ Fixtures.noTracker _ GetBugTrackerProvider (world Sample.start) = (Throw e, 1000)
  /\ exists e',
       (Registry.getBugTrackerProvider id Fixtures.named st w).1.1 = Throw e'
       /\ (Fixtures.noTracker _ GetBugTrackerProvider (world Sample.start) = (Throw e', 1000) ->
           trace (_createBugsForFailures Fixtures.noTracker Sample.helpers [Sample.aFailure]
                    Sample.start) =
             [ logEv bug LBanner; callEv bug GetBugTrackerProvider;
               logEv bug (LChannelError e');
               logEv bug (LErrorMessage "Bug tracker configuration not found") ]
           /\ result (_createBugsForFailures Fixtures.noTracker Sample.helpers [Sample.aFailure]
                        Sample.start) = Ok tt).
Proof.
  intros st w e.
  assert (H0 : Registry.bugTrackerProvider st = None) by reflexivity.
  assert (H1 : Registry.config st = None) by reflexivity.
  assert (H2 : Registry.entryOf (C:=unit) (id w !! "BUG_TRACKER_PROVIDER") = None)
    by reflexivity.
  split; [exact H0|]. split; [exact H1|]. split; [exact H2|]. split; [reflexivity|].
  exact (a_missing_bug_tracker_gets_no_hint id Fixtures.named Fixtures.noTracker
           Sample.helpers st w [Sample.aFailure] Sample.start 1000 H0 H1 H2).
Defined.

Lemma github_errors_never_reach_the_bug_channel_witness :
  let h := Fixtures.githubDown in
  let api := fun _ : Z => Fixtures.octokitDown in
  let t := trace (_createBugsForFailures h Sample.helpers [Sample.aFailure] Sample.start) in
  GitHubTracker.initialized Fixtures.tracker = Ok tt
  /\ (forall d w, (h _ (CreateBug d) w).1 =
                  (GitHubTracker.createBug (fun _ => 0) Fixtures.tracker (api w) d).2)
  /\ In (logEv bug LBugNone) t
  /\ Forall (fun ev => forall title e, ev <> logEv bug (LBugError title e)) t.
Proof.
  intros h api t.
  assert (H0 : GitHubTracker.initialized Fixtures.tracker = Ok tt) by reflexivity.
  assert (H1 : forall d w, (h _ (CreateBug d) w).1 =
                 (GitHubTracker.createBug (fun _ => 0) Fixtures.tracker (api w) d).2)
    by reflexivity.
  split; [exact H0|]. split; [exact H1|].
  split; [vm_compute; do 4 right; left; reflexivity|].
  exact (github_errors_never_reach_the_bug_channel h Sample.helpers (fun _ => 0)
           Fixtures.tracker api [Sample.aFailure] Sample.start H0 H1).
Defined.
